(** * Solid-state ice convection of PlanetProfile: layer integration

    A shallow embedding of [Thermodynamics/FromLiterature/Convection.py]
    ([IceIConvect], [IceIIIConvect], [IceVConvect]) and the verification of
    its thermal-profile integration against the written specification.

    Modelling conventions.
    - Python floats and numpy float arrays are real numbers and lists of real
      numbers; [x ** y] on floats is [Rpower] (temperatures are positive),
      [x ** 2] and [x ** 3] with an integer exponent are [x ^ 2] and [x ^ 3],
      [np.pi] is [PI].  Division by zero does not raise on numpy floats and is
      simply [Rdiv] here.
    - The [Planet] object is mutated in place and exceptions leave it
      partially updated, so programs live in a state-and-exception monad whose
      outcome always carries the planet as it is at that moment.
    - Per-shell arrays are attributes of [Planet] addressed by their source
      name; indices are Python integers (negative indices wrap around, an
      index out of range raises [IndexError], or [OverflowError] when it
      does not fit a machine index).
    - The diagnostic narration under [Params.VERBOSE] prints only and is left
      out. *)

From Stdlib Require Import Reals Lra Lia ZArith.
From stdpp Require Import base tactics option list functions strings.

Local Open Scope R_scope.

(** ** Real numbers as Python floats *)

#[global] Instance Rlt_decision (x y : R) : Decision (x < y) := Rlt_dec x y.
#[global] Instance Rgt_decision (x y : R) : Decision (x > y) := Rgt_dec x y.
#[global] Instance Rle_decision (x y : R) : Decision (x <= y) := Rle_dec x y.
#[global] Instance R_inhabited : Inhabited R := populate 0.

(** [x ** y] for a float exponent. *)
Definition fpow (x y : R) : R := Rpower x y.
Infix "**" := fpow (at level 30, right associativity) : R_scope.

(** ** Python sequences and numpy arrays *)

(** [a[i]] with a Python integer: negative indices count from the end. *)
Definition py_index (n : nat) (i : Z) : option nat :=
  if decide (0 ≤ i < Z.of_nat n)%Z then Some (Z.to_nat i)
  else if decide (- Z.of_nat n ≤ i < 0)%Z then Some (Z.to_nat (Z.of_nat n + i))
  else None.

Definition list_getitem (a : list R) (i : Z) : option R :=
  k ← py_index (length a) i; a !! k.

Definition list_setitem (a : list R) (i : Z) (v : R) : option (list R) :=
  k ← py_index (length a) i; Some (<[k := v]> a).

(** A slice bound is clamped into [0, n]; a negative bound counts from the end. *)
Definition py_bound (n : nat) (i : Z) : nat :=
  Z.to_nat (Z.min (Z.of_nat n) (Z.max 0 (if decide (i < 0)%Z then Z.of_nat n + i else i))).

(** [a[lo:hi]] *)
Definition list_getslice (a : list R) (lo hi : Z) : list R :=
  let l := py_bound (length a) lo in
  let h := py_bound (length a) hi in
  take (h - l) (drop l a).

(** numpy broadcasting of a one-dimensional value to a given length:
    same length, or a single element repeated. *)
Definition broadcast_to (len : nat) (v : list R) : option (list R) :=
  if decide (length v = len) then Some v
  else match v with
       | [x] => Some (replicate len x)
       | _ => None
       end.

(** [a[lo:hi] = v]; [None] is numpy's shape-mismatch [ValueError]. *)
Definition list_setslice (a : list R) (lo hi : Z) (v : list R) : option (list R) :=
  let l := py_bound (length a) lo in
  let h := py_bound (length a) hi in
  v' ← broadcast_to (h - l) v;
  Some (take l a ++ v' ++ drop (l + (h - l)) a).

(** [a[inds]] with [inds] a range: every index is bounds-checked. *)
Definition list_take_idx (a : list R) (inds : list Z) : option (list R) :=
  mapM (list_getitem a) inds.

(** [a[inds] = v], the indices already resolved. *)
Definition list_put_at (a : list R) (ks : list nat) (v : list R) : list R :=
  foldl (λ acc kx, <[kx.1 := kx.2]> acc) a (zip ks v).

(** Two same-length arrays combined pointwise ([grid=False] evaluation of an
    interpolant broadcasts its two arguments against each other). *)
Definition broadcast2 (f : R → R → R) (xs ys : list R) : option (list R) :=
  if decide (length xs = length ys) then Some (zip_with f xs ys)
  else match xs, ys with
       | [x], _ => Some (f x <$> ys)
       | _, [y] => Some ((λ x, f x y) <$> xs)
       | _, _ => None
       end.

(** [np.sum] *)
Definition np_sum (a : list R) : R := foldr Rplus 0 a.

(** [range(a, b)] *)
Definition range (a b : Z) : list Z := seqZ a (b - a).

(** [inds[:-1]] on a range *)
Definition py_init (inds : list Z) : list Z := take (length inds - 1) inds.

(** [next(i[0] for i, val in np.ndenumerate(z) if val > x)]: the first index
    whose value exceeds [x]; [None] is [StopIteration]. *)
Definition next_index_gt (z : list R) (x : R) : option Z :=
  (λ kv, Z.of_nat kv.1) <$> list_find (λ val, val > x) z.

(** ** The planet *)

(** Equation-of-state function set of one phase ([fn_*] interpolants). *)
Record EOSStruct := {
  fn_rho_kgm3 : R → R → R;
  fn_Cp_JkgK : R → R → R;
  fn_alpha_pK : R → R → R;
  fn_kTherm_WmK : R → R → R
}.

(** [Planet.Bulk] *)
Inductive BulkAttr :=
  | Tsurf_K | R_m | Tb_K | TbIII_K | TbV_K | M_kg | clathMaxDepth_m.

(** [Planet.Steps] *)
Record StepsSubstruct := {
  nIbottom : Z;
  nIIIbottom : Z;
  nSurfIce : Z;
  nClath : Z
}.

(** [Planet.Do] *)
Record DoSubstruct := {
  CLATHRATE : bool;
  EQUIL_Q : bool
}.

(** [Planet.Ocean]; the two dictionaries of ice tables are keyed by phase name. *)
Record OceanSubstruct := {
  EOS : EOSStruct;
  surfIceEOS : string → option EOSStruct;
  iceEOS : string → option EOSStruct;
  QfromMantle_W : R
}.

(** Per-shell array attributes of [Planet]. *)
Inductive ArrayAttr :=
  | P_MPa | T_K | rho_kgm3 | Cp_JkgK | alpha_pK | kTherm_WmK
  | z_m | r_m | MLayer_kg | g_ms2.

(** Scalar float attributes of [Planet]. *)
Inductive ScalarAttr :=
  | PbI_MPa | PbClath_MPa | PbIII_MPa | PbV_MPa | zClath_m
  | Tconv_K | etaConv_Pas | eLid_m | deltaTBL_m | RaConvect
  | TconvIII_K | etaConvIII_Pas | eLidIII_m | deltaTBLIII_m | RaConvectIII
  | TconvV_K | etaConvV_Pas | eLidV_m | deltaTBLV_m | RaConvectV.

#[global] Instance BulkAttr_eq_dec : EqDecision BulkAttr.
Proof. solve_decision. Defined.
#[global] Instance ArrayAttr_eq_dec : EqDecision ArrayAttr.
Proof. solve_decision. Defined.
#[global] Instance ScalarAttr_eq_dec : EqDecision ScalarAttr.
Proof. solve_decision. Defined.

Record PlanetStruct := {
  Bulk : BulkAttr → R;
  Steps : StepsSubstruct;
  Do : DoSubstruct;
  Ocean : OceanSubstruct;
  arr : ArrayAttr → list R;
  attr : ScalarAttr → R
}.

Record ParamsStruct := { VERBOSE : bool }.

Definition set_Bulk (x : BulkAttr) (v : R) (p : PlanetStruct) : PlanetStruct :=
  {| Bulk := <[x := v]> (Bulk p); Steps := Steps p; Do := Do p;
     Ocean := Ocean p; arr := arr p; attr := attr p |}.

Definition set_QfromMantle_W (v : R) (p : PlanetStruct) : PlanetStruct :=
  {| Bulk := Bulk p; Steps := Steps p; Do := Do p;
     Ocean := {| EOS := EOS (Ocean p); surfIceEOS := surfIceEOS (Ocean p);
                 iceEOS := iceEOS (Ocean p); QfromMantle_W := v |};
     arr := arr p; attr := attr p |}.

Definition set_arr (F : ArrayAttr) (a : list R) (p : PlanetStruct) : PlanetStruct :=
  {| Bulk := Bulk p; Steps := Steps p; Do := Do p;
     Ocean := Ocean p; arr := <[F := a]> (arr p); attr := attr p |}.

Definition set_attr (x : ScalarAttr) (v : R) (p : PlanetStruct) : PlanetStruct :=
  {| Bulk := Bulk p; Steps := Steps p; Do := Do p;
     Ocean := Ocean p; arr := arr p; attr := <[x := v]> (attr p) |}.

(** ** State and exceptions *)

Inductive exn :=
  | ValueError | NameError | IndexError | OverflowError | KeyError | StopIteration.

(** The error of an integer index [i] that misses the array.  numpy first
    converts the index to the machine's [intp]: a Python integer outside
    [-2^63, 2^63) raises [OverflowError]; one that converts and is out of
    bounds raises [IndexError].  An array has fewer than 2^63 entries, so
    an index that hits it always converts, and testing the bounds first
    gives the same outcome. *)
Definition index_exn (i : Z) : exn :=
  if decide (- 2 ^ 63 ≤ i < 2 ^ 63)%Z then IndexError else OverflowError.

Inductive outcome (A : Type) : Type :=
  | Ok (a : A) (p : PlanetStruct)
  | Raise (e : exn) (p : PlanetStruct).
Arguments Ok {A} a p.
Arguments Raise {A} e p.

Definition M (A : Type) : Type := PlanetStruct → outcome A.

#[global] Instance M_ret : MRet M := λ A a p, Ok a p.
#[global] Instance M_bind : MBind M := λ A B k m p,
  match m p with
  | Ok a p' => k a p'
  | Raise e p' => Raise e p'
  end.

Definition raise {A} (e : exn) : M A := λ p, Raise e p.

Definition lift {A} (e : exn) (o : option A) : M A :=
  match o with Some a => mret a | None => raise e end.

Definition gets {A} (f : PlanetStruct → A) : M A := λ p, Ok (f p) p.

Definition modify (f : PlanetStruct → PlanetStruct) : M unit := λ p, Ok () (f p).

Notation "m1 ;; m2" := (mbind (λ _ : unit, m2) m1)
  (at level 100, m2 at level 200, only parsing, right associativity) : stdpp_scope.

(** [for x in l: acc = body(x, acc)] *)
Fixpoint for_ {A S} (l : list A) (body : A → S → M S) (acc : S) : M S :=
  match l with
  | [] => mret acc
  | x :: l' => acc' ← body x acc; for_ l' body acc'
  end.

(** [Planet.F[i]] *)
Definition getitem (F : ArrayAttr) (i : Z) : M R :=
  a ← gets (λ p, arr p F); lift (index_exn i) (list_getitem a i).

(** [Planet.F[i] = v] *)
Definition setitem (F : ArrayAttr) (i : Z) (v : R) : M unit :=
  a ← gets (λ p, arr p F);
  a' ← lift (index_exn i) (list_setitem a i v);
  modify (set_arr F a').

(** [Planet.F[lo:hi]] *)
Definition getslice (F : ArrayAttr) (lo hi : Z) : M (list R) :=
  gets (λ p, list_getslice (arr p F) lo hi).

(** [Planet.F[lo:hi] = v] *)
Definition setslice (F : ArrayAttr) (lo hi : Z) (v : list R) : M unit :=
  a ← gets (λ p, arr p F);
  a' ← lift ValueError (list_setslice a lo hi v);
  modify (set_arr F a').

(** [Planet.F[inds]], [inds] a range: every index is bounds-checked.  (The
    ranges of this module run from a shell found in [z_m] to a step count
    that has already indexed [z_m], so their entries fit a machine index.) *)
Definition take_idx (F : ArrayAttr) (inds : list Z) : M (list R) :=
  a ← gets (λ p, arr p F); lift IndexError (list_take_idx a inds).

(** [Planet.F[inds] = v] *)
Definition put_idx (F : ArrayAttr) (inds : list Z) (v : list R) : M unit :=
  a ← gets (λ p, arr p F);
  ks ← lift IndexError (mapM (py_index (length a)) inds);
  v' ← lift ValueError (broadcast_to (length ks) v);
  modify (set_arr F (list_put_at a ks v')).

(** [next(... np.ndenumerate(Planet.z_m) if val > x)] *)
Definition next_z_gt (x : R) : M Z :=
  z ← gets (λ p, arr p z_m); lift StopIteration (next_index_gt z x).

Definition bulk (x : BulkAttr) : M R := gets (λ p, Bulk p x).
Definition scalar (x : ScalarAttr) : M R := gets (λ p, attr p x).
Definition steps (f : StepsSubstruct → Z) : M Z := gets (λ p, f (Steps p)).

(** [Planet.Ocean.surfIceEOS[key]] and [Planet.Ocean.iceEOS[key]] *)
Definition surfIceEOS_at (key : string) : M EOSStruct :=
  d ← gets (λ p, surfIceEOS (Ocean p)); lift KeyError (d key).
Definition iceEOS_at (key : string) : M EOSStruct :=
  d ← gets (λ p, iceEOS (Ocean p)); lift KeyError (d key).

(** ** The convection regime reported by the classifier *)

(** [ConvectionDeschampsSotin2001] is imported from [ThermalProfiles] and
    returns six numbers, unpacked at each call site into [Tconv_K],
    [etaConv_Pas], [eLid_m], [deltaTBL_m], [Ocean.QfromMantle_W] and
    [RaConvect] (or their ice III and ice V counterparts), in this order.
    The integrator only consumes them. *)
Record ConvectionRegime := {
  convectedTemperature_K : R;
  effectiveViscosity_Pas : R;
  conductiveLidThickness_m : R;
  bottomBoundaryLayerThickness_m : R;
  heatFlowFromBelow_W : R;
  RayleighNumber : R
}.

Definition Classifier : Type :=
  R → R → R → R → R → R → R → EOSStruct → EOSStruct → Z → bool → ConvectionRegime.

(** ** Convection.py *)

Section Convection.

(** [Constants.G], imported from [Utilities.dataStructs]. *)
Variable G : R.

(** The regime classifier imported from [ThermalProfiles]. *)
Variable ConvectionDeschampsSotin2001 : Classifier.

(** What the name [ClathrateLayers] is bound to in the module's namespace
    when [IceIConvect] runs.  The module neither defines nor imports it
    (lines 1-4), so it is [None] unless a caller patches the module. *)
Variable ClathrateLayers : option (ParamsStruct → M unit).

(** The block repeated in every shell loop (lines 82-88, 97-103, 134-140
    and their copies for ice III and V): depth from the hydrostatic
    relation, radius, mass of the layer above, running mass, gravity.
    [thisMAbove_kg] is a local that may still be unbound. *)
Definition increment_depth (i : Z) (thisMAbove_kg : option R) : M (option R) :=
  zprev ← getitem z_m (i - 1);
  Pi ← getitem P_MPa i;
  Pprev ← getitem P_MPa (i - 1);
  gprev ← getitem g_ms2 (i - 1);
  rhoprev ← getitem rho_kgm3 (i - 1);
  setitem z_m i (zprev + (Pi - Pprev) * 1e6 / gprev / rhoprev);;
  Rm ← bulk R_m;
  zi ← getitem z_m i;
  setitem r_m i (Rm - zi);;
  rhoprev ← getitem rho_kgm3 (i - 1);
  rprev ← getitem r_m (i - 1);
  ri ← getitem r_m i;
  setitem MLayer_kg (i - 1) (4 / 3 * PI * rhoprev * (rprev ^ 3 - ri ^ 3));;
  mAbove ← lift NameError thisMAbove_kg;
  Mprev ← getitem MLayer_kg (i - 1);
  let thisMAbove_kg := mAbove + Mprev in
  Mtot ← bulk M_kg;
  let thisMBelow_kg := Mtot - thisMAbove_kg in
  ri ← getitem r_m i;
  setitem g_ms2 i (G * thisMBelow_kg / ri ^ 2);;
  mret (Some thisMAbove_kg).

(** One property re-evaluated at shell [i] (lines 108-111). *)
Definition eos_assign_item (eosref : M EOSStruct) (fn : EOSStruct → R → R → R)
    (F : ArrayAttr) (i : Z) : M unit :=
  eos ← eosref;
  Pi ← getitem P_MPa i;
  Ti ← getitem T_K i;
  setitem F i (fn eos Pi Ti).

(** Body of the convecting-layer loop (lines 96-111, 230-245, 372-387). *)
Definition convect_step (eosref : M EOSStruct) (i : Z) (thisMAbove_kg : option R)
    : M (option R) :=
  thisMAbove_kg ← increment_depth i thisMAbove_kg;
  Tprev ← getitem T_K (i - 1);
  Tprev' ← getitem T_K (i - 1);
  alphaprev ← getitem alpha_pK (i - 1);
  Cpprev ← getitem Cp_JkgK (i - 1);
  rhoprev ← getitem rho_kgm3 (i - 1);
  Pi ← getitem P_MPa i;
  Pprev ← getitem P_MPa (i - 1);
  setitem T_K i (Tprev + Tprev' * alphaprev / Cpprev / rhoprev * (Pi - Pprev) * 1e6);;
  eos_assign_item eosref fn_rho_kgm3 rho_kgm3 i;;
  eos_assign_item eosref fn_Cp_JkgK Cp_JkgK i;;
  eos_assign_item eosref fn_alpha_pK alpha_pK i;;
  eos_assign_item eosref fn_kTherm_WmK kTherm_WmK i;;
  mret thisMAbove_kg.

(** Conductive profile of the stagnant lid (lines 68-69, 198-199, 339-341):
    [T_K[top:iEnd+1] = Tconv**ratios * T_K[top]**(1 - ratios)]. *)
Definition assign_lid_T (top iEnd : Z) (Tconv PconvTop : R) : M unit :=
  Pslice ← getslice P_MPa top (iEnd + 1);
  let PlidRatios := (λ P, P / PconvTop) <$> Pslice in
  Ttop ← getitem T_K top;
  setslice T_K top (iEnd + 1) ((λ r, Tconv ** r * Ttop ** (1 - r)) <$> PlidRatios).

(** One property re-evaluated over a slice (one of lines 72-79). *)
Definition eos_assign_slice (eosref : M EOSStruct) (fn : EOSStruct → R → R → R)
    (F : ArrayAttr) (lo hi : Z) : M unit :=
  eos ← eosref;
  Ps ← getslice P_MPa lo hi;
  Ts ← getslice T_K lo hi;
  vals ← lift ValueError (broadcast2 (fn eos) Ps Ts);
  setslice F lo hi vals.

(** Physical properties of the lid and of one more shell (lines 72-79,
    202-213, 344-355). *)
Definition assign_lid_props (eosref : M EOSStruct) (top iEnd : Z) : M unit :=
  eos_assign_slice eosref fn_rho_kgm3 rho_kgm3 top (iEnd + 1);;
  eos_assign_slice eosref fn_Cp_JkgK Cp_JkgK top (iEnd + 1);;
  eos_assign_slice eosref fn_alpha_pK alpha_pK top (iEnd + 1);;
  eos_assign_slice eosref fn_kTherm_WmK kTherm_WmK top (iEnd + 1).

(** Conductive profile of the lower thermal boundary layer (lines 120-121,
    260-262, 402-403). *)
Definition assign_TBL_T (indsTBL : list Z) (Tb Pb : R) (iLast : Z) : M unit :=
  Ps ← take_idx P_MPa indsTBL;
  let PTBLratios := (λ P, P / Pb) <$> Ps in
  Tlast ← getitem T_K iLast;
  put_idx T_K indsTBL ((λ r, Tb ** r * Tlast ** (1 - r)) <$> PTBLratios).

(** One property re-evaluated over an index range (one of lines 124-131). *)
Definition eos_assign_idx (eosref : M EOSStruct) (fn : EOSStruct → R → R → R)
    (F : ArrayAttr) (inds : list Z) : M unit :=
  eos ← eosref;
  Ps ← take_idx P_MPa inds;
  Ts ← take_idx T_K inds;
  vals ← lift ValueError (broadcast2 (fn eos) Ps Ts);
  put_idx F inds vals.

(** Physical properties of the boundary layer but for its last shell
    (lines 124-131, 265-272, 406-413). *)
Definition assign_TBL_props (eosref : M EOSStruct) (indsTBL : list Z) : M unit :=
  eos_assign_idx eosref fn_rho_kgm3 rho_kgm3 (py_init indsTBL);;
  eos_assign_idx eosref fn_Cp_JkgK Cp_JkgK (py_init indsTBL);;
  eos_assign_idx eosref fn_alpha_pK alpha_pK (py_init indsTBL);;
  eos_assign_idx eosref fn_kTherm_WmK kTherm_WmK (py_init indsTBL).

(** Lines 62-69: the lid's temperature, by [ClathrateLayers] or by the
    power law; the result is the local [thisMAbove_kg], bound to 0 on the
    second branch only. *)
Definition IceIConvect_lid_T (Params : ParamsStruct) (nConduct : Z)
    (PconvTop_MPa : R) : M (option R) :=
  doClath ← gets (λ p, CLATHRATE (Do p));
  if (doClath : bool) then
    match ClathrateLayers with
    | Some f => f Params;; mret None
    | None => raise NameError
    end
  else
    Tconv ← scalar Tconv_K;
    assign_lid_T 0 nConduct Tconv PconvTop_MPa;;
    mret (Some 0).

(** Lines 48-144: conductive lid, convecting layer and lower boundary
    layer of ice I. *)
Definition IceIConvect_three_zone (Params : ParamsStruct) (zbI_m : R) : M unit :=
  eLid ← scalar eLid_m;
  nConduct ← next_z_gt eLid;
  dTBL ← scalar deltaTBL_m;
  iTBL ← next_z_gt (zbI_m - dTBL);
  let nConvect := (iTBL - nConduct)%Z in
  nIb ← steps nIbottom;
  let indsTBL := range (nConduct + nConvect) (nIb + 1) in
  nCl ← steps nClath;
  if decide (nCl > nConduct)%Z then @raise unit ValueError else
  PconvTop_MPa ← getitem P_MPa nConduct;
  thisMAbove_kg ← IceIConvect_lid_T Params nConduct PconvTop_MPa;
  assign_lid_props (surfIceEOS_at "Ih") 0 nConduct;;
  thisMAbove_kg ← for_ (range 1 nConduct) increment_depth thisMAbove_kg;
  thisMAbove_kg ← for_ (range nConduct (nConduct + nConvect))
                       (convect_step (surfIceEOS_at "Ih")) thisMAbove_kg;
  Tb ← bulk Tb_K;
  PbI ← scalar PbI_MPa;
  assign_TBL_T indsTBL Tb PbI (nConduct + nConvect - 1);;
  assign_TBL_props (surfIceEOS_at "Ih") indsTBL;;
  _ ← for_ indsTBL increment_depth thisMAbove_kg;
  mret ().

Definition IceIConvect (Params : ParamsStruct) : M unit :=
  nIb ← steps nIbottom;
  zbI_m ← getitem z_m (nIb - 1);
  PbI ← scalar PbI_MPa;
  PbClath ← scalar PbClath_MPa;
  let Pmid_MPa := (PbI - PbClath) / 2 in
  Tsurf ← bulk Tsurf_K;
  Rm ← bulk R_m;
  kTop ← getitem kTherm_WmK 0;
  Tb ← bulk Tb_K;
  gTop ← getitem g_ms2 0;
  oceanEOS ← gets (λ p, EOS (Ocean p));
  eosIh ← surfIceEOS_at "Ih";
  equilQ ← gets (λ p, EQUIL_Q (Do p));
  let regime := ConvectionDeschampsSotin2001 Tsurf Rm kTop Tb zbI_m gTop Pmid_MPa
                  oceanEOS eosIh 1%Z equilQ in
  modify (set_attr Tconv_K (convectedTemperature_K regime));;
  modify (set_attr etaConv_Pas (effectiveViscosity_Pas regime));;
  modify (set_attr eLid_m (conductiveLidThickness_m regime));;
  modify (set_attr deltaTBL_m (bottomBoundaryLayerThickness_m regime));;
  modify (set_QfromMantle_W (heatFlowFromBelow_W regime));;
  modify (set_attr RaConvect (RayleighNumber regime));;
  zClath ← scalar zClath_m;
  eLid ← scalar eLid_m;
  (if decide (zClath > eLid) then modify (set_Bulk clathMaxDepth_m eLid) else mret ());;
  eLid ← scalar eLid_m;
  dTBL ← scalar deltaTBL_m;
  if decide (zbI_m <= eLid + dTBL) then
    T1 ← getitem T_K 1;
    Tsurf ← bulk Tsurf_K;
    Rm ← bulk R_m;
    r1 ← getitem r_m 1;
    kTop ← getitem kTherm_WmK 0;
    let qSurf_Wm2 := (T1 - Tsurf) / (Rm - r1) * kTop in
    modify (set_QfromMantle_W (qSurf_Wm2 * 4 * PI * Rm ^ 2))
  else
    IceIConvect_three_zone Params zbI_m.

(** Lines 185-285. *)
Definition IceIIIConvect_three_zone (zbIII_m : R) : M unit :=
  nIb ← steps nIbottom;
  zTop ← getitem z_m nIb;
  eLid ← scalar eLidIII_m;
  iConductEnd ← next_z_gt (zTop + eLid);
  dTBL ← scalar deltaTBLIII_m;
  iConvectEnd ← next_z_gt (zTop + zbIII_m - dTBL);
  nIIIb ← steps nIIIbottom;
  let indsTBL := range iConvectEnd (nIIIb + 1) in
  PconvTopIII_MPa ← getitem P_MPa iConductEnd;
  Mabove ← getslice MLayer_kg 0 nIb;
  let thisMAbove_kg := Some (np_sum Mabove) in
  Tconv ← scalar TconvIII_K;
  assign_lid_T nIb iConductEnd Tconv PconvTopIII_MPa;;
  assign_lid_props (surfIceEOS_at "III") nIb iConductEnd;;
  thisMAbove_kg ← for_ (range (nIb + 1) iConductEnd) increment_depth thisMAbove_kg;
  thisMAbove_kg ← for_ (range iConductEnd iConvectEnd)
                       (convect_step (surfIceEOS_at "III")) thisMAbove_kg;
  Tlast ← getitem T_K (iConvectEnd - 1);
  TbIII ← bulk TbIII_K;
  if decide (Tlast > TbIII) then @raise unit ValueError else
  PbIII ← scalar PbIII_MPa;
  assign_TBL_T indsTBL TbIII PbIII (iConvectEnd - 1);;
  assign_TBL_props (surfIceEOS_at "III") indsTBL;;
  _ ← for_ indsTBL increment_depth thisMAbove_kg;
  mret ().

Definition IceIIIConvect (Params : ParamsStruct) : M unit :=
  nIIIb ← steps nIIIbottom;
  zIIIb ← getitem z_m (nIIIb - 1);
  nIb ← steps nIbottom;
  zIb ← getitem z_m (nIb - 1);
  let zbIII_m := zIIIb - zIb in
  PbIII ← scalar PbIII_MPa;
  PbI ← scalar PbI_MPa;
  let PmidIII_MPa := (PbIII - PbI) / 2 in
  Tb ← bulk Tb_K;
  rTop ← getitem r_m nIb;
  kTop ← getitem kTherm_WmK nIb;
  TbIII ← bulk TbIII_K;
  gTop ← getitem g_ms2 nIb;
  oceanEOS ← gets (λ p, EOS (Ocean p));
  eosIII ← surfIceEOS_at "III";
  equilQ ← gets (λ p, EQUIL_Q (Do p));
  let regime := ConvectionDeschampsSotin2001 Tb rTop kTop TbIII zbIII_m gTop PmidIII_MPa
                  oceanEOS eosIII 3%Z equilQ in
  modify (set_attr TconvIII_K (convectedTemperature_K regime));;
  modify (set_attr etaConvIII_Pas (effectiveViscosity_Pas regime));;
  modify (set_attr eLidIII_m (conductiveLidThickness_m regime));;
  modify (set_attr deltaTBLIII_m (bottomBoundaryLayerThickness_m regime));;
  modify (set_QfromMantle_W (heatFlowFromBelow_W regime));;
  modify (set_attr RaConvectIII (RayleighNumber regime));;
  eLid ← scalar eLidIII_m;
  dTBL ← scalar deltaTBLIII_m;
  if decide (zbIII_m <= eLid + dTBL) then
    mret ()
  else
    IceIIIConvect_three_zone zbIII_m.

(** Lines 326-426. *)
Definition IceVConvect_three_zone (zbV_m : R) : M unit :=
  nIIIb ← steps nIIIbottom;
  zTop ← getitem z_m nIIIb;
  eLid ← scalar eLidV_m;
  iConductEnd ← next_z_gt (zTop + eLid);
  dTBL ← scalar deltaTBLV_m;
  iConvectEnd ← next_z_gt (zTop + zbV_m - dTBL);
  nSurf ← steps nSurfIce;
  let indsTBL := range iConvectEnd (nSurf + 1) in
  PconvTopV_MPa ← getitem P_MPa iConductEnd;
  Mabove ← getslice MLayer_kg 0 nIIIb;
  let thisMAbove_kg := Some (np_sum Mabove) in
  Tconv ← scalar TconvV_K;
  assign_lid_T nIIIb iConductEnd Tconv PconvTopV_MPa;;
  assign_lid_props (surfIceEOS_at "V") nIIIb iConductEnd;;
  thisMAbove_kg ← for_ (range (nIIIb + 1) iConductEnd) increment_depth thisMAbove_kg;
  thisMAbove_kg ← for_ (range iConductEnd iConvectEnd)
                       (convect_step (iceEOS_at "V")) thisMAbove_kg;
  Tlast ← getitem T_K (iConvectEnd - 1);
  TbV ← bulk TbV_K;
  if decide (Tlast > TbV) then @raise unit ValueError else
  PbV ← scalar PbV_MPa;
  assign_TBL_T indsTBL TbV PbV (iConvectEnd - 1);;
  assign_TBL_props (surfIceEOS_at "V") indsTBL;;
  _ ← for_ indsTBL increment_depth thisMAbove_kg;
  mret ().

Definition IceVConvect (Params : ParamsStruct) : M unit :=
  nSurf ← steps nSurfIce;
  zVb ← getitem z_m (nSurf - 1);
  nIIIb ← steps nIIIbottom;
  zIIIb ← getitem z_m (nIIIb - 1);
  let zbV_m := zVb - zIIIb in
  PbV ← scalar PbV_MPa;
  PbIII ← scalar PbIII_MPa;
  let PmidV_MPa := (PbV - PbIII) / 2 in
  TbIII ← bulk TbIII_K;
  rTop ← getitem r_m nIIIb;
  kTop ← getitem kTherm_WmK nIIIb;
  TbV ← bulk TbV_K;
  gTop ← getitem g_ms2 nIIIb;
  oceanEOS ← gets (λ p, EOS (Ocean p));
  eosV ← surfIceEOS_at "V";
  equilQ ← gets (λ p, EQUIL_Q (Do p));
  let regime := ConvectionDeschampsSotin2001 TbIII rTop kTop TbV zbV_m gTop PmidV_MPa
                  oceanEOS eosV 5%Z equilQ in
  modify (set_attr TconvV_K (convectedTemperature_K regime));;
  modify (set_attr etaConvV_Pas (effectiveViscosity_Pas regime));;
  modify (set_attr eLidV_m (conductiveLidThickness_m regime));;
  modify (set_attr deltaTBLV_m (bottomBoundaryLayerThickness_m regime));;
  modify (set_QfromMantle_W (heatFlowFromBelow_W regime));;
  modify (set_attr RaConvectV (RayleighNumber regime));;
  eLid ← scalar eLidV_m;
  dTBL ← scalar deltaTBLV_m;
  if decide (zbV_m <= eLid + dTBL) then
    mret ()
  else
    IceVConvect_three_zone zbV_m.

End Convection.

(** ** Vocabulary of the properties *)

(** The value of array attribute [F] at shell index [i]. *)
Definition shell (p : PlanetStruct) (F : ArrayAttr) (i : Z) : R :=
  arr p F !!! Z.to_nat i.

(** Every per-shell array has [n] entries (the shell stack is sized once). *)
Definition shells (n : nat) (p : PlanetStruct) : Prop :=
  ∀ F, length (arr p F) = n.

(** Everything but the per-shell arrays is the same in [p] and [p']. *)
Definition same_env (p p' : PlanetStruct) : Prop :=
  Bulk p' = Bulk p ∧ Steps p' = Steps p ∧ Do p' = Do p ∧ Ocean p' = Ocean p
  ∧ attr p' = attr p.

(** [p] with [F[i] = v], for an index in range. *)
Definition upd (F : ArrayAttr) (i : Z) (v : R) (p : PlanetStruct) : PlanetStruct :=
  set_arr F (<[Z.to_nat i := v]> (arr p F)) p.

(** [p] with [F[j] = f j] for every [lo <= j < hi]. *)
Definition fill (F : ArrayAttr) (lo hi : Z) (f : Z → R) (p : PlanetStruct) : PlanetStruct :=
  set_arr F (imap (λ k x, if decide (lo ≤ Z.of_nat k < hi)%Z then f (Z.of_nat k) else x)
                  (arr p F)) p.

(** A table reference that resolves to [eos] whatever the arrays hold. *)
Definition resolves (eosref : M EOSStruct) (eos : EOSStruct) (p : PlanetStruct) : Prop :=
  ∀ q, Ocean q = Ocean p → eosref q = Ok eos q.

(** The four transport properties re-evaluated on [lo <= j < hi] from table
    [eos] at the pressures and temperatures of [p]. *)
Definition fill_props (eos : EOSStruct) (lo hi : Z) (p : PlanetStruct) : PlanetStruct :=
  fill kTherm_WmK lo hi (λ j, fn_kTherm_WmK eos (shell p P_MPa j) (shell p T_K j))
    (fill alpha_pK lo hi (λ j, fn_alpha_pK eos (shell p P_MPa j) (shell p T_K j))
      (fill Cp_JkgK lo hi (λ j, fn_Cp_JkgK eos (shell p P_MPa j) (shell p T_K j))
        (fill rho_kgm3 lo hi (λ j, fn_rho_kgm3 eos (shell p P_MPa j) (shell p T_K j)) p))).

(** The pressure-ratio power law between temperature [Ta] at zero pressure
    ratio and [Tb] at ratio one. *)
Definition power_law (Tb Ta Pref P : R) : R :=
  Tb ** (P / Pref) * Ta ** (1 - P / Pref).

(** [sumZ f lo hi] is the sum of [f j] over [lo <= j < hi]. *)
Definition sumZ (f : Z → R) (lo hi : Z) : R := np_sum (f <$> range lo hi).

(** [p'] differs from [p] at most on the array entries in [fp]. *)
Definition unchanged_except (fp : ArrayAttr → Z → Prop) (p p' : PlanetStruct) : Prop :=
  ∀ F j, (0 ≤ j)%Z → ¬ fp F j → shell p' F j = shell p F j.

(** [p] and [p'] agree on every shell up to [i], and on the layer masses
    above it. *)
Definition agree_upto (i : Z) (p p' : PlanetStruct) : Prop :=
  Bulk p' = Bulk p
  ∧ ∀ F j, (0 ≤ j ≤ i)%Z → (F = MLayer_kg → (j < i)%Z) → shell p' F j = shell p F j.

(** What one pass of the depth block leaves at shell [i], [mAbove] being the
    running mass before it: hydrostatic depth from the previous shell's
    gravity and density, radius, mass of the layer above, gravity from the
    mass below. *)
Definition HydroEq (G : R) (p : PlanetStruct) (mAbove : R) (i : Z) : Prop :=
  shell p z_m i
  = shell p z_m (i - 1)
    + (shell p P_MPa i - shell p P_MPa (i - 1)) * 1e6
      / shell p g_ms2 (i - 1) / shell p rho_kgm3 (i - 1)
  ∧ shell p r_m i = Bulk p R_m - shell p z_m i
  ∧ shell p MLayer_kg (i - 1)
    = 4 / 3 * PI * shell p rho_kgm3 (i - 1)
      * (shell p r_m (i - 1) ^ 3 - shell p r_m i ^ 3)
  ∧ shell p g_ms2 i
    = G * (Bulk p M_kg - (mAbove + shell p MLayer_kg (i - 1))) / shell p r_m i ^ 2.

(** The transport properties of shell [i] are those of table [eos] at the
    shell's pressure and temperature. *)
Definition PropsEq (eos : EOSStruct) (p : PlanetStruct) (i : Z) : Prop :=
  shell p rho_kgm3 i = fn_rho_kgm3 eos (shell p P_MPa i) (shell p T_K i)
  ∧ shell p Cp_JkgK i = fn_Cp_JkgK eos (shell p P_MPa i) (shell p T_K i)
  ∧ shell p alpha_pK i = fn_alpha_pK eos (shell p P_MPa i) (shell p T_K i)
  ∧ shell p kTherm_WmK i = fn_kTherm_WmK eos (shell p P_MPa i) (shell p T_K i).

(** Adiabatic propagation of temperature into shell [i]. *)
Definition AdiabatEq (p : PlanetStruct) (i : Z) : Prop :=
  shell p T_K i
  = shell p T_K (i - 1)
    + shell p T_K (i - 1) * shell p alpha_pK (i - 1) / shell p Cp_JkgK (i - 1)
      / shell p rho_kgm3 (i - 1) * (shell p P_MPa i - shell p P_MPa (i - 1)) * 1e6.

(** Array entries written by one pass of the depth block at shell [i], and by
    one pass of the convecting-layer body. *)
Definition depth_footprint (i : Z) (F : ArrayAttr) (j : Z) : Prop :=
  (F = z_m ∨ F = r_m ∨ F = g_ms2) ∧ j = i ∨ F = MLayer_kg ∧ j = (i - 1)%Z.

Definition convect_footprint (i : Z) (F : ArrayAttr) (j : Z) : Prop :=
  F ≠ P_MPa ∧ F ≠ MLayer_kg ∧ j = i ∨ F = MLayer_kg ∧ j = (i - 1)%Z.

(** What a completed three-zone integration leaves behind, [p] being the
    planet when the zones are entered and [p'] the planet at the end:
    - [top] is the phase's first shell, [c] the first convecting shell, [d]
      the first shell of the lower boundary layer and [e] the phase's bottom
      shell;
    - [m0] is the running mass when the first shell loop starts. *)
Record three_zone_post (G : R) (eosLid eosConv eosTBL : EOSStruct)
    (top c d e : Z) (Tconv Tb Pb m0 : R) (p p' : PlanetStruct) : Prop := {
  tz_pressure : arr p' P_MPa = arr p P_MPa;
  tz_hydro : ∀ i, (top < i)%Z → (i < d ∨ i ≤ e)%Z →
    HydroEq G p' (m0 + sumZ (shell p' MLayer_kg) top (i - 1)) i;
  tz_lid_T : ∀ i, (top ≤ i < c)%Z →
    shell p' T_K i = power_law Tconv (shell p T_K top) (shell p P_MPa c) (shell p P_MPa i);
  tz_lid_props : ∀ i, (top ≤ i < c)%Z → PropsEq eosLid p' i;
  tz_conv_T : ∀ i, (c ≤ i < d)%Z → AdiabatEq p' i;
  tz_conv_props : ∀ i, (c ≤ i < d)%Z → PropsEq eosConv p' i;
  tz_tbl_T : ∀ i, (d ≤ i ≤ e)%Z →
    shell p' T_K i = power_law Tb (shell p' T_K (d - 1)) Pb (shell p P_MPa i);
  tz_tbl_props : ∀ i, (d ≤ i < e)%Z → PropsEq eosTBL p' i;
  tz_top : ∀ F, F = z_m ∨ F = r_m ∨ F = g_ms2 → shell p' F top = shell p F top;
  tz_frame : unchanged_except (λ F j, (top ≤ j ≤ Z.max c (Z.max (d - 1) e))%Z) p p'
}.

(** The same for the lid and the convecting layer alone, [p4] being the
    planet after the convecting-layer loop and [m4] the running mass. *)
Record upper_zones_post (G : R) (eosLid eosConv : EOSStruct)
    (top c d : Z) (Tconv Ptop m0 : R) (p p4 : PlanetStruct) (m4 : R) : Prop := {
  uz_pressure : arr p4 P_MPa = arr p P_MPa;
  uz_hydro : ∀ i, (top < i < d)%Z →
    HydroEq G p4 (m0 + sumZ (shell p4 MLayer_kg) top (i - 1)) i;
  uz_mass : m4 = m0 + sumZ (shell p4 MLayer_kg) top (d - 1);
  uz_lid_T : ∀ i, (top ≤ i < c)%Z →
    shell p4 T_K i = power_law Tconv (shell p T_K top) Ptop (shell p P_MPa i);
  uz_lid_props : ∀ i, (top ≤ i < c)%Z → PropsEq eosLid p4 i;
  uz_conv_T : ∀ i, (c ≤ i < d)%Z → AdiabatEq p4 i;
  uz_conv_props : ∀ i, (c ≤ i < d)%Z → PropsEq eosConv p4 i;
  uz_top : ∀ F, F = z_m ∨ F = r_m ∨ F = g_ms2 → shell p4 F top = shell p F top;
  uz_frame : unchanged_except (λ F j, (top ≤ j ≤ Z.max c (d - 1))%Z) p p4
}.

(** ** The three phases side by side *)

Inductive IcePhase := IceI | IceIII | IceV.

(** One integrator call per candidate ice phase. *)
Definition IceConvect (G : R) (CDS2001 : Classifier)
    (ClathrateLayers : option (ParamsStruct → M unit))
    (ph : IcePhase) (Params : ParamsStruct) : M unit :=
  match ph with
  | IceI => IceIConvect G CDS2001 ClathrateLayers Params
  | IceIII => IceIIIConvect G CDS2001 Params
  | IceV => IceVConvect G CDS2001 Params
  end.

(** First shell of the phase, and its bottom shell. *)
Definition phase_top (ph : IcePhase) (p : PlanetStruct) : Z :=
  match ph with
  | IceI => 0
  | IceIII => nIbottom (Steps p)
  | IceV => nIIIbottom (Steps p)
  end.

Definition phase_bottom (ph : IcePhase) (p : PlanetStruct) : Z :=
  match ph with
  | IceI => nIbottom (Steps p)
  | IceIII => nIIIbottom (Steps p)
  | IceV => nSurfIce (Steps p)
  end.

(** The step counts index shells of an [n]-shell stack the way each routine
    reads them. *)
Definition phase_wf (ph : IcePhase) (n : nat) (p : PlanetStruct) : Prop :=
  match ph with
  | IceI => (1 ≤ nIbottom (Steps p) < Z.of_nat n)%Z
  | IceIII => (1 ≤ nIbottom (Steps p) < Z.of_nat n)%Z
              ∧ (1 ≤ nIIIbottom (Steps p) < Z.of_nat n)%Z
  | IceV => (1 ≤ nIIIbottom (Steps p) < Z.of_nat n)%Z
            ∧ (1 ≤ nSurfIce (Steps p) < Z.of_nat n)%Z
  end.

(** Thickness of the layer handed to the classifier ([zbI_m], [zbIII_m],
    [zbV_m]). *)
Definition phase_thickness (ph : IcePhase) (p : PlanetStruct) : R :=
  match ph with
  | IceI => shell p z_m (nIbottom (Steps p) - 1)
  | IceIII => shell p z_m (nIIIbottom (Steps p) - 1) - shell p z_m (nIbottom (Steps p) - 1)
  | IceV => shell p z_m (nSurfIce (Steps p) - 1) - shell p z_m (nIIIbottom (Steps p) - 1)
  end.

(** Key of the phase in the dictionaries of ice tables. *)
Definition phase_key (ph : IcePhase) : string :=
  match ph with IceI => "Ih" | IceIII => "III" | IceV => "V" end.

(** The table each zone reads: the lid and the boundary layer read
    [Ocean.surfIceEOS], and so does the convecting layer of ice I and III;
    the convecting layer of ice V reads [Ocean.iceEOS]. *)
Definition lid_table (ph : IcePhase) (p : PlanetStruct) : option EOSStruct :=
  surfIceEOS (Ocean p) (phase_key ph).

Definition convect_table (ph : IcePhase) (p : PlanetStruct) : option EOSStruct :=
  match ph with
  | IceV => iceEOS (Ocean p) "V"
  | _ => surfIceEOS (Ocean p) (phase_key ph)
  end.

(** The classifier's answer for the phase, with the arguments of the call. *)
Definition phase_regime (CDS2001 : Classifier) (ph : IcePhase) (eos : EOSStruct)
    (p : PlanetStruct) : ConvectionRegime :=
  match ph with
  | IceI =>
      CDS2001 (Bulk p Tsurf_K) (Bulk p R_m) (shell p kTherm_WmK 0) (Bulk p Tb_K)
        (phase_thickness IceI p) (shell p g_ms2 0)
        ((attr p PbI_MPa - attr p PbClath_MPa) / 2) (EOS (Ocean p)) eos 1%Z
        (EQUIL_Q (Do p))
  | IceIII =>
      CDS2001 (Bulk p Tb_K) (shell p r_m (nIbottom (Steps p)))
        (shell p kTherm_WmK (nIbottom (Steps p))) (Bulk p TbIII_K)
        (phase_thickness IceIII p) (shell p g_ms2 (nIbottom (Steps p)))
        ((attr p PbIII_MPa - attr p PbI_MPa) / 2) (EOS (Ocean p)) eos 3%Z
        (EQUIL_Q (Do p))
  | IceV =>
      CDS2001 (Bulk p TbIII_K) (shell p r_m (nIIIbottom (Steps p)))
        (shell p kTherm_WmK (nIIIbottom (Steps p))) (Bulk p TbV_K)
        (phase_thickness IceV p) (shell p g_ms2 (nIIIbottom (Steps p)))
        ((attr p PbV_MPa - attr p PbIII_MPa) / 2) (EOS (Ocean p)) eos 5%Z
        (EQUIL_Q (Do p))
  end.

(** The classifier reports whole-layer conduction. *)
Definition whole_layer_conduction (ph : IcePhase) (reg : ConvectionRegime)
    (p : PlanetStruct) : Prop :=
  phase_thickness ph p
  <= conductiveLidThickness_m reg + bottomBoundaryLayerThickness_m reg.

(** Depths beyond which the convecting layer and the lower boundary layer
    start. *)
Definition lid_threshold (ph : IcePhase) (reg : ConvectionRegime) (p : PlanetStruct) : R :=
  match ph with
  | IceI => conductiveLidThickness_m reg
  | _ => shell p z_m (phase_top ph p) + conductiveLidThickness_m reg
  end.

Definition TBL_threshold (ph : IcePhase) (reg : ConvectionRegime) (p : PlanetStruct) : R :=
  match ph with
  | IceI => phase_thickness ph p - bottomBoundaryLayerThickness_m reg
  | _ => shell p z_m (phase_top ph p) + phase_thickness ph p
         - bottomBoundaryLayerThickness_m reg
  end.

(** Bottom temperature and bottom pressure of the phase. *)
Definition phase_Tb (ph : IcePhase) (p : PlanetStruct) : R :=
  match ph with
  | IceI => Bulk p Tb_K
  | IceIII => Bulk p TbIII_K
  | IceV => Bulk p TbV_K
  end.

Definition phase_Pb (ph : IcePhase) (p : PlanetStruct) : R :=
  match ph with
  | IceI => attr p PbI_MPa
  | IceIII => attr p PbIII_MPa
  | IceV => attr p PbV_MPa
  end.

(** The running mass when the first shell loop starts: zero for ice I, the
    layer masses above the phase for ice III and V. *)
Definition phase_mass_above (ph : IcePhase) (p : PlanetStruct) : R :=
  match ph with
  | IceI => 0
  | _ => sumZ (shell p MLayer_kg) 0 (phase_top ph p)
  end.

(** The planet once the classifier's answer is stored. *)
Definition store_regime (ph : IcePhase) (reg : ConvectionRegime) (p : PlanetStruct)
    : PlanetStruct :=
  match ph with
  | IceI =>
      set_attr RaConvect (RayleighNumber reg)
        (set_QfromMantle_W (heatFlowFromBelow_W reg)
          (set_attr deltaTBL_m (bottomBoundaryLayerThickness_m reg)
            (set_attr eLid_m (conductiveLidThickness_m reg)
              (set_attr etaConv_Pas (effectiveViscosity_Pas reg)
                (set_attr Tconv_K (convectedTemperature_K reg) p)))))
  | IceIII =>
      set_attr RaConvectIII (RayleighNumber reg)
        (set_QfromMantle_W (heatFlowFromBelow_W reg)
          (set_attr deltaTBLIII_m (bottomBoundaryLayerThickness_m reg)
            (set_attr eLidIII_m (conductiveLidThickness_m reg)
              (set_attr etaConvIII_Pas (effectiveViscosity_Pas reg)
                (set_attr TconvIII_K (convectedTemperature_K reg) p)))))
  | IceV =>
      set_attr RaConvectV (RayleighNumber reg)
        (set_QfromMantle_W (heatFlowFromBelow_W reg)
          (set_attr deltaTBLV_m (bottomBoundaryLayerThickness_m reg)
            (set_attr eLidV_m (conductiveLidThickness_m reg)
              (set_attr etaConvV_Pas (effectiveViscosity_Pas reg)
                (set_attr TconvV_K (convectedTemperature_K reg) p)))))
  end.

(** Lines 31-34 of [IceIConvect]: the clathrate depth is capped by the lid. *)
Definition cap_clathrate (reg : ConvectionRegime) (p : PlanetStruct) : PlanetStruct :=
  if decide (attr p zClath_m > conductiveLidThickness_m reg)
  then set_Bulk clathMaxDepth_m (conductiveLidThickness_m reg) p
  else p.

(** The planet when the regime has been decided. *)
Definition enter_zones (ph : IcePhase) (reg : ConvectionRegime) (p : PlanetStruct)
    : PlanetStruct :=
  match ph with
  | IceI => cap_clathrate reg (store_regime IceI reg p)
  | _ => store_regime ph reg p
  end.

(** Surface heat flow from the temperature gradient between the first two
    shells (lines 42-43). *)
Definition conductive_heat_flow (p : PlanetStruct) : R :=
  (shell p T_K 1 - Bulk p Tsurf_K) / (Bulk p R_m - shell p r_m 1)
  * shell p kTherm_WmK 0 * 4 * PI * Bulk p R_m ^ 2.

(** The three-zone branch is entered and runs into no index trouble: the
    stack has [n] shells, the tables are there, the classifier's regime
    [reg] does not fall back to conduction, [c] and [d] are the transition
    shells found by the two searches, and the lid is not empty.  For ice I
    the clathrate guard passes and clathrates are off. *)
Definition three_zone_entry (CDS2001 : Classifier) (ph : IcePhase) (n : nat)
    (eosS eosC : EOSStruct) (reg : ConvectionRegime) (c d : Z) (p : PlanetStruct) : Prop :=
  shells n p ∧ phase_wf ph n p
  ∧ lid_table ph p = Some eosS ∧ convect_table ph p = Some eosC
  ∧ reg = phase_regime CDS2001 ph eosS p
  ∧ ¬ whole_layer_conduction ph reg p
  ∧ next_index_gt (arr p z_m) (lid_threshold ph reg p) = Some c
  ∧ next_index_gt (arr p z_m) (TBL_threshold ph reg p) = Some d
  ∧ (phase_top ph p < c)%Z
  ∧ (ph = IceI → (nClath (Steps p) ≤ c)%Z ∧ CLATHRATE (Do p) = false).

(** The call does not end in the fatal configuration-inconsistency error. *)
Definition no_fatal_error (m : M unit) (p : PlanetStruct) : Prop :=
  ∀ q, m p ≠ Raise ValueError q.

(** How a three-zone integration ends: with the fatal inconsistency error
    right after the convecting layer (planet [p4]), or with every zone
    done. *)
Definition three_zone_outcome (G : R) (CDS2001 : Classifier)
    (ClathrateLayers : option (ParamsStruct → M unit)) (ph : IcePhase)
    (Params : ParamsStruct) (n : nat) (eosS eosC : EOSStruct)
    (reg : ConvectionRegime) (c d : Z) (p : PlanetStruct) : Prop :=
  ∃ p4 m4,
    shells n p4 ∧ same_env (enter_zones ph reg p) p4
    ∧ upper_zones_post G eosS eosC (phase_top ph p) c d (convectedTemperature_K reg)
        (shell p P_MPa c) (phase_mass_above ph p) p p4 m4
    ∧ ((ph ≠ IceI ∧ shell p4 T_K (d - 1) > phase_Tb ph p
        ∧ IceConvect G CDS2001 ClathrateLayers ph Params p = Raise ValueError p4)
       ∨ ((ph = IceI ∨ ¬ shell p4 T_K (d - 1) > phase_Tb ph p)
          ∧ ∃ p', IceConvect G CDS2001 ClathrateLayers ph Params p = Ok () p'
                ∧ shells n p' ∧ same_env (enter_zones ph reg p) p'
                ∧ agree_upto (d - 1) p4 p'
                ∧ three_zone_post G eosS eosC eosS (phase_top ph p) c d
                    (phase_bottom ph p) (convectedTemperature_K reg)
                    (phase_Tb ph p) (phase_Pb ph p) (phase_mass_above ph p) p p')).

(** The planet a whole-layer-conduction call leaves behind. *)
Definition whole_layer_result (ph : IcePhase) (reg : ConvectionRegime) (p : PlanetStruct)
    : PlanetStruct :=
  match ph with
  | IceI => set_QfromMantle_W (conductive_heat_flow p) (enter_zones IceI reg p)
  | _ => enter_zones ph reg p
  end.

(** Last shell a three-zone integration writes. *)
Definition last_updated (ph : IcePhase) (d : Z) (p : PlanetStruct) : Z :=
  Z.max (d - 1) (phase_bottom ph p).

(** ** A six-shell test body

    An Enceladus-sized body (radius, mass and surface temperature of
    [Test/PPTest10.py]) with six shells 0.1 MPa apart, constant tables and a
    classifier that always answers the same regime.  The conductive guess has
    gravity 0.1 m/s² and density 1000 kg/m³ throughout, so the shells start
    1000 m apart. *)

Definition test_G : R := 6.673e-11.

Definition surfTable : EOSStruct :=
  {| fn_rho_kgm3 := λ _ _, 1000; fn_Cp_JkgK := λ _ _, 2000;
     fn_alpha_pK := λ _ _, 1e-4; fn_kTherm_WmK := λ _ _, 2 |}.

Definition deepTable : EOSStruct :=
  {| fn_rho_kgm3 := λ _ _, 1250; fn_Cp_JkgK := λ _ _, 2500;
     fn_alpha_pK := λ _ _, 2e-4; fn_kTherm_WmK := λ _ _, 1.5 |}.

Definition test_surfIceEOS (key : string) : option EOSStruct :=
  if decide (key = "Ih" ∨ key = "III" ∨ key = "V") then Some surfTable else None.

Definition test_iceEOS (key : string) : option EOSStruct :=
  if decide (key = "Ih" ∨ key = "III" ∨ key = "V") then Some deepTable else None.

Definition test_regime : ConvectionRegime :=
  {| convectedTemperature_K := 243;
     effectiveViscosity_Pas := 1e14;
     conductiveLidThickness_m := 1500;
     bottomBoundaryLayerThickness_m := 1500;
     heatFlowFromBelow_W := 1e9;
     RayleighNumber := 1e7 |}.

Definition test_classifier : Classifier :=
  λ _ _ _ _ _ _ _ _ _ _ _, test_regime.

Definition test_Params : ParamsStruct := {| VERBOSE := false |}.

Definition test_arrays (T : list R) (F : ArrayAttr) : list R :=
  match F with
  | P_MPa => [0; 0.1; 0.2; 0.3; 0.4; 0.5]
  | T_K => T
  | rho_kgm3 => [1000; 1000; 1000; 1000; 1000; 1000]
  | Cp_JkgK => [2000; 2000; 2000; 2000; 2000; 2000]
  | alpha_pK => [1e-4; 1e-4; 1e-4; 1e-4; 1e-4; 1e-4]
  | kTherm_WmK => [2; 2; 2; 2; 2; 2]
  | z_m => [0; 1000; 2000; 3000; 4000; 5000]
  | r_m => [252100; 251100; 250100; 249100; 248100; 247100]
  | MLayer_kg => [0; 0; 0; 0; 0; 0]
  | g_ms2 => [0.1; 0.1; 0.1; 0.1; 0.1; 0.1]
  end.

Definition test_planet (Tb : R) (T : list R) (st : StepsSubstruct) (clath : bool)
    : PlanetStruct :=
  {| Bulk := λ x, match x with
                  | Tsurf_K => 75
                  | R_m => 252100
                  | Tb_K => Tb
                  | TbIII_K => 272.356
                  | TbV_K => 272.356
                  | M_kg => 1.08022e20
                  | clathMaxDepth_m => 0
                  end;
     Steps := st;
     Do := {| CLATHRATE := clath; EQUIL_Q := true |};
     Ocean := {| EOS := deepTable; surfIceEOS := test_surfIceEOS;
                 iceEOS := test_iceEOS; QfromMantle_W := 0 |};
     arr := test_arrays T;
     attr := λ x, match x with
                  | PbI_MPa | PbIII_MPa | PbV_MPa => 0.5
                  | _ => 0
                  end |}.

(** The conductive guess of the temperatures. *)
Definition T_guess : list R := [75; 120; 170; 220; 250; 272.356].

(** Ice I down to shell 5, no clathrates. *)
Definition steps_I (nCl : Z) : StepsSubstruct :=
  {| nIbottom := 5; nIIIbottom := 5; nSurfIce := 5; nClath := nCl |}.

Definition planet_I : PlanetStruct := test_planet 272.356 T_guess (steps_I 0) false.

(** The same stack with a bottom temperature of 130 K, colder than what the
    convecting layer reaches. *)
Definition planet_cold_bottom : PlanetStruct :=
  test_planet 130 [75; 90; 100; 110; 120; 130] (steps_I 0) false.

(** Clathrates switched on, with three clathrate layers (more than the two
    lid shells) and with two. *)
Definition planet_clath_3 : PlanetStruct := test_planet 272.356 T_guess (steps_I 3) true.
Definition planet_clath_2 : PlanetStruct := test_planet 272.356 T_guess (steps_I 2) true.

(** Thin layers: ice I down to shell 2, ice III down to shell 4. *)
Definition planet_thin : PlanetStruct :=
  test_planet 272.356 T_guess
    {| nIbottom := 2; nIIIbottom := 4; nSurfIce := 4; nClath := 0 |} false.

(** Ice V from shell 1 down to shell 5. *)
Definition planet_V : PlanetStruct :=
  test_planet 272.356 T_guess
    {| nIbottom := 1; nIIIbottom := 1; nSurfIce := 5; nClath := 0 |} false.

(** Shell [j] of a profile over a density of 1000 kg/m³: at most 5000 m per
    shell deep, radius the body's radius less the depth, gravity at least
    0.02 m/s², and the layer masses above adding up to the mass of the
    spherical shell between the surface and the shell's radius. *)
Definition hydro_inv (p : PlanetStruct) (j : Z) : Prop :=
  0 <= shell p z_m j <= 5000 * IZR j
  ∧ shell p r_m j = 252100 - shell p z_m j
  ∧ 0.02 <= shell p g_ms2 j
  ∧ sumZ (shell p MLayer_kg) 0 j = 4 / 3 * PI * 1000 * (252100 ^ 3 - shell p r_m j ^ 3).

(** ** What a call may and may not write *)

(** The planet an outcome carries, returned or raised. *)
Definition planet_of {A} (o : outcome A) : PlanetStruct :=
  match o with Ok _ p | Raise _ p => p end.

(** [m] keeps relation [I] between the planet it starts from and the planet
    it ends with, whatever the outcome. *)
Definition always {A} (I : PlanetStruct → PlanetStruct → Prop) (m : M A) : Prop :=
  ∀ p, I p (planet_of (m p)).

(** Only per-shell arrays were written, none resized, pressures not at all. *)
Definition arrays_only (p p' : PlanetStruct) : Prop :=
  same_env p p'
  ∧ arr p' P_MPa = arr p P_MPa
  ∧ ∀ F, length (arr p' F) = length (arr p F).

(** The scalar attributes a phase's routine stores the regime in. *)
Definition regime_attr (ph : IcePhase) (x : ScalarAttr) : bool :=
  match ph, x with
  | IceI, (Tconv_K | etaConv_Pas | eLid_m | deltaTBL_m | RaConvect) => true
  | IceIII, (TconvIII_K | etaConvIII_Pas | eLidIII_m | deltaTBLIII_m | RaConvectIII) => true
  | IceV, (TconvV_K | etaConvV_Pas | eLidV_m | deltaTBLV_m | RaConvectV) => true
  | _, _ => false
  end.

(** What no call of phase [ph] changes: pressures, the size of any array,
    the step counts, the switches, the tables, any bulk property (but the
    clathrate depth, for ice I) and any scalar attribute other than the
    phase's own regime. *)
Record kept (ph : IcePhase) (p p' : PlanetStruct) : Prop := {
  kept_P : arr p' P_MPa = arr p P_MPa;
  kept_length : ∀ F, length (arr p' F) = length (arr p F);
  kept_Steps : Steps p' = Steps p;
  kept_Do : Do p' = Do p;
  kept_EOS : EOS (Ocean p') = EOS (Ocean p);
  kept_surfIceEOS : surfIceEOS (Ocean p') = surfIceEOS (Ocean p);
  kept_iceEOS : iceEOS (Ocean p') = iceEOS (Ocean p);
  kept_Bulk : ∀ x, (ph = IceI → x ≠ clathMaxDepth_m) → Bulk p' x = Bulk p x;
  kept_attr : ∀ x, regime_attr ph x = false → attr p' x = attr p x
}.

(** The branch taken once the classifier has answered and the regime is
    stored: lines 36-144, 177-285 and 318-426. *)
Definition after_classifier (G : R) (ClathrateLayers : option (ParamsStruct → M unit))
    (ph : IcePhase) (Params : ParamsStruct) (zb : R) : M unit :=
  match ph with
  | IceI => IceIConvect_three_zone G ClathrateLayers Params zb
  | IceIII => IceIIIConvect_three_zone G zb
  | IceV => IceVConvect_three_zone G zb
  end.



(** The three-zone branch is reached and both transition shells are found,
    the lid not being empty: [three_zone_entry] without its assumptions on
    clathrates. *)
Definition zones_reached (CDS2001 : Classifier) (ph : IcePhase) (n : nat)
    (eosS eosC : EOSStruct) (reg : ConvectionRegime) (c d : Z) (p : PlanetStruct) : Prop :=
  shells n p ∧ phase_wf ph n p
  ∧ lid_table ph p = Some eosS ∧ convect_table ph p = Some eosC
  ∧ reg = phase_regime CDS2001 ph eosS p
  ∧ ¬ whole_layer_conduction ph reg p
  ∧ next_index_gt (arr p z_m) (lid_threshold ph reg p) = Some c
  ∧ next_index_gt (arr p z_m) (TBL_threshold ph reg p) = Some d
  ∧ (phase_top ph p < c)%Z.

(** ** More test bodies *)



(** The six-shell ice I body with no ice table loaded. *)
Definition planet_no_tables : PlanetStruct :=
  {| Bulk := Bulk planet_I; Steps := Steps planet_I; Do := Do planet_I;
     Ocean := {| EOS := deepTable; surfIceEOS := λ _, None; iceEOS := λ _, None;
                 QfromMantle_W := 0 |};
     arr := arr planet_I; attr := attr planet_I |}.

(** A classifier that reports no lower boundary layer at all. *)
Definition thin_regime : ConvectionRegime :=
  {| convectedTemperature_K := 243;
     effectiveViscosity_Pas := 1e14;
     conductiveLidThickness_m := 1500;
     bottomBoundaryLayerThickness_m := 0;
     heatFlowFromBelow_W := 1e9;
     RayleighNumber := 1e7 |}.

Definition thin_classifier : Classifier :=
  λ _ _ _ _ _ _ _ _ _ _ _, thin_regime.

(** Three clathrate layers declared, clathrates switched off. *)
Definition planet_three_layers : PlanetStruct :=
  test_planet 272.356 T_guess (steps_I 3) false.

(** The ice V body with a bottom temperature of 100 K, colder than its top. *)
Definition planet_V_cold : PlanetStruct := set_Bulk TbV_K 100 planet_V.

(** A table with non-negative expansivity and positive heat capacity and
    density. *)
Definition table_positive (eos : EOSStruct) : Prop :=
  ∀ P T, 0 <= fn_alpha_pK eos P T ∧ 0 < fn_Cp_JkgK eos P T ∧ 0 < fn_rho_kgm3 eos P T.

(** The ice V body with [Ocean.iceEOS] left empty. *)
Definition planet_V_no_deep : PlanetStruct :=
  {| Bulk := Bulk planet_V; Steps := Steps planet_V; Do := Do planet_V;
     Ocean := {| EOS := deepTable; surfIceEOS := test_surfIceEOS; iceEOS := λ _, None;
                 QfromMantle_W := 0 |};
     arr := arr planet_V; attr := attr planet_V |}.

(** A classifier whose lid and boundary layer leave no room for convection
    between two shells of the test body. *)
Definition thick_regime : ConvectionRegime :=
  {| convectedTemperature_K := 243;
     effectiveViscosity_Pas := 1e14;
     conductiveLidThickness_m := 1500;
     bottomBoundaryLayerThickness_m := 2400;
     heatFlowFromBelow_W := 1e9;
     RayleighNumber := 1e7 |}.

Definition thick_classifier : Classifier :=
  λ _ _ _ _ _ _ _ _ _ _ _, thick_regime.

(** * Verification *)

(** ** Running the primitives on a well-sized shell stack *)

Lemma bind_Ok {A B} (m : M A) (k : A → M B) p a p' :
  m p = Ok a p' → (m ≫= k) p = k a p'.
Proof. intros H. unfold mbind, M_bind. by rewrite H. Qed.

Lemma bind_Raise {A B} (m : M A) (k : A → M B) p e p' :
  m p = Raise e p' → (m ≫= k) p = Raise e p'.
Proof. intros H. unfold mbind, M_bind. by rewrite H. Qed.

Lemma py_index_in (n : nat) (i : Z) :
  (0 ≤ i < Z.of_nat n)%Z → py_index n i = Some (Z.to_nat i).
Proof. intros H. unfold py_index. by rewrite decide_True. Qed.

Lemma py_bound_in (n : nat) (i : Z) :
  (0 ≤ i ≤ Z.of_nat n)%Z → py_bound n i = Z.to_nat i.
Proof.
  intros H. unfold py_bound. rewrite decide_False by lia. f_equal. lia.
Qed.

Lemma shells_set_arr n F a p :
  shells n p → length a = n → shells n (set_arr F a p).
Proof.
  intros Hn Ha F'. simpl. unfold insert, fn_insert.
  case_decide; [done | apply Hn].
Qed.

Lemma shells_upd n F i v p : shells n p → shells n (upd F i v p).
Proof. intros Hn. apply shells_set_arr; [done |]. rewrite length_insert. apply Hn. Qed.

Lemma shells_fill n F lo hi f p : shells n p → shells n (fill F lo hi f p).
Proof. intros Hn. apply shells_set_arr; [done |]. rewrite length_imap. apply Hn. Qed.

Lemma same_env_refl p : same_env p p.
Proof. by repeat split. Qed.

Lemma same_env_trans p q r : same_env p q → same_env q r → same_env p r.
Proof.
  intros (?&?&?&?&?) (?&?&?&?&?). repeat split; congruence.
Qed.

Lemma same_env_set_arr F a p : same_env p (set_arr F a p).
Proof. by repeat split. Qed.

Lemma shell_upd n F i v p F' j :
  shells n p → (0 ≤ i < Z.of_nat n)%Z → (0 ≤ j)%Z →
  shell (upd F i v p) F' j = if decide (F = F' ∧ i = j) then v else shell p F' j.
Proof.
  intros Hn Hi Hj. unfold shell, upd. simpl. unfold insert at 1, fn_insert.
  destruct (decide (F = F')) as [<- | Hne].
  - rewrite list_lookup_total_insert.
    case_decide as H1; case_decide as H2; try done.
    + destruct H2. split; [done | lia].
    + destruct H1. destruct H2 as [_ ->]. split; [done |]. rewrite Hn. lia.
  - rewrite decide_False by tauto. done.
Qed.

Lemma shell_fill n F lo hi f p F' j :
  shells n p → (0 ≤ j < Z.of_nat n)%Z →
  shell (fill F lo hi f p) F' j
  = if decide (F = F' ∧ (lo ≤ j < hi)%Z) then f j else shell p F' j.
Proof.
  intros Hn Hj. unfold shell, fill. simpl. unfold insert, fn_insert.
  destruct (decide (F = F')) as [<- | Hne].
  - rewrite (list_lookup_total_imap _ (Inhabited0 := R_inhabited)) by (rewrite Hn; lia).
    rewrite Z2Nat.id by lia.
    case_decide; case_decide; try done; tauto.
  - rewrite decide_False by tauto. done.
Qed.

Lemma list_getitem_in (a : list R) (i : Z) :
  (0 ≤ i < Z.of_nat (length a))%Z → list_getitem a i = Some (a !!! Z.to_nat i).
Proof.
  intros Hi. unfold list_getitem. rewrite py_index_in by done. simpl.
  apply list_lookup_lookup_total_lt. lia.
Qed.

Lemma list_setitem_in (a : list R) (i : Z) (v : R) :
  (0 ≤ i < Z.of_nat (length a))%Z →
  list_setitem a i v = Some (<[Z.to_nat i := v]> a).
Proof. intros Hi. unfold list_setitem. by rewrite py_index_in by done. Qed.

Lemma getitem_ok n F i p :
  shells n p → (0 ≤ i < Z.of_nat n)%Z → getitem F i p = Ok (shell p F i) p.
Proof.
  intros Hn Hi. unfold getitem, gets, shell, mbind, M_bind.
  rewrite list_getitem_in by (rewrite Hn; lia). done.
Qed.

Lemma setitem_ok n F i v p :
  shells n p → (0 ≤ i < Z.of_nat n)%Z → setitem F i v p = Ok () (upd F i v p).
Proof.
  intros Hn Hi. unfold setitem, gets, upd, mbind, M_bind.
  rewrite list_setitem_in by (rewrite Hn; lia). done.
Qed.

(** A slice within bounds, entry by entry. *)
Lemma length_getslice (a : list R) (lo hi : Z) :
  (0 ≤ lo ≤ Z.of_nat (length a))%Z → (0 ≤ hi ≤ Z.of_nat (length a))%Z →
  length (list_getslice a lo hi) = Z.to_nat (hi - lo).
Proof.
  intros Hlo Hhi. unfold list_getslice. rewrite !py_bound_in by done.
  rewrite length_take, length_drop. lia.
Qed.

Lemma lookup_getslice (a : list R) (lo hi : Z) (k : nat) :
  (0 ≤ lo ≤ Z.of_nat (length a))%Z → (0 ≤ hi ≤ Z.of_nat (length a))%Z →
  (Z.of_nat k < hi - lo)%Z →
  list_getslice a lo hi !!! k = a !!! Z.to_nat (lo + Z.of_nat k).
Proof.
  intros Hlo Hhi Hk. unfold list_getslice. rewrite !py_bound_in by done.
  rewrite lookup_total_take_lt by lia. rewrite lookup_total_drop. f_equal. lia.
Qed.

Lemma list_setslice_in (a : list R) (lo hi : Z) (v : list R) (f : Z → R) :
  (0 ≤ lo ≤ Z.of_nat (length a))%Z → (0 ≤ hi ≤ Z.of_nat (length a))%Z →
  length v = Z.to_nat (hi - lo) →
  (∀ k : nat, (Z.of_nat k < hi - lo)%Z → v !!! k = f (lo + Z.of_nat k)%Z) →
  list_setslice a lo hi v
  = Some (imap (λ k x, if decide (lo ≤ Z.of_nat k < hi)%Z then f (Z.of_nat k) else x) a).
Proof.
  intros Hlo Hhi Hlen Hv. unfold list_setslice.
  rewrite !py_bound_in by done.
  unfold broadcast_to. rewrite decide_True by lia. simpl. f_equal.
  apply list_eq. intros k.
  rewrite list_lookup_imap.
  destruct (decide (k < Z.to_nat lo)%nat) as [Hk1 | Hk1].
  { rewrite lookup_app_l by (rewrite length_take; lia).
    rewrite lookup_take_lt by done.
    destruct (a !! k); simpl; [| done]. by rewrite decide_False by lia. }
  rewrite lookup_app_r by (rewrite length_take; lia).
  rewrite length_take.
  destruct (decide (k < Z.to_nat hi)%nat) as [Hk2 | Hk2].
  { rewrite lookup_app_l by lia.
    rewrite (list_lookup_lookup_total_lt a) by lia. simpl.
    rewrite decide_True by lia.
    rewrite (list_lookup_lookup_total_lt v) by lia.
    rewrite Hv by lia. do 2 f_equal. lia. }
  rewrite lookup_app_r by lia. rewrite lookup_drop.
  replace (Z.to_nat lo + (Z.to_nat hi - Z.to_nat lo)
           + (k - Z.to_nat lo `min` length a - length v))%nat with k by lia.
  destruct (a !! k); simpl; [| done]. by rewrite decide_False by lia.
Qed.

Lemma setslice_fill n F lo hi v f p :
  shells n p → (0 ≤ lo ≤ Z.of_nat n)%Z → (0 ≤ hi ≤ Z.of_nat n)%Z →
  length v = Z.to_nat (hi - lo) →
  (∀ k : nat, (Z.of_nat k < hi - lo)%Z → v !!! k = f (lo + Z.of_nat k)%Z) →
  setslice F lo hi v p = Ok () (fill F lo hi f p).
Proof.
  intros Hn Hlo Hhi Hlen Hv. unfold setslice, gets, fill, mbind, M_bind.
  rewrite (list_setslice_in _ lo hi v f) by (rewrite ?Hn; done). done.
Qed.

(** Ranges and indexing by a range. *)
Lemma range_cons (a b : Z) : (a < b)%Z → range a b = a :: range (a + 1) b.
Proof.
  intros H. unfold range. rewrite seqZ_cons by lia. do 2 f_equal; lia.
Qed.

Lemma range_nil (a b : Z) : (b ≤ a)%Z → range a b = [].
Proof. intros H. unfold range. apply seqZ_nil. lia. Qed.

Lemma length_range (a b : Z) : length (range a b) = Z.to_nat (b - a).
Proof. unfold range. apply length_seqZ. Qed.

Lemma py_init_range (a b : Z) : py_init (range a b) = range a (b - 1).
Proof.
  unfold py_init. rewrite length_range. unfold range, seqZ.
  rewrite <- fmap_take, take_seq. do 2 f_equal. lia.
Qed.

Lemma mapM_range {B} (f : Z → option B) (g : Z → B) (lo hi : Z) :
  (∀ k, (lo ≤ k < hi)%Z → f k = Some (g k)) →
  mapM f (range lo hi) = Some (g <$> range lo hi).
Proof.
  intros H. apply mapM_Some. apply Forall2_fmap_r, Forall_Forall2_diag.
  unfold range. apply Forall_seqZ. intros k Hk. apply H. lia.
Qed.

Lemma lookup_total_fmap_range (g : Z → R) (lo hi : Z) (k : nat) :
  (Z.of_nat k < hi - lo)%Z → (g <$> range lo hi) !!! k = g (lo + Z.of_nat k)%Z.
Proof.
  intros Hk. unfold range.
  rewrite (list_lookup_total_fmap _ (Inhabited0 := Z.inhabited)) by (rewrite length_seqZ; lia).
  by rewrite lookup_total_seqZ_lt.
Qed.

Lemma to_nat_range (lo hi : Z) :
  (0 ≤ lo)%Z → Z.to_nat <$> range lo hi = seq (Z.to_nat lo) (Z.to_nat (hi - lo)).
Proof.
  intros Hlo. unfold range, seqZ. rewrite <- list_fmap_compose.
  rewrite <- (Nat.add_0_r (Z.to_nat lo)), <- fmap_add_seq.
  apply list_fmap_ext. intros i x Hx. simpl. lia.
Qed.

Lemma lookup_put_at (v : list R) : ∀ (l0 : nat) (a : list R) (j : nat),
  (l0 + length v ≤ length a)%nat →
  list_put_at a (seq l0 (length v)) v !! j
  = if decide (l0 ≤ j < l0 + length v)%nat then v !! (j - l0)%nat else a !! j.
Proof.
  induction v as [| x v IH]; intros l0 a j Hlen; simpl in *.
  - rewrite decide_False by lia. done.
  - unfold list_put_at in *. simpl. rewrite IH by (rewrite length_insert; lia).
    destruct (decide (j = l0)) as [-> | Hne].
    + rewrite decide_False by lia. rewrite decide_True by lia.
      rewrite Nat.sub_diag. simpl. apply list_lookup_insert_eq. lia.
    + rewrite list_lookup_insert_ne by done.
      case_decide; case_decide; try lia; try done.
      replace (j - l0)%nat with (S (j - S l0)) by lia. done.
Qed.

Lemma take_idx_range n F lo hi p :
  shells n p → (0 ≤ lo)%Z → (hi ≤ Z.of_nat n)%Z →
  take_idx F (range lo hi) p = Ok (shell p F <$> range lo hi) p.
Proof.
  intros Hn Hlo Hhi. unfold take_idx, gets, list_take_idx, mbind, M_bind.
  rewrite (mapM_range _ (shell p F)); [done |].
  intros k Hk. apply list_getitem_in. rewrite Hn. lia.
Qed.

Lemma put_idx_fill n F lo hi v f p :
  shells n p → (0 ≤ lo ≤ Z.of_nat n)%Z → (hi ≤ Z.of_nat n)%Z →
  length v = Z.to_nat (hi - lo) →
  (∀ k : nat, (Z.of_nat k < hi - lo)%Z → v !!! k = f (lo + Z.of_nat k)%Z) →
  put_idx F (range lo hi) v p = Ok () (fill F lo hi f p).
Proof.
  intros Hn Hlo Hhi Hlen Hv. unfold put_idx, gets, fill, mbind, M_bind.
  rewrite (mapM_range _ Z.to_nat) by (intros k Hk; apply py_index_in; rewrite Hn; lia).
  simpl. rewrite to_nat_range by lia. rewrite length_seq.
  unfold broadcast_to. rewrite decide_True by done. simpl.
  unfold modify. do 2 f_equal.
  apply list_eq. intros j. rewrite <- Hlen.
  rewrite lookup_put_at by (rewrite Hn; lia).
  rewrite list_lookup_imap.
  case_decide as Hj.
  - rewrite (list_lookup_lookup_total_lt (arr p F)) by (rewrite Hn; lia). simpl.
    rewrite decide_True by lia.
    rewrite (list_lookup_lookup_total_lt v) by lia.
    rewrite Hv by lia. do 2 f_equal. lia.
  - destruct (arr p F !! j) eqn:E; simpl; [| done].
    apply lookup_lt_Some in E. rewrite Hn in E.
    rewrite decide_False; [done |]. lia.
Qed.

Lemma broadcast2_same (f : R → R → R) (xs ys : list R) :
  length xs = length ys → broadcast2 f xs ys = Some (zip_with f xs ys).
Proof. intros H. unfold broadcast2. by rewrite decide_True. Qed.

Lemma fill_ext F lo hi f g p :
  (∀ j, (lo ≤ j < hi)%Z → (0 ≤ j)%Z → f j = g j) → fill F lo hi f p = fill F lo hi g p.
Proof.
  intros H. unfold fill. f_equal. apply imap_ext. intros i x _.
  case_decide; [| done]. apply H; lia.
Qed.

Lemma lookup_total_fmap_R (f : R → R) (l : list R) (i : nat) :
  (i < length l)%nat → (f <$> l) !!! i = f (l !!! i).
Proof. apply list_lookup_total_fmap. Qed.

Lemma lookup_total_zip_with_R (f : R → R → R) (l k : list R) (i : nat) :
  (i < length l)%nat → (i < length k)%nat →
  zip_with f l k !!! i = f (l !!! i) (k !!! i).
Proof. apply lookup_total_zip_with. Qed.

(** ** Running the blocks of the integrator *)

Create HintDb shells.
#[local] Hint Resolve shells_upd shells_fill : shells.

Lemma shell_fill_ne F lo hi f p F' j :
  F ≠ F' → shell (fill F lo hi f p) F' j = shell p F' j.
Proof.
  intros Hne. unfold shell, fill. simpl. unfold insert, fn_insert.
  by rewrite decide_False.
Qed.

Lemma resolves_surfIceEOS key eos p :
  surfIceEOS (Ocean p) key = Some eos → resolves (surfIceEOS_at key) eos p.
Proof.
  intros H q Hq. unfold surfIceEOS_at, gets, mbind, M_bind. by rewrite Hq, H.
Qed.

Lemma resolves_iceEOS key eos p :
  iceEOS (Ocean p) key = Some eos → resolves (iceEOS_at key) eos p.
Proof.
  intros H q Hq. unfold iceEOS_at, gets, mbind, M_bind. by rewrite Hq, H.
Qed.

Lemma resolves_env eosref eos p q :
  resolves eosref eos p → Ocean q = Ocean p → resolves eosref eos q.
Proof. intros H Hq r Hr. apply H. congruence. Qed.

(** One monadic step: run the head computation, continue with its result. *)
Ltac mstep tac :=
  etrans; [ apply bind_Ok; tac | cbv beta ].
Ltac mpure := mstep ltac:(reflexivity).
Ltac mget n := mstep ltac:(eapply (getitem_ok n); [eauto 10 with shells | lia]).
Ltac mgetH n H := mstep ltac:(eapply (getitem_ok n); [exact H | simpl; lia]).
Ltac mset n := mstep ltac:(eapply (setitem_ok n); [eauto 10 with shells | lia]).

Lemma assign_lid_T_ok n top iEnd Tconv Ptop p :
  shells n p → (0 ≤ top ≤ iEnd)%Z → (iEnd < Z.of_nat n)%Z →
  assign_lid_T top iEnd Tconv Ptop p
  = Ok () (fill T_K top (iEnd + 1)
             (λ j, power_law Tconv (shell p T_K top) Ptop (shell p P_MPa j)) p).
Proof.
  intros Hn Htop Hend. unfold assign_lid_T.
  mpure. mget n.
  assert (length (list_getslice (arr p P_MPa) top (iEnd + 1))
          = Z.to_nat (iEnd + 1 - top)) as Hlen
    by (apply length_getslice; rewrite Hn; lia).
  apply (setslice_fill n); [done | lia | lia | |].
  - by rewrite !length_fmap.
  - intros k Hk. unfold power_law.
    rewrite !lookup_total_fmap_R
      by (rewrite ?length_fmap, Hlen; lia).
    rewrite lookup_getslice by (rewrite ?Hn; lia). done.
Qed.

Lemma eos_assign_slice_ok n eosref eos fn F lo hi p :
  shells n p → (0 ≤ lo ≤ Z.of_nat n)%Z → (0 ≤ hi ≤ Z.of_nat n)%Z →
  resolves eosref eos p →
  eos_assign_slice eosref fn F lo hi p
  = Ok () (fill F lo hi (λ j, fn eos (shell p P_MPa j) (shell p T_K j)) p).
Proof.
  intros Hn Hlo Hhi Hres. unfold eos_assign_slice.
  mstep ltac:(by apply Hres). mpure. mpure.
  assert (∀ F', length (list_getslice (arr p F') lo hi) = Z.to_nat (hi - lo)) as Hlen
    by (intros F'; apply length_getslice; rewrite Hn; lia).
  rewrite broadcast2_same by (by rewrite !Hlen).
  mpure.
  apply (setslice_fill n); [done | lia | lia | |].
  - rewrite length_zip_with, !Hlen. lia.
  - intros k Hk. rewrite lookup_total_zip_with_R by (rewrite Hlen; lia).
    by rewrite !lookup_getslice by (rewrite ?Hn; lia).
Qed.

Lemma eos_assign_idx_ok n eosref eos fn F lo hi p :
  shells n p → (0 ≤ lo ≤ Z.of_nat n)%Z → (hi ≤ Z.of_nat n)%Z →
  resolves eosref eos p →
  eos_assign_idx eosref fn F (range lo hi) p
  = Ok () (fill F lo hi (λ j, fn eos (shell p P_MPa j) (shell p T_K j)) p).
Proof.
  intros Hn Hlo Hhi Hres. unfold eos_assign_idx.
  mstep ltac:(by apply Hres).
  mstep ltac:(apply (take_idx_range n); [done | lia | lia]).
  mstep ltac:(apply (take_idx_range n); [done | lia | lia]).
  rewrite broadcast2_same by (by rewrite !length_fmap).
  mpure.
  apply (put_idx_fill n); [done | lia | lia | |].
  - rewrite length_zip_with, !length_fmap, length_range. lia.
  - intros k Hk.
    rewrite lookup_total_zip_with_R by (rewrite length_fmap, length_range; lia).
    by rewrite !lookup_total_fmap_range.
Qed.

Lemma assign_TBL_T_ok n lo hi Tb Pb iLast p :
  shells n p → (0 ≤ lo ≤ Z.of_nat n)%Z → (hi ≤ Z.of_nat n)%Z →
  (0 ≤ iLast < Z.of_nat n)%Z →
  assign_TBL_T (range lo hi) Tb Pb iLast p
  = Ok () (fill T_K lo hi
             (λ j, power_law Tb (shell p T_K iLast) Pb (shell p P_MPa j)) p).
Proof.
  intros Hn Hlo Hhi Hlast. unfold assign_TBL_T.
  mstep ltac:(apply (take_idx_range n); [done | lia | lia]).
  mget n.
  apply (put_idx_fill n); [done | lia | lia | |].
  - by rewrite !length_fmap, length_range.
  - intros k Hk. unfold power_law.
    rewrite !lookup_total_fmap_R
      by (rewrite ?length_fmap, length_range; lia).
    by rewrite lookup_total_fmap_range.
Qed.

Lemma assign_lid_props_ok n eosref eos top iEnd p :
  shells n p → (0 ≤ top)%Z → (top ≤ iEnd + 1)%Z → (iEnd < Z.of_nat n)%Z →
  resolves eosref eos p →
  assign_lid_props eosref top iEnd p = Ok () (fill_props eos top (iEnd + 1) p).
Proof.
  intros Hn Htop Hle Hend Hres. unfold assign_lid_props.
  mstep ltac:(apply (eos_assign_slice_ok n); [done | lia | lia | done]).
  mstep ltac:(apply (eos_assign_slice_ok n);
              [eauto with shells | lia | lia | by eapply resolves_env]).
  mstep ltac:(apply (eos_assign_slice_ok n);
              [eauto with shells | lia | lia | by eapply resolves_env]).
  etrans; [apply (eos_assign_slice_ok n);
           [eauto 10 with shells | lia | lia | by eapply resolves_env] |].
  reflexivity.
Qed.

Lemma assign_TBL_props_ok n eosref eos lo hi p :
  shells n p → (0 ≤ lo ≤ Z.of_nat n)%Z → (hi ≤ Z.of_nat n)%Z →
  resolves eosref eos p →
  assign_TBL_props eosref (range lo hi) p = Ok () (fill_props eos lo (hi - 1) p).
Proof.
  intros Hn Hlo Hhi Hres. unfold assign_TBL_props. rewrite py_init_range.
  mstep ltac:(apply (eos_assign_idx_ok n); [done | lia | lia | done]).
  mstep ltac:(apply (eos_assign_idx_ok n);
              [eauto with shells | lia | lia | by eapply resolves_env]).
  mstep ltac:(apply (eos_assign_idx_ok n);
              [eauto with shells | lia | lia | by eapply resolves_env]).
  etrans; [apply (eos_assign_idx_ok n);
           [eauto 10 with shells | lia | lia | by eapply resolves_env] |].
  reflexivity.
Qed.

(** ** One shell at a time *)

Lemma unchanged_except_refl fp p : unchanged_except fp p p.
Proof. by intros F j _ _. Qed.

Lemma unchanged_except_trans fp1 fp2 (fp : ArrayAttr → Z → Prop) p q r :
  (∀ F j, fp1 F j → fp F j) → (∀ F j, fp2 F j → fp F j) →
  unchanged_except fp1 p q → unchanged_except fp2 q r → unchanged_except fp p r.
Proof.
  intros H1 H2 Hpq Hqr F j Hj Hfp.
  rewrite Hqr, Hpq by (done || intros ?; apply Hfp; auto). done.
Qed.

Lemma unchanged_except_weaken (fp1 fp : ArrayAttr → Z → Prop) p q :
  (∀ F j, (0 ≤ j)%Z → fp1 F j → fp F j) →
  unchanged_except fp1 p q → unchanged_except fp p q.
Proof. intros H1 Hpq F j Hj Hfp. apply Hpq; [done | intros ?; apply Hfp; auto]. Qed.

Lemma HydroEq_agree G p p' m i :
  (1 ≤ i)%Z → agree_upto i p p' → HydroEq G p m i → HydroEq G p' m i.
Proof.
  intros Hi [HB Ha] (Hz & Hr & HM & Hg). unfold HydroEq.
  rewrite HB. rewrite !Ha by (done || lia). done.
Qed.

Lemma PropsEq_agree eos p p' i :
  (0 ≤ i)%Z → agree_upto i p p' → PropsEq eos p i → PropsEq eos p' i.
Proof.
  intros Hi [HB Ha] (H1 & H2 & H3 & H4). unfold PropsEq.
  rewrite !Ha by (done || lia). done.
Qed.

Lemma AdiabatEq_agree p p' i :
  (1 ≤ i)%Z → agree_upto i p p' → AdiabatEq p i → AdiabatEq p' i.
Proof.
  intros Hi [HB Ha] H. unfold AdiabatEq.
  rewrite !Ha by (done || lia). done.
Qed.

Lemma shell_upd_eq n F i v p :
  shells n p → (0 ≤ i < Z.of_nat n)%Z → shell (upd F i v p) F i = v.
Proof. intros Hn Hi. rewrite (shell_upd n) by (done || lia). by rewrite decide_True. Qed.

Lemma shell_upd_ne F i v p F' j :
  (0 ≤ i)%Z → (0 ≤ j)%Z → F ≠ F' ∨ i ≠ j →
  shell (upd F i v p) F' j = shell p F' j.
Proof.
  intros Hi Hj Hne. unfold shell, upd. simpl. unfold insert at 1, fn_insert.
  destruct (decide (F = F')) as [<- | HF]; [| done].
  apply list_lookup_total_insert_ne. destruct Hne; [done | lia].
Qed.

(** Reading back through a stack of single-entry updates. *)
Ltac shsimp n :=
  repeat first
    [ rewrite (shell_upd_eq n) by (eauto 10 with shells || lia)
    | rewrite shell_upd_ne by (lia || (left; discriminate) || (right; lia)) ].

Section Steps.
Variable G : R.
Variable n : nat.

Lemma increment_depth_run i m p vz vr vM vg :
  shells n p → (1 ≤ i < Z.of_nat n)%Z →
  vz = shell p z_m (i - 1)
       + (shell p P_MPa i - shell p P_MPa (i - 1)) * 1e6
         / shell p g_ms2 (i - 1) / shell p rho_kgm3 (i - 1) →
  vr = Bulk p R_m - vz →
  vM = 4 / 3 * PI * shell p rho_kgm3 (i - 1) * (shell p r_m (i - 1) ^ 3 - vr ^ 3) →
  vg = G * (Bulk p M_kg - (m + vM)) / vr ^ 2 →
  increment_depth G i (Some m) p
  = Ok (Some (m + vM))
       (upd g_ms2 i vg (upd MLayer_kg (i - 1) vM (upd r_m i vr (upd z_m i vz p)))).
Proof.
  intros Hn Hi Hz Hr HM Hg. unfold increment_depth.
  mget n. mget n. mget n. mget n. mget n. rewrite <- Hz.
  mset n. mpure. mget n. shsimp n. change (Bulk (upd z_m i vz p) R_m) with (Bulk p R_m).
  rewrite <- Hr.
  mset n. mget n. mget n. mget n. shsimp n. rewrite <- HM.
  mset n. mpure. mget n. shsimp n. mpure. mget n. shsimp n.
  match goal with |- context [Bulk ?q M_kg] => change (Bulk q M_kg) with (Bulk p M_kg) end.
  rewrite <- Hg.
  mset n. reflexivity.
Qed.

Lemma increment_depth_ok i m p :
  shells n p → (1 ≤ i < Z.of_nat n)%Z →
  ∃ p', increment_depth G i (Some m) p
        = Ok (Some (m + shell p' MLayer_kg (i - 1))) p'
      ∧ shells n p' ∧ same_env p p'
      ∧ unchanged_except (depth_footprint i) p p'
      ∧ HydroEq G p' m i.
Proof.
  intros Hn Hi.
  eexists. split; [| split; [| split; [| split]]].
  - erewrite increment_depth_run by (done || reflexivity).
    f_equal. f_equal. f_equal. by shsimp n.
  - eauto 10 with shells.
  - by repeat split.
  - intros F j Hj Hfp. unfold depth_footprint in Hfp.
    rewrite !shell_upd_ne; [done | try lia ..];
      (destruct F; first [ left; discriminate
                         | right; intros Heq; apply Hfp; auto 10 with lia ]).
  - unfold HydroEq. shsimp n.
    change (Bulk (upd _ _ _ _)) with (Bulk p). done.
Qed.

Lemma eos_assign_item_run eosref eos fn F i p :
  shells n p → (0 ≤ i < Z.of_nat n)%Z → resolves eosref eos p →
  eos_assign_item eosref fn F i p
  = Ok () (upd F i (fn eos (shell p P_MPa i) (shell p T_K i)) p).
Proof.
  intros Hn Hi Hres. unfold eos_assign_item.
  mstep ltac:(by apply Hres). mget n. mget n.
  by apply (setitem_ok n).
Qed.

Lemma convect_step_ok eosref eos i m p :
  shells n p → (1 ≤ i < Z.of_nat n)%Z → resolves eosref eos p →
  ∃ p', convect_step G eosref i (Some m) p
        = Ok (Some (m + shell p' MLayer_kg (i - 1))) p'
      ∧ shells n p' ∧ same_env p p'
      ∧ unchanged_except (convect_footprint i) p p'
      ∧ HydroEq G p' m i ∧ AdiabatEq p' i ∧ PropsEq eos p' i.
Proof.
  intros Hn Hi Hres.
  destruct (increment_depth_ok i m p Hn Hi) as (p1 & Hrun & Hn1 & Henv1 & Hfr1 & Heq1).
  assert (resolves eosref eos p1) as Hres1
    by (eapply resolves_env; [done | apply Henv1]).
  set (vT := shell p1 T_K (i - 1)
             + shell p1 T_K (i - 1) * shell p1 alpha_pK (i - 1)
               / shell p1 Cp_JkgK (i - 1) / shell p1 rho_kgm3 (i - 1)
               * (shell p1 P_MPa i - shell p1 P_MPa (i - 1)) * 1e6).
  set (pT := upd T_K i vT p1).
  set (Pi := shell p1 P_MPa i).
  set (p' := upd kTherm_WmK i (fn_kTherm_WmK eos Pi vT)
               (upd alpha_pK i (fn_alpha_pK eos Pi vT)
                  (upd Cp_JkgK i (fn_Cp_JkgK eos Pi vT)
                     (upd rho_kgm3 i (fn_rho_kgm3 eos Pi vT) pT)))).
  assert (shells n pT) as HnT by (subst pT; eauto with shells).
  exists p'. split; [| split; [| split; [| split; [| split; [| split]]]]].
  - unfold convect_step.
    mstep ltac:(exact Hrun).
    mget n. mget n. mget n. mget n. mget n. mget n. mget n.
    mstep ltac:(apply (setitem_ok n); [done | lia]).
    fold vT. fold pT.
    mstep ltac:(apply eos_assign_item_run;
                [done | lia | eapply resolves_env; [exact Hres1 | reflexivity]]).
    mstep ltac:(apply eos_assign_item_run;
                [eauto with shells | lia | eapply resolves_env; [exact Hres1 | reflexivity]]).
    mstep ltac:(apply eos_assign_item_run;
                [eauto 10 with shells | lia
                | eapply resolves_env; [exact Hres1 | reflexivity]]).
    mstep ltac:(apply eos_assign_item_run;
                [eauto 10 with shells | lia
                | eapply resolves_env; [exact Hres1 | reflexivity]]).
    subst p' pT Pi. shsimp n. reflexivity.
  - subst p' pT. eauto 10 with shells.
  - eapply same_env_trans; [exact Henv1 |]. by repeat split.
  - eapply (unchanged_except_trans (depth_footprint i)
              (λ F j, F ≠ P_MPa ∧ F ≠ MLayer_kg ∧ j = i)); [| | exact Hfr1 |].
    + unfold depth_footprint, convect_footprint. intros F j [[[-> | [-> | ->]] ->] | ?]; [left; done .. | by right].
    + unfold convect_footprint. auto.
    + intros F j Hj Hfp. subst p' pT.
      rewrite !shell_upd_ne; [done | try lia ..];
        (destruct F; first [ left; discriminate
                           | right; intros Heq; apply Hfp; repeat split; (done || lia) ]).
  - destruct Heq1 as (Hz & Hr & HM & Hg). unfold HydroEq.
    subst p' pT. shsimp n.
    change (Bulk (upd _ _ _ _)) with (Bulk p1). done.
  - unfold AdiabatEq. subst p' pT. shsimp n. done.
  - unfold PropsEq. subst p' pT Pi. shsimp n. done.
Qed.
End Steps.

(** ** Shell loops *)

Lemma sumZ_nil f lo hi : (hi ≤ lo)%Z → sumZ f lo hi = 0.
Proof. intros H. unfold sumZ. by rewrite range_nil. Qed.

Lemma sumZ_cons f lo hi : (lo < hi)%Z → sumZ f lo hi = f lo + sumZ f (lo + 1) hi.
Proof. intros H. unfold sumZ. by rewrite range_cons. Qed.

Lemma sumZ_ext f g lo hi :
  (∀ j, (lo ≤ j < hi)%Z → f j = g j) → sumZ f lo hi = sumZ g lo hi.
Proof.
  intros H. unfold sumZ. f_equal. apply list_fmap_ext.
  intros i x Hx. apply H. unfold range in Hx. apply lookup_seqZ in Hx. lia.
Qed.

Lemma sumZ_snoc f lo hi : (lo ≤ hi)%Z → sumZ f lo (hi + 1) = sumZ f lo hi + f hi.
Proof.
  intros H. unfold sumZ, range.
  replace (hi + 1 - lo)%Z with ((hi - lo) + 1)%Z by lia.
  rewrite seqZ_app by lia. rewrite fmap_app.
  replace (lo + (hi - lo))%Z with hi by lia.
  change (seqZ hi 1) with [hi]. simpl.
  generalize (f <$> seqZ lo (hi - lo)). intros l.
  induction l as [| x l IH]; simpl; [lra | rewrite IH; lra].
Qed.

Lemma agree_upto_of_unchanged (fp : ArrayAttr → Z → Prop) i p p' :
  same_env p p' →
  (∀ F j, fp F j → (i < j)%Z ∨ F = MLayer_kg ∧ (i ≤ j)%Z) →
  unchanged_except fp p p' → agree_upto i p p'.
Proof.
  intros Henv Hfp Hun. split; [apply Henv |].
  intros F j Hj HM. apply Hun; [lia |].
  intros H. apply Hfp in H as [H | [-> H]]; [lia |]. specialize (HM eq_refl). lia.
Qed.

Section Loop.
Variable n : nat.
Variable body : Z → option R → M (option R).
Variable E : PlanetStruct → R → Z → Prop.
Variable fp : Z → ArrayAttr → Z → Prop.
Variable p0 : PlanetStruct.

Hypothesis body_ok : ∀ i m p,
  shells n p → same_env p0 p → (1 ≤ i < Z.of_nat n)%Z →
  ∃ p', body i (Some m) p = Ok (Some (m + shell p' MLayer_kg (i - 1))) p'
      ∧ shells n p' ∧ same_env p p'
      ∧ unchanged_except (fp i) p p'
      ∧ E p' m i.
Hypothesis E_agree : ∀ p p' m i,
  (1 ≤ i)%Z → agree_upto i p p' → E p m i → E p' m i.
Hypothesis fp_below : ∀ i F j,
  fp i F j → (i ≤ j)%Z ∨ F = MLayer_kg ∧ j = (i - 1)%Z.

Lemma for_steps_ok (k : nat) : ∀ a b m p,
  Z.to_nat (b - a) = k → shells n p → same_env p0 p →
  (1 ≤ a)%Z → (b ≤ Z.of_nat n)%Z →
  ∃ p' m', for_ (range a b) body (Some m) p = Ok (Some m') p'
    ∧ shells n p' ∧ same_env p p'
    ∧ unchanged_except (λ F j, ∃ i, (a ≤ i < b)%Z ∧ fp i F j) p p'
    ∧ (∀ i, (a ≤ i < b)%Z →
         E p' (m + sumZ (shell p' MLayer_kg) (a - 1) (i - 1)) i)
    ∧ m' = m + sumZ (shell p' MLayer_kg) (a - 1) (b - 1).
Proof.
  induction k as [| k IH]; intros a b m p Hk Hn Henv Ha Hb.
  - exists p, m. rewrite range_nil by lia. simpl.
    split; [done |]. split; [done |]. split; [apply same_env_refl |].
    split; [apply unchanged_except_refl |].
    split; [intros i Hi; lia |].
    rewrite sumZ_nil by lia. lra.
  - rewrite range_cons by lia. simpl.
    destruct (body_ok a m p Hn Henv) as (p1 & Hrun1 & Hn1 & Henv1 & Hfr1 & HE1); [lia |].
    assert (same_env p0 p1) as Henv01 by (by eapply same_env_trans).
    destruct (IH (a + 1)%Z b (m + shell p1 MLayer_kg (a - 1)) p1)
      as (p' & m' & Hrun & Hn' & Henv' & Hfr' & HE' & Hm'); [lia | done | done | lia | lia |].
    assert (agree_upto a p1 p') as Hagree.
    { eapply agree_upto_of_unchanged; [exact Henv' | | exact Hfr'].
      intros F j (i & Hi & Hfp). apply fp_below in Hfp as [? | [-> ->]]; [lia |].
      right. split; [done | lia]. }
    assert (shell p' MLayer_kg (a - 1) = shell p1 MLayer_kg (a - 1)) as HM
      by (apply Hagree; [lia | intros _; lia]).
    assert (∀ i, (a < i)%Z →
              m + sumZ (shell p' MLayer_kg) (a - 1) (i - 1)
              = m + shell p1 MLayer_kg (a - 1)
                + sumZ (shell p' MLayer_kg) (a + 1 - 1) (i - 1)) as Hsum.
    { intros i Hi. rewrite (sumZ_cons _ (a - 1)) by lia. rewrite HM.
      replace (a - 1 + 1)%Z with (a + 1 - 1)%Z by lia. lra. }
    exists p', m'.
    split; [by mstep ltac:(exact Hrun1) |].
    split; [done |]. split; [by eapply same_env_trans |].
    split; [| split].
    + eapply (unchanged_except_trans (fp a)); [| | exact Hfr1 | exact Hfr'].
      * intros F j Hfp. exists a. split; [lia | done].
      * intros F j (i & Hi & Hfp). exists i. split; [lia | done].
    + intros i Hi. destruct (decide (i = a)) as [-> | Hne].
      * rewrite sumZ_nil by lia. rewrite Rplus_0_r.
        eapply E_agree; [lia | exact Hagree | exact HE1].
      * rewrite Hsum by lia. apply HE'. lia.
    + rewrite Hm'. destruct (decide (a + 1 ≤ b - 1)%Z).
      * rewrite Hsum by lia. replace (b - 1 + 1 - 1)%Z with (b - 1)%Z by lia.
        done.
      * rewrite (sumZ_cons _ (a - 1)) by lia. rewrite HM.
        rewrite !sumZ_nil by lia. lra.
Qed.
End Loop.

(** ** The three zones *)

Lemma sumZ_split f lo mid hi :
  (lo ≤ mid ≤ hi)%Z → sumZ f lo hi = sumZ f lo mid + sumZ f mid hi.
Proof.
  intros H. unfold sumZ, range.
  replace (hi - lo)%Z with ((mid - lo) + (hi - mid))%Z by lia.
  rewrite seqZ_app by lia. rewrite fmap_app.
  replace (lo + (mid - lo))%Z with mid by lia.
  generalize (f <$> seqZ lo (mid - lo)). intros l.
  induction l as [| x l IH]; simpl; [lra | rewrite IH; lra].
Qed.

Lemma agree_upto_mono i k p p' : (i ≤ k)%Z → agree_upto k p p' → agree_upto i p p'.
Proof.
  intros Hik [HB Ha]. split; [done |].
  intros F j Hj HM. apply Ha; [lia |]. intros HF. specialize (HM HF). lia.
Qed.

Lemma arr_ext n F p p' :
  shells n p → shells n p' →
  (∀ j, (0 ≤ j < Z.of_nat n)%Z → shell p' F j = shell p F j) →
  arr p' F = arr p F.
Proof.
  intros Hn Hn' H. apply list_eq_same_length with n; [apply Hn | apply Hn' |].
  intros i x y Hi Hy Hx.
  specialize (H (Z.of_nat i)). unfold shell in H. rewrite Nat2Z.id in H.
  apply list_lookup_total_correct in Hx, Hy. rewrite <- Hx, <- Hy. apply H. lia.
Qed.

Lemma shell_of_arr_eq F p p' j : arr p' F = arr p F → shell p' F j = shell p F j.
Proof. intros H. unfold shell. by rewrite H. Qed.

Lemma shell_fill_props_T eos lo hi p j : shell (fill_props eos lo hi p) T_K j = shell p T_K j.
Proof. unfold fill_props. by rewrite !shell_fill_ne. Qed.

Lemma shell_fill_props_other eos lo hi p F j :
  F ≠ rho_kgm3 → F ≠ Cp_JkgK → F ≠ alpha_pK → F ≠ kTherm_WmK →
  shell (fill_props eos lo hi p) F j = shell p F j.
Proof. intros. unfold fill_props. by rewrite !shell_fill_ne. Qed.

Lemma shells_fill_props n eos lo hi p : shells n p → shells n (fill_props eos lo hi p).
Proof. intros. unfold fill_props. eauto 10 with shells. Qed.

Lemma PropsEq_fill_props n eos lo hi p j :
  shells n p → (0 ≤ j < Z.of_nat n)%Z → (lo ≤ j < hi)%Z →
  PropsEq eos (fill_props eos lo hi p) j.
Proof.
  intros Hn Hj Hr. unfold PropsEq.
  rewrite shell_fill_props_T, (shell_fill_props_other _ _ _ _ P_MPa) by done.
  unfold fill_props.
  repeat split.
  - rewrite !shell_fill_ne by done. rewrite (shell_fill n) by done.
    by rewrite decide_True.
  - rewrite !shell_fill_ne by done. rewrite (shell_fill n) by eauto with shells.
    by rewrite decide_True.
  - rewrite !shell_fill_ne by done. rewrite (shell_fill n) by eauto with shells.
    by rewrite decide_True.
  - rewrite (shell_fill n) by eauto 10 with shells. by rewrite decide_True.
Qed.

Lemma fill_props_outside n eos lo hi p F j :
  shells n p → (0 ≤ j < Z.of_nat n)%Z → ¬ (lo ≤ j < hi)%Z →
  shell (fill_props eos lo hi p) F j = shell p F j.
Proof.
  intros Hn Hj Hr. unfold fill_props.
  rewrite !(shell_fill n) by eauto 10 with shells.
  repeat (rewrite decide_False by tauto). done.
Qed.

Lemma shell_ge n F p j : shells n p → (Z.of_nat n ≤ j)%Z → shell p F j = 0.
Proof.
  intros Hn Hj. unfold shell. rewrite list_lookup_total_alt.
  rewrite lookup_ge_None_2 by (rewrite Hn; lia). done.
Qed.

Lemma unchanged_fill n F lo hi f p :
  shells n p → unchanged_except (λ F' j, F' = F ∧ (lo ≤ j < hi)%Z) p (fill F lo hi f p).
Proof.
  intros Hn F' j Hj Hfp.
  destruct (decide (j < Z.of_nat n)%Z).
  - rewrite (shell_fill n) by (done || lia). rewrite decide_False; [done |].
    intros [-> ?]. by apply Hfp.
  - rewrite !(shell_ge n) by (eauto with shells || lia). done.
Qed.

Lemma unchanged_fill_props n eos lo hi p :
  shells n p →
  unchanged_except (λ F j, F ≠ P_MPa ∧ F ≠ T_K ∧ (lo ≤ j < hi)%Z) p (fill_props eos lo hi p).
Proof.
  intros Hn F j Hj Hfp.
  destruct (decide (j < Z.of_nat n)%Z).
  - destruct (decide (lo ≤ j < hi)%Z).
    + assert (F = P_MPa ∨ F = T_K) as [-> | ->]
        by (destruct (decide (F = P_MPa)); destruct (decide (F = T_K)); tauto).
      * by apply shell_fill_props_other.
      * apply shell_fill_props_T.
    + by apply (fill_props_outside n).
  - rewrite !(shell_ge n) by (eauto using shells_fill_props || lia). done.
Qed.

Lemma depth_footprint_below i F j :
  depth_footprint i F j → (i ≤ j)%Z ∨ F = MLayer_kg ∧ j = (i - 1)%Z.
Proof. intros [[_ ->] | [-> ->]]; [left; lia | by right]. Qed.

Lemma convect_footprint_below i F j :
  convect_footprint i F j → (i ≤ j)%Z ∨ F = MLayer_kg ∧ j = (i - 1)%Z.
Proof. intros [(_ & _ & ->) | [-> ->]]; [left; lia | by right]. Qed.

Section Zones.
Variable G : R.
Variable n : nat.

Lemma upper_zones_ok eosLidRef eosConvRef eosLid eosConv top c d Tconv Ptop m0 p :
  shells n p → (0 ≤ top < c)%Z → (c ≤ d)%Z → (c < Z.of_nat n)%Z → (d ≤ Z.of_nat n)%Z →
  resolves eosLidRef eosLid p → resolves eosConvRef eosConv p →
  ∀ p1, p1 = fill T_K top (c + 1)
               (λ j, power_law Tconv (shell p T_K top) Ptop (shell p P_MPa j)) p →
  ∃ p2 p3 m3 p4 m4,
    assign_lid_props eosLidRef top c p1 = Ok () p2
    ∧ for_ (range (top + 1) c) (increment_depth G) (Some m0) p2 = Ok (Some m3) p3
    ∧ for_ (range c d) (convect_step G eosConvRef) (Some m3) p3 = Ok (Some m4) p4
    ∧ shells n p4 ∧ same_env p p4
    ∧ upper_zones_post G eosLid eosConv top c d Tconv Ptop m0 p p4 m4.
Proof.
  intros Hn Htop Hcd Hc Hd HresL HresC p1 Hp1.
  assert (shells n p1) as Hn1 by (subst p1; eauto with shells).
  assert (same_env p p1) as Henv1 by (subst p1; by repeat split).
  set (p2 := fill_props eosLid top (c + 1) p1).
  assert (shells n p2) as Hn2 by (by apply shells_fill_props).
  assert (same_env p p2) as Henv2 by (subst p2 p1; by repeat split).
  destruct (for_steps_ok n (increment_depth G) (HydroEq G) depth_footprint p2
              (λ i m q Hq _ Hi, increment_depth_ok G n i m q Hq Hi)
              (HydroEq_agree G) depth_footprint_below
              (Z.to_nat (c - (top + 1))) (top + 1)%Z c m0 p2)
    as (p3 & m3 & Hrun3 & Hn3 & Henv3 & Hfr3 & HE3 & Hm3);
    [done | done | apply same_env_refl | lia | lia |].
  assert (same_env p p3) as Henv03 by (by eapply same_env_trans).
  assert (resolves eosConvRef eosConv p3) as HresC3
    by (eapply resolves_env; [exact HresC | apply Henv03]).
  destruct (for_steps_ok n (convect_step G eosConvRef)
              (λ q m i, HydroEq G q m i ∧ AdiabatEq q i ∧ PropsEq eosConv q i)
              convect_footprint p3
              (λ i m q Hq Hqenv Hi,
                 convect_step_ok G n eosConvRef eosConv i m q Hq Hi
                   (resolves_env _ _ _ _ HresC3 (proj1 (proj2 (proj2 (proj2 Hqenv))))))
              (λ q q' m i Hi Ha HE,
                 conj (HydroEq_agree G q q' m i Hi Ha (proj1 HE))
                   (conj (AdiabatEq_agree q q' i Hi Ha (proj1 (proj2 HE)))
                      (PropsEq_agree eosConv q q' i ltac:(lia) Ha (proj2 (proj2 HE)))))
              convect_footprint_below
              (Z.to_nat (d - c)) c d m3 p3)
    as (p4 & m4 & Hrun4 & Hn4 & Henv4 & Hfr4 & HE4 & Hm4);
    [done | done | apply same_env_refl | lia | lia |].
  exists p2, p3, m3, p4, m4.
  split; [subst p2; apply (assign_lid_props_ok n); (done || lia || idtac) |].
  { eapply resolves_env; [exact HresL | apply Henv1]. }
  split; [done |]. split; [done |]. split; [done |].
  split; [by eapply same_env_trans |].
  (* frames between the intermediate planets *)
  assert (agree_upto (c - 1) p3 p4) as Hag34.
  { eapply agree_upto_of_unchanged; [exact Henv4 | | exact Hfr4].
    intros F j (i & Hi & [(_ & _ & ->) | [-> ->]]); [left; lia | right; split; [done | lia]]. }
  assert (∀ F j, (0 ≤ j)%Z → F ≠ z_m → F ≠ r_m → F ≠ g_ms2 → F ≠ MLayer_kg →
            shell p3 F j = shell p2 F j) as Hth23.
  { intros F j Hj ? ? ? ?. apply Hfr3; [done |].
    intros (i & _ & [[[? | [? | ?]] _] | [? _]]); done. }
  assert (∀ j, shell p2 T_K j = shell p1 T_K j) as HT21
    by (intros j; apply shell_fill_props_T).
  assert (∀ j, shell p2 P_MPa j = shell p P_MPa j) as HP2.
  { intros j. subst p2. rewrite shell_fill_props_other by done.
    subst p1. by rewrite shell_fill_ne. }
  assert (∀ j, (0 ≤ j)%Z → shell p4 P_MPa j = shell p P_MPa j) as HP4.
  { intros j Hj. rewrite (Hfr4 P_MPa j Hj).
    - rewrite Hth23 by done. apply HP2.
    - intros (i & _ & [(? & _) | (? & _)]); done. }
  assert (∀ i, (top ≤ i ≤ c - 1)%Z →
            sumZ (shell p4 MLayer_kg) top i = sumZ (shell p3 MLayer_kg) top i) as Hsum34.
  { intros i Hi. apply sumZ_ext. intros j Hj.
    apply Hag34; [lia | intros _; lia]. }
  split.
  - apply (arr_ext n); [done | done |]. intros j Hj. apply HP4. lia.
  - intros i Hi. destruct (decide (i < c)%Z) as [Hic | Hic].
    + eapply HydroEq_agree; [lia | eapply agree_upto_mono; [| exact Hag34]; lia |].
      rewrite Hsum34 by lia.
      specialize (HE3 i ltac:(lia)).
      replace (top + 1 - 1)%Z with top in HE3 by lia. done.
    + destruct (HE4 i ltac:(lia)) as [HH _].
      replace (m0 + sumZ (shell p4 MLayer_kg) top (i - 1))
        with (m3 + sumZ (shell p4 MLayer_kg) (c - 1) (i - 1)); [done |].
      rewrite Hm3. replace (top + 1 - 1)%Z with top by lia.
      rewrite <- Hsum34 by lia.
      rewrite (sumZ_split _ top (c - 1) (i - 1)) by lia. lra.
  - rewrite Hm4, Hm3. replace (top + 1 - 1)%Z with top by lia.
    rewrite <- Hsum34 by lia.
    rewrite (sumZ_split _ top (c - 1) (d - 1)) by lia. lra.
  - intros i Hi.
    destruct Hag34 as [_ Hag]. rewrite Hag by (lia || done).
    rewrite Hth23 by (lia || done). rewrite HT21. subst p1.
    rewrite (shell_fill n) by (done || lia). by rewrite decide_True by (split; [done | lia]).
  - intros i Hi.
    eapply PropsEq_agree; [lia | eapply agree_upto_mono; [| exact Hag34]; lia |].
    pose proof (PropsEq_fill_props n eosLid top (c + 1) p1 i Hn1 ltac:(lia) ltac:(lia)) as HP.
    fold p2 in HP. unfold PropsEq in *. rewrite !Hth23 by (lia || done). done.
  - intros i Hi. apply (HE4 i Hi).
  - intros i Hi. apply (HE4 i Hi).
  - intros F HF.
    rewrite (Hfr4 F top), (Hfr3 F top); [| lia | | lia |].
    + subst p2. rewrite shell_fill_props_other by (destruct HF as [-> | [-> | ->]]; done).
      subst p1. apply shell_fill_ne. destruct HF as [-> | [-> | ->]]; done.
    + intros (i & Hi & [[_ ?] | [-> _]]); [lia |].
      destruct HF as [? | [? | ?]]; done.
    + intros (i & Hi & [(_ & _ & ?) | [-> _]]); [lia |].
      destruct HF as [? | [? | ?]]; done.
  - assert (unchanged_except (λ F j, (top ≤ j ≤ Z.max c (d - 1))%Z) p p1) as H01.
    { subst p1. eapply unchanged_except_weaken;
        [| by apply (unchanged_fill n T_K top (c + 1))].
      intros F j _ [_ ?]. lia. }
    assert (unchanged_except (λ F j, (top ≤ j ≤ Z.max c (d - 1))%Z) p1 p2) as H12.
    { eapply unchanged_except_weaken;
        [| by apply (unchanged_fill_props n eosLid top (c + 1))].
      intros F j _ (_ & _ & ?). lia. }
    assert (unchanged_except (λ F j, (top ≤ j ≤ Z.max c (d - 1))%Z) p2 p3) as H23.
    { eapply unchanged_except_weaken; [| exact Hfr3].
      intros F j _ (i & Hi & [[_ ->] | [-> ->]]); lia. }
    assert (unchanged_except (λ F j, (top ≤ j ≤ Z.max c (d - 1))%Z) p3 p4) as H34.
    { eapply unchanged_except_weaken; [| exact Hfr4].
      intros F j _ (i & Hi & [(_ & _ & ->) | [-> ->]]); lia. }
    intros F j Hj Hfp. rewrite H34, H23, H12, H01 by done. done.
Qed.

Lemma lower_zones_ok eosTBLRef eosTBL d e Tb Pb m4 p4 :
  shells n p4 → (1 ≤ d ≤ Z.of_nat n)%Z → (e < Z.of_nat n)%Z →
  resolves eosTBLRef eosTBL p4 →
  ∃ p5 p6 p7 m7,
    assign_TBL_T (range d (e + 1)) Tb Pb (d - 1) p4 = Ok () p5
    ∧ assign_TBL_props eosTBLRef (range d (e + 1)) p5 = Ok () p6
    ∧ for_ (range d (e + 1)) (increment_depth G) (Some m4) p6 = Ok (Some m7) p7
    ∧ shells n p7 ∧ same_env p4 p7
    ∧ agree_upto (d - 1) p4 p7
    ∧ (∀ j, (0 ≤ j)%Z → shell p7 P_MPa j = shell p4 P_MPa j)
    ∧ (∀ i, (d ≤ i ≤ e)%Z →
         HydroEq G p7 (m4 + sumZ (shell p7 MLayer_kg) (d - 1) (i - 1)) i)
    ∧ (∀ i, (d ≤ i ≤ e)%Z →
         shell p7 T_K i = power_law Tb (shell p4 T_K (d - 1)) Pb (shell p4 P_MPa i))
    ∧ (∀ i, (d ≤ i < e)%Z → PropsEq eosTBL p7 i)
    ∧ unchanged_except (λ F j, (d - 1 ≤ j ≤ e)%Z) p4 p7.
Proof.
  intros Hn Hd He Hres.
  set (p5 := fill T_K d (e + 1)
               (λ j, power_law Tb (shell p4 T_K (d - 1)) Pb (shell p4 P_MPa j)) p4).
  set (p6 := fill_props eosTBL d (e + 1 - 1) p5).
  assert (shells n p5) as Hn5 by (subst p5; eauto with shells).
  assert (shells n p6) as Hn6 by (by apply shells_fill_props).
  assert (same_env p4 p6) as Henv6 by (subst p6 p5; by repeat split).
  destruct (for_steps_ok n (increment_depth G) (HydroEq G) depth_footprint p6
              (λ i m q Hq _ Hi, increment_depth_ok G n i m q Hq Hi)
              (HydroEq_agree G) depth_footprint_below
              (Z.to_nat (e + 1 - d)) d (e + 1)%Z m4 p6)
    as (p7 & m7 & Hrun7 & Hn7 & Henv7 & Hfr7 & HE7 & Hm7);
    [done | done | apply same_env_refl | lia | lia |].
  exists p5, p6, p7, m7.
  split; [apply (assign_TBL_T_ok n); (done || lia) |].
  split.
  { apply (assign_TBL_props_ok n); [done | lia | lia |].
    eapply resolves_env; [exact Hres | reflexivity]. }
  split; [done |]. split; [done |]. split; [by eapply same_env_trans |].
  assert (∀ F j, (0 ≤ j)%Z → F ≠ z_m → F ≠ r_m → F ≠ g_ms2 → F ≠ MLayer_kg →
            shell p7 F j = shell p6 F j) as Hth67.
  { intros F j Hj ? ? ? ?. apply Hfr7; [done |].
    intros (i & _ & [[[? | [? | ?]] _] | [? _]]); done. }
  assert (unchanged_except (λ F j, (d - 1 ≤ j ≤ e)%Z) p4 p5) as H45.
  { subst p5. eapply unchanged_except_weaken;
      [| by apply (unchanged_fill n T_K d (e + 1))].
    intros F j _ [_ ?]. lia. }
  assert (unchanged_except (λ F j, (d - 1 ≤ j ≤ e)%Z) p5 p6) as H56.
  { eapply unchanged_except_weaken;
      [| by apply (unchanged_fill_props n eosTBL d (e + 1 - 1))].
    intros F j _ (_ & _ & ?). lia. }
  assert (unchanged_except (λ F j, (d - 1 ≤ j ≤ e)%Z) p6 p7) as H67.
  { eapply unchanged_except_weaken; [| exact Hfr7].
    intros F j _ (i & Hi & [[_ ->] | [-> ->]]); lia. }
  assert (unchanged_except (λ F j, (d - 1 ≤ j ≤ e)%Z) p4 p7) as H47.
  { intros F j Hj Hfp. rewrite H67, H56, H45 by done. done. }
  assert (∀ j, shell p6 P_MPa j = shell p4 P_MPa j) as HP6.
  { intros j. subst p6. rewrite shell_fill_props_other by done.
    subst p5. by rewrite shell_fill_ne. }
  split.
  { split; [by destruct Henv7 as [-> _]; destruct Henv6 as [-> _] |].
    intros F j Hj HM.
    destruct (decide (j = d - 1)%Z) as [-> | Hne]; [| apply H47; lia].
    rewrite Hfr7.
    - subst p6. rewrite (fill_props_outside n) by (done || lia).
      subst p5. rewrite (shell_fill n) by (done || lia).
      rewrite decide_False; [done | intros [_ ?]; lia].
    - lia.
    - intros (i & Hi & [[_ ?] | [-> _]]); [lia |]. specialize (HM eq_refl). lia. }
  split; [intros j Hj; rewrite Hth67 by done; apply HP6 |].
  split; [intros i Hi; apply HE7; lia |].
  split.
  { intros i Hi. rewrite Hth67 by (lia || done).
    subst p6. rewrite shell_fill_props_T. subst p5.
    rewrite (shell_fill n) by (done || lia).
    by rewrite decide_True by (split; [done | lia]). }
  split; [| done].
  intros i Hi.
  pose proof (PropsEq_fill_props n eosTBL d (e + 1 - 1) p5 i Hn5 ltac:(lia) ltac:(lia)) as HP.
  fold p6 in HP. unfold PropsEq in *. rewrite !Hth67 by (lia || done). done.
Qed.

Lemma three_zones_ok eosLidRef eosConvRef eosTBLRef eosLid eosConv eosTBL
    top c d e Tconv Tb Pb m0 p :
  shells n p → (0 ≤ top < c)%Z → (c ≤ d)%Z → (c < Z.of_nat n)%Z →
  (d ≤ Z.of_nat n)%Z → (e < Z.of_nat n)%Z →
  resolves eosLidRef eosLid p → resolves eosConvRef eosConv p →
  resolves eosTBLRef eosTBL p →
  ∀ p1, p1 = fill T_K top (c + 1)
               (λ j, power_law Tconv (shell p T_K top) (shell p P_MPa c)
                       (shell p P_MPa j)) p →
  ∃ p2 p3 m3 p4 m4 p5 p6 p7 m7,
    assign_lid_props eosLidRef top c p1 = Ok () p2
    ∧ for_ (range (top + 1) c) (increment_depth G) (Some m0) p2 = Ok (Some m3) p3
    ∧ for_ (range c d) (convect_step G eosConvRef) (Some m3) p3 = Ok (Some m4) p4
    ∧ assign_TBL_T (range d (e + 1)) Tb Pb (d - 1) p4 = Ok () p5
    ∧ assign_TBL_props eosTBLRef (range d (e + 1)) p5 = Ok () p6
    ∧ for_ (range d (e + 1)) (increment_depth G) (Some m4) p6 = Ok (Some m7) p7
    ∧ shells n p4 ∧ same_env p p4
    ∧ upper_zones_post G eosLid eosConv top c d Tconv (shell p P_MPa c) m0 p p4 m4
    ∧ shells n p7 ∧ same_env p p7 ∧ agree_upto (d - 1) p4 p7
    ∧ three_zone_post G eosLid eosConv eosTBL top c d e Tconv Tb Pb m0 p p7.
Proof.
  intros Hn Htop Hcd Hc Hd He HresL HresC HresT p1 Hp1.
  destruct (upper_zones_ok eosLidRef eosConvRef eosLid eosConv top c d Tconv
              (shell p P_MPa c) m0 p Hn Htop Hcd Hc Hd HresL HresC p1 Hp1)
    as (p2 & p3 & m3 & p4 & m4 & Hr2 & Hr3 & Hr4 & Hn4 & Henv4 & Hup).
  destruct (lower_zones_ok eosTBLRef eosTBL d e Tb Pb m4 p4 Hn4 ltac:(lia) He)
    as (p5 & p6 & p7 & m7 & Hr5 & Hr6 & Hr7 & Hn7 & Henv7 & Hag & HP7 & HH7 & HT7
        & Hpr7 & Hfr7).
  { eapply resolves_env; [exact HresT | apply Henv4]. }
  exists p2, p3, m3, p4, m4, p5, p6, p7, m7.
  do 6 (split; [done |]). split; [done |]. split; [done |]. split; [done |].
  split; [done |]. split; [by eapply same_env_trans |]. split; [done |].
  destruct Hup as [UP UH UM ULT ULP UCT UCP UTOP UF].
  assert (∀ i, (top ≤ i ≤ d - 1)%Z →
            sumZ (shell p7 MLayer_kg) top i = sumZ (shell p4 MLayer_kg) top i) as Hsum.
  { intros i Hi. apply sumZ_ext. intros j Hj.
    apply Hag; [lia | intros _; lia]. }
  assert (∀ j, (0 ≤ j)%Z → shell p7 P_MPa j = shell p P_MPa j) as HP.
  { intros j Hj. rewrite HP7 by done. by apply shell_of_arr_eq. }
  split.
  - apply (arr_ext n); [done | done |]. intros j Hj. apply HP. lia.
  - intros i Hi1 Hi2. destruct (decide (i < d)%Z) as [Hid | Hid].
    + eapply HydroEq_agree; [lia | eapply agree_upto_mono; [| exact Hag]; lia |].
      rewrite Hsum by lia. apply UH. lia.
    + replace (m0 + sumZ (shell p7 MLayer_kg) top (i - 1))
        with (m4 + sumZ (shell p7 MLayer_kg) (d - 1) (i - 1)); [apply HH7; lia |].
      rewrite UM. rewrite <- Hsum by lia.
      rewrite (sumZ_split _ top (d - 1) (i - 1)) by lia. lra.
  - intros i Hi. destruct Hag as [_ Hag]. rewrite Hag by (lia || done). by apply ULT.
  - intros i Hi.
    eapply PropsEq_agree; [lia | eapply agree_upto_mono; [| exact Hag]; lia |].
    by apply ULP.
  - intros i Hi.
    eapply AdiabatEq_agree; [lia | eapply agree_upto_mono; [| exact Hag]; lia |].
    by apply UCT.
  - intros i Hi.
    eapply PropsEq_agree; [lia | eapply agree_upto_mono; [| exact Hag]; lia |].
    by apply UCP.
  - intros i Hi. rewrite HT7 by done.
    destruct Hag as [_ Hag]. rewrite (Hag T_K (d - 1)%Z) by (lia || done).
    by rewrite (shell_of_arr_eq P_MPa p p4).
  - done.
  - intros F HF. destruct Hag as [_ Hag].
    rewrite Hag; [by apply UTOP | lia |].
    intros ->. destruct HF as [? | [? | ?]]; done.
  - intros F j Hj Hfp. rewrite Hfr7, UF by lia. done.
Qed.
End Zones.

(** The posts only look at the arrays of the planet the zones start from. *)
Lemma upper_zones_post_arr G eosL eosC top c d Tconv Ptop m0 q p p4 m4 :
  arr q = arr p →
  upper_zones_post G eosL eosC top c d Tconv Ptop m0 q p4 m4 →
  upper_zones_post G eosL eosC top c d Tconv Ptop m0 p p4 m4.
Proof.
  intros Harr [UP UH UM ULT ULP UCT UCP UTOP UF].
  assert (∀ F j, shell q F j = shell p F j) as Hsh
    by (intros; unfold shell; by rewrite Harr).
  split; try done.
  - by rewrite <- Harr.
  - intros i Hi. rewrite <- !Hsh. by apply ULT.
  - intros F HF. rewrite <- Hsh. by apply UTOP.
  - intros F j Hj Hfp. rewrite <- Hsh. by apply UF.
Qed.

Lemma three_zone_post_arr G eosL eosC eosT top c d e Tconv Tb Pb m0 q p p' :
  arr q = arr p →
  three_zone_post G eosL eosC eosT top c d e Tconv Tb Pb m0 q p' →
  three_zone_post G eosL eosC eosT top c d e Tconv Tb Pb m0 p p'.
Proof.
  intros Harr [TP TH TLT TLP TCT TCP TTT TTP TTOP TF].
  assert (∀ F j, shell q F j = shell p F j) as Hsh
    by (intros; unfold shell; by rewrite Harr).
  split; try done.
  - by rewrite <- Harr.
  - intros i Hi. rewrite <- !Hsh. by apply TLT.
  - intros i Hi. rewrite <- !Hsh. by apply TTT.
  - intros F HF. rewrite <- Hsh. by apply TTOP.
  - intros F j Hj Hfp. rewrite <- Hsh. by apply TF.
Qed.

Lemma shells_enter_zones n ph reg p : shells n p → shells n (enter_zones ph reg p).
Proof.
  intros Hn F. destruct ph; simpl; [| apply Hn ..].
  unfold cap_clathrate. case_decide; apply Hn.
Qed.

Lemma arr_enter_zones ph reg p : arr (enter_zones ph reg p) = arr p.
Proof. destruct ph; simpl; [| done ..]. unfold cap_clathrate. by case_decide. Qed.

Lemma np_sum_getslice n F hi p :
  shells n p → (0 ≤ hi ≤ Z.of_nat n)%Z →
  np_sum (list_getslice (arr p F) 0 hi) = sumZ (shell p F) 0 hi.
Proof.
  intros Hn Hhi. unfold sumZ. f_equal.
  apply list_eq_same_length with (Z.to_nat hi).
  - rewrite length_fmap, length_range. f_equal. lia.
  - rewrite length_getslice by (rewrite Hn; lia). f_equal. lia.
  - intros i x y Hi Hx Hy.
    apply list_lookup_total_correct in Hx, Hy. rewrite <- Hx, <- Hy.
    rewrite lookup_getslice by (rewrite ?Hn; lia).
    rewrite lookup_total_fmap_range by lia. done.
Qed.

(** ** The three routines *)

Lemma next_z_gt_ok x c p :
  next_index_gt (arr p z_m) x = Some c → next_z_gt x p = Ok c p.
Proof. intros H. unfold next_z_gt, gets, mbind, M_bind. by rewrite H. Qed.

Lemma next_index_gt_lt (z : list R) x c :
  next_index_gt z x = Some c → (0 ≤ c < Z.of_nat (length z))%Z.
Proof.
  unfold next_index_gt. intros H.
  destruct (list_find _ z) as [[k v] |] eqn:E; [| done].
  simpl in H. injection H as <-.
  apply list_find_Some in E as (Hk & _). apply lookup_lt_Some in Hk. simpl. lia.
Qed.

(** A higher threshold is first exceeded at a later shell. *)
Lemma next_index_gt_mono (z : list R) x y c d :
  x <= y → next_index_gt z x = Some c → next_index_gt z y = Some d → (c ≤ d)%Z.
Proof.
  unfold next_index_gt. intros Hxy Hc Hd.
  destruct (list_find (λ val, val > x) z) as [[k v] |] eqn:E1; [| done].
  destruct (list_find (λ val, val > y) z) as [[k' v'] |] eqn:E2; [| done].
  simpl in *. injection Hc as <-. injection Hd as <-.
  apply list_find_Some in E1 as (_ & _ & Hmin).
  apply list_find_Some in E2 as (Hk' & Hv' & _).
  destruct (decide (k' < k)%nat) as [Hlt | ]; [| lia].
  exfalso. apply (Hmin k' v' Hk' Hlt). lra.
Qed.

Section Phases.
Variable G : R.
Variable CDS2001 : Classifier.
Variable ClathrateLayers : option (ParamsStruct → M unit).
Variable n : nat.
Variable Params : ParamsStruct.

Lemma IceIIIConvect_whole_layer eos reg p :
  shells n p → phase_wf IceIII n p → lid_table IceIII p = Some eos →
  reg = phase_regime CDS2001 IceIII eos p →
  whole_layer_conduction IceIII reg p →
  IceIIIConvect G CDS2001 Params p = Ok () (enter_zones IceIII reg p).
Proof.
  intros Hn [HIb HIIIb] Heos Hreg Hwlc. unfold IceIIIConvect.
  mpure. mget n. mpure. mget n. mpure. mpure. mpure. mget n. mget n. mpure. mget n.
  mpure. mstep ltac:(by apply (resolves_surfIceEOS _ eos p Heos)). mpure.
  unfold phase_regime, phase_thickness in Hreg. rewrite <- Hreg.
  do 6 mpure. mpure. mpure.
  match goal with
  | |- context [decide ?P] => change P with (whole_layer_conduction IceIII reg p)
  end.
  rewrite decide_True by (by subst reg).
  reflexivity.
Qed.

Lemma IceIIIConvect_zones eosS reg c d p :
  three_zone_entry CDS2001 IceIII n eosS eosS reg c d p →
  three_zone_outcome G CDS2001 ClathrateLayers IceIII Params n eosS eosS reg c d p.
Proof.
  intros (Hn & [HIb HIIIb] & Heos & _ & Hreg & Hwlc & Hc & Hd & Htop & _).
  pose proof (next_index_gt_lt _ _ _ Hc) as Hcn.
  pose proof (next_index_gt_lt _ _ _ Hd) as Hdn.
  rewrite Hn in Hcn, Hdn.
  assert (c ≤ d)%Z as Hcd.
  { eapply next_index_gt_mono; [| exact Hc | exact Hd].
    unfold whole_layer_conduction, lid_threshold, TBL_threshold, phase_top in *.
    apply Rnot_le_lt in Hwlc. lra. }
  set (pre := enter_zones IceIII reg p).
  assert (shells n pre) as Hnpre by (by apply shells_enter_zones).
  assert (resolves (surfIceEOS_at "III") eosS pre) as Hres
    by (by apply resolves_surfIceEOS).
  simpl in Htop.
  destruct (three_zones_ok G n (surfIceEOS_at "III") (surfIceEOS_at "III")
              (surfIceEOS_at "III") eosS eosS eosS
              (nIbottom (Steps p)) c d (nIIIbottom (Steps p))
              (convectedTemperature_K reg) (Bulk p TbIII_K) (attr p PbIII_MPa)
              (sumZ (shell p MLayer_kg) 0 (nIbottom (Steps p))) pre
              Hnpre ltac:(lia) Hcd ltac:(lia) ltac:(lia) ltac:(lia) Hres Hres Hres
              _ eq_refl)
    as (p2 & p3 & m3 & p4 & m4 & p5 & p6 & p7 & m7 & Hr2 & Hr3 & Hr4 & Hr5 & Hr6 & Hr7
        & Hn4 & Henv4 & Hup & Hn7 & Henv7 & Hag & Hpost).
  exists p4, m4. split; [done |]. split; [done |].
  split; [by apply (upper_zones_post_arr _ _ _ _ _ _ _ _ _ pre) |].
  assert (IceIIIConvect G CDS2001 Params p
          = (Tlast ← getitem T_K (d - 1);
             TbIII ← bulk TbIII_K;
             if decide (Tlast > TbIII) then @raise unit ValueError else
             PbIII ← scalar PbIII_MPa;
             assign_TBL_T (range d (nIIIbottom (Steps p) + 1)) TbIII PbIII (d - 1);;
             assign_TBL_props (surfIceEOS_at "III") (range d (nIIIbottom (Steps p) + 1));;
             _ ← for_ (range d (nIIIbottom (Steps p) + 1)) (increment_depth G) (Some m4);
             mret ()) p4) as Hrun.
  { unfold IceIIIConvect.
    mpure. mget n. mpure. mget n. mpure. mpure. mpure. mget n. mget n. mpure. mget n.
    mpure. mstep ltac:(by apply (resolves_surfIceEOS _ eosS p Heos)). mpure.
    unfold phase_regime, phase_thickness in Hreg. rewrite <- Hreg.
    do 6 mpure. mpure. mpure.
    match goal with
    | |- context [decide ?P] => change P with (whole_layer_conduction IceIII reg p)
    end.
    rewrite decide_False by done.
    change (set_attr RaConvectIII _ _) with pre. unfold IceIIIConvect_three_zone.
    mpure. change (Steps pre) with (Steps p).
    mgetH n Hnpre. mpure.
    mstep ltac:(apply next_z_gt_ok; exact Hc).
    mpure.
    mstep ltac:(apply next_z_gt_ok; exact Hd).
    mpure. change (Steps pre) with (Steps p).
    mgetH n Hnpre. mpure.
    rewrite (np_sum_getslice n) by (done || lia).
    mpure.
    mstep ltac:(apply (assign_lid_T_ok n); (done || lia)).
    mstep ltac:(exact Hr2). mstep ltac:(exact Hr3). mstep ltac:(exact Hr4).
    reflexivity. }
  cbn [IceConvect phase_Tb phase_bottom phase_Pb phase_top phase_mass_above].
  rewrite Hrun. clear Hrun.
  destruct (decide (shell p4 T_K (d - 1) > Bulk p TbIII_K)) as [Hhot | Hcold].
  - left. split; [done |]. split; [done |].
    mget n. mpure.
    replace (Bulk p4 TbIII_K) with (Bulk p TbIII_K)
      by (destruct Henv4 as [-> _]; done).
    by rewrite decide_True.
  - right. split; [by right |]. exists p7.
    split.
    { mget n. mpure.
      replace (Bulk p4 TbIII_K) with (Bulk p TbIII_K)
        by (destruct Henv4 as [-> _]; done).
      rewrite decide_False by done.
      mpure.
      replace (attr p4 PbIII_MPa) with (attr p PbIII_MPa)
        by (destruct Henv4 as (_ & _ & _ & _ & ->); done).
      mstep ltac:(exact Hr5). mstep ltac:(exact Hr6). mstep ltac:(exact Hr7).
      reflexivity. }
    split; [done |]. split; [done |]. split; [done |].
    by apply (three_zone_post_arr _ _ _ _ _ _ _ _ _ _ _ _ pre).
Qed.
Lemma IceVConvect_whole_layer eos reg p :
  shells n p → phase_wf IceV n p → lid_table IceV p = Some eos →
  reg = phase_regime CDS2001 IceV eos p →
  whole_layer_conduction IceV reg p →
  IceVConvect G CDS2001 Params p = Ok () (enter_zones IceV reg p).
Proof.
  intros Hn [HIIIb HSurf] Heos Hreg Hwlc. unfold IceVConvect.
  mpure. mget n. mpure. mget n. mpure. mpure. mpure. mget n. mget n. mpure. mget n.
  mpure. mstep ltac:(by apply (resolves_surfIceEOS _ eos p Heos)). mpure.
  unfold phase_regime, phase_thickness in Hreg. rewrite <- Hreg.
  do 6 mpure. mpure. mpure.
  match goal with
  | |- context [decide ?P] => change P with (whole_layer_conduction IceV reg p)
  end.
  rewrite decide_True by (by subst reg).
  reflexivity.
Qed.

Lemma IceVConvect_zones eosS eosC reg c d p :
  three_zone_entry CDS2001 IceV n eosS eosC reg c d p →
  three_zone_outcome G CDS2001 ClathrateLayers IceV Params n eosS eosC reg c d p.
Proof.
  intros (Hn & [HIIIb HSurf] & Heos & HeosC & Hreg & Hwlc & Hc & Hd & Htop & _).
  pose proof (next_index_gt_lt _ _ _ Hc) as Hcn.
  pose proof (next_index_gt_lt _ _ _ Hd) as Hdn.
  rewrite Hn in Hcn, Hdn.
  assert (c ≤ d)%Z as Hcd.
  { eapply next_index_gt_mono; [| exact Hc | exact Hd].
    unfold whole_layer_conduction, lid_threshold, TBL_threshold, phase_top in *.
    apply Rnot_le_lt in Hwlc. lra. }
  set (pre := enter_zones IceV reg p).
  assert (shells n pre) as Hnpre by (by apply shells_enter_zones).
  assert (resolves (surfIceEOS_at "V") eosS pre) as Hres
    by (by apply resolves_surfIceEOS).
  simpl in Htop.
  assert (resolves (iceEOS_at "V") eosC pre) as HresC
    by (by apply resolves_iceEOS).
  destruct (three_zones_ok G n (surfIceEOS_at "V") (iceEOS_at "V")
              (surfIceEOS_at "V") eosS eosC eosS
              (nIIIbottom (Steps p)) c d (nSurfIce (Steps p))
              (convectedTemperature_K reg) (Bulk p TbV_K) (attr p PbV_MPa)
              (sumZ (shell p MLayer_kg) 0 (nIIIbottom (Steps p))) pre
              Hnpre ltac:(lia) Hcd ltac:(lia) ltac:(lia) ltac:(lia) Hres HresC Hres
              _ eq_refl)
    as (p2 & p3 & m3 & p4 & m4 & p5 & p6 & p7 & m7 & Hr2 & Hr3 & Hr4 & Hr5 & Hr6 & Hr7
        & Hn4 & Henv4 & Hup & Hn7 & Henv7 & Hag & Hpost).
  exists p4, m4. split; [done |]. split; [done |].
  split; [by apply (upper_zones_post_arr _ _ _ _ _ _ _ _ _ pre) |].
  assert (IceVConvect G CDS2001 Params p
          = (Tlast ← getitem T_K (d - 1);
             TbIII ← bulk TbV_K;
             if decide (Tlast > TbIII) then @raise unit ValueError else
             PbIII ← scalar PbV_MPa;
             assign_TBL_T (range d (nSurfIce (Steps p) + 1)) TbIII PbIII (d - 1);;
             assign_TBL_props (surfIceEOS_at "V") (range d (nSurfIce (Steps p) + 1));;
             _ ← for_ (range d (nSurfIce (Steps p) + 1)) (increment_depth G) (Some m4);
             mret ()) p4) as Hrun.
  { unfold IceVConvect.
    mpure. mget n. mpure. mget n. mpure. mpure. mpure. mget n. mget n. mpure. mget n.
    mpure. mstep ltac:(by apply (resolves_surfIceEOS _ eosS p Heos)). mpure.
    unfold phase_regime, phase_thickness in Hreg. rewrite <- Hreg.
    do 6 mpure. mpure. mpure.
    match goal with
    | |- context [decide ?P] => change P with (whole_layer_conduction IceV reg p)
    end.
    rewrite decide_False by done.
    change (set_attr RaConvectV _ _) with pre. unfold IceVConvect_three_zone.
    mpure. change (Steps pre) with (Steps p).
    mgetH n Hnpre. mpure.
    mstep ltac:(apply next_z_gt_ok; exact Hc).
    mpure.
    mstep ltac:(apply next_z_gt_ok; exact Hd).
    mpure. change (Steps pre) with (Steps p).
    mgetH n Hnpre. mpure.
    rewrite (np_sum_getslice n) by (done || lia).
    mpure.
    mstep ltac:(apply (assign_lid_T_ok n); (done || lia)).
    mstep ltac:(exact Hr2). mstep ltac:(exact Hr3). mstep ltac:(exact Hr4).
    reflexivity. }
  cbn [IceConvect phase_Tb phase_bottom phase_Pb phase_top phase_mass_above].
  rewrite Hrun. clear Hrun.
  destruct (decide (shell p4 T_K (d - 1) > Bulk p TbV_K)) as [Hhot | Hcold].
  - left. split; [done |]. split; [done |].
    mget n. mpure.
    replace (Bulk p4 TbV_K) with (Bulk p TbV_K)
      by (destruct Henv4 as [-> _]; done).
    by rewrite decide_True.
  - right. split; [by right |]. exists p7.
    split.
    { mget n. mpure.
      replace (Bulk p4 TbV_K) with (Bulk p TbV_K)
        by (destruct Henv4 as [-> _]; done).
      rewrite decide_False by done.
      mpure.
      replace (attr p4 PbV_MPa) with (attr p PbV_MPa)
        by (destruct Henv4 as (_ & _ & _ & _ & ->); done).
      mstep ltac:(exact Hr5). mstep ltac:(exact Hr6). mstep ltac:(exact Hr7).
      reflexivity. }
    split; [done |]. split; [done |]. split; [done |].
    by apply (three_zone_post_arr _ _ _ _ _ _ _ _ _ _ _ _ pre).
Qed.

(** Ice I. *)
Lemma cap_clathrate_run reg q :
  attr q eLid_m = conductiveLidThickness_m reg →
  (if decide (attr q zClath_m > attr q eLid_m)
   then modify (set_Bulk clathMaxDepth_m (attr q eLid_m)) else mret ()) q
  = Ok () (cap_clathrate reg q).
Proof. intros ->. unfold cap_clathrate. by case_decide. Qed.

Lemma cap_clathrate_env reg q :
  Steps (cap_clathrate reg q) = Steps q ∧ Do (cap_clathrate reg q) = Do q
  ∧ Ocean (cap_clathrate reg q) = Ocean q ∧ attr (cap_clathrate reg q) = attr q
  ∧ arr (cap_clathrate reg q) = arr q
  ∧ ∀ x, x ≠ clathMaxDepth_m → Bulk (cap_clathrate reg q) x = Bulk q x.
Proof.
  unfold cap_clathrate. case_decide; repeat split; try done.
  intros x Hx. simpl. unfold insert, fn_insert. by rewrite decide_False.
Qed.

Lemma IceIConvect_prologue eos reg p :
  shells n p → phase_wf IceI n p → lid_table IceI p = Some eos →
  reg = phase_regime CDS2001 IceI eos p →
  IceIConvect G CDS2001 ClathrateLayers Params p
  = (eLid ← scalar eLid_m;
     dTBL ← scalar deltaTBL_m;
     if decide (phase_thickness IceI p <= eLid + dTBL) then
       T1 ← getitem T_K 1;
       Tsurf ← bulk Tsurf_K;
       Rm ← bulk R_m;
       r1 ← getitem r_m 1;
       kTop ← getitem kTherm_WmK 0;
       let qSurf_Wm2 := (T1 - Tsurf) / (Rm - r1) * kTop in
       modify (set_QfromMantle_W (qSurf_Wm2 * 4 * PI * Rm ^ 2))
     else
       IceIConvect_three_zone G ClathrateLayers Params (phase_thickness IceI p))
      (enter_zones IceI reg p).
Proof.
  intros Hn HIb Heos Hreg. unfold IceIConvect. simpl in HIb.
  mpure. mget n. mpure. mpure. mpure. mpure. mget n. mpure. mget n.
  mpure. mstep ltac:(by apply (resolves_surfIceEOS _ eos p Heos)). mpure.
  unfold phase_regime, phase_thickness in Hreg. rewrite <- Hreg.
  do 6 mpure. mpure. mpure.
  mstep ltac:(exact (cap_clathrate_run reg (store_regime IceI reg p) eq_refl)).
  reflexivity.
Qed.

Lemma enter_zones_IceI_attr reg p x :
  attr (enter_zones IceI reg p) x = attr (store_regime IceI reg p) x.
Proof.
  unfold enter_zones.
  destruct (cap_clathrate_env reg (store_regime IceI reg p)) as (_&_&_&H&_).
  by rewrite H.
Qed.

Lemma enter_zones_IceI_Bulk reg p x :
  x ≠ clathMaxDepth_m → Bulk (enter_zones IceI reg p) x = Bulk p x.
Proof.
  intros Hx. unfold enter_zones.
  destruct (cap_clathrate_env reg (store_regime IceI reg p)) as (_&_&_&_&_&H).
  by rewrite H.
Qed.

Lemma IceIConvect_whole_layer eos reg p :
  shells n p → phase_wf IceI n p → lid_table IceI p = Some eos →
  reg = phase_regime CDS2001 IceI eos p →
  whole_layer_conduction IceI reg p →
  IceIConvect G CDS2001 ClathrateLayers Params p
  = Ok () (set_QfromMantle_W (conductive_heat_flow p) (enter_zones IceI reg p)).
Proof.
  intros Hn HIb Heos Hreg Hwlc.
  rewrite (IceIConvect_prologue eos reg) by done. simpl in HIb.
  set (pre := enter_zones IceI reg p).
  assert (shells n pre) as Hnpre by (by apply shells_enter_zones).
  assert (∀ F j, shell pre F j = shell p F j) as Hsh
    by (intros; unfold shell, pre; by rewrite arr_enter_zones).
  mpure. mpure. subst pre. rewrite !enter_zones_IceI_attr.
  change (attr (store_regime IceI reg p) eLid_m) with (conductiveLidThickness_m reg).
  change (attr (store_regime IceI reg p) deltaTBL_m)
    with (bottomBoundaryLayerThickness_m reg).
  rewrite decide_True by done.
  mgetH n Hnpre. mpure. mpure. mgetH n Hnpre. mgetH n Hnpre.
  unfold modify, conductive_heat_flow.
  rewrite !Hsh, !enter_zones_IceI_Bulk by done. done.
Qed.

Lemma IceIConvect_lid_T_run c Ptop q :
  CLATHRATE (Do q) = false → shells n q → (0 ≤ c < Z.of_nat n)%Z →
  IceIConvect_lid_T ClathrateLayers Params c Ptop q
  = Ok (Some 0)
      (fill T_K 0 (c + 1)
         (λ j, power_law (attr q Tconv_K) (shell q T_K 0) Ptop (shell q P_MPa j)) q).
Proof.
  intros Hcl Hn Hc. unfold IceIConvect_lid_T.
  mpure. rewrite Hcl. mpure.
  mstep ltac:(apply (assign_lid_T_ok n); (done || lia)).
  reflexivity.
Qed.

Lemma IceIConvect_zones eosS reg c d p :
  three_zone_entry CDS2001 IceI n eosS eosS reg c d p →
  three_zone_outcome G CDS2001 ClathrateLayers IceI Params n eosS eosS reg c d p.
Proof.
  intros (Hn & HIb & Heos & _ & Hreg & Hwlc & Hc & Hd & Htop & Hclath).
  destruct (Hclath eq_refl) as [HnCl Hcl]. clear Hclath.
  pose proof (next_index_gt_lt _ _ _ Hc) as Hcn.
  pose proof (next_index_gt_lt _ _ _ Hd) as Hdn.
  rewrite Hn in Hcn, Hdn.
  assert (c ≤ d)%Z as Hcd.
  { eapply next_index_gt_mono; [| exact Hc | exact Hd].
    unfold whole_layer_conduction, lid_threshold, TBL_threshold, phase_top in *.
    apply Rnot_le_lt in Hwlc. lra. }
  set (pre := enter_zones IceI reg p).
  assert (shells n pre) as Hnpre by (by apply shells_enter_zones).
  assert (arr pre = arr p) as Harr by apply arr_enter_zones.
  assert (surfIceEOS (Ocean pre) = surfIceEOS (Ocean p)
          ∧ Steps pre = Steps p ∧ Do pre = Do p) as (HO & HS & HD).
  { subst pre. unfold enter_zones.
    destruct (cap_clathrate_env reg (store_regime IceI reg p)) as (H1&H2&H3&_).
    by rewrite H1, H2, H3. }
  assert (resolves (surfIceEOS_at "Ih") eosS pre) as Hres
    by (apply resolves_surfIceEOS; by rewrite HO).
  simpl in Htop, HIb.
  destruct (three_zones_ok G n (surfIceEOS_at "Ih") (surfIceEOS_at "Ih")
              (surfIceEOS_at "Ih") eosS eosS eosS
              0 c d (nIbottom (Steps p))
              (convectedTemperature_K reg) (Bulk p Tb_K) (attr p PbI_MPa)
              0 pre
              Hnpre ltac:(lia) Hcd ltac:(lia) ltac:(lia) ltac:(lia) Hres Hres Hres
              _ eq_refl)
    as (p2 & p3 & m3 & p4 & m4 & p5 & p6 & p7 & m7 & Hr2 & Hr3 & Hr4 & Hr5 & Hr6 & Hr7
        & Hn4 & Henv4 & Hup & Hn7 & Henv7 & Hag & Hpost).
  exists p4, m4. split; [done |]. split; [done |].
  split.
  { apply (upper_zones_post_arr _ _ _ _ _ _ _ _ _ pre); [done |].
    replace (shell p P_MPa c) with (shell pre P_MPa c); [done |].
    unfold shell. by rewrite Harr. }
  right. split; [by left |]. exists p7.
  split.
  { cbn [IceConvect]. rewrite (IceIConvect_prologue eosS reg) by done.
    mpure. mpure. rewrite !enter_zones_IceI_attr.
    change (attr (store_regime IceI reg p) eLid_m) with (conductiveLidThickness_m reg).
    change (attr (store_regime IceI reg p) deltaTBL_m)
      with (bottomBoundaryLayerThickness_m reg).
    rewrite decide_False by done.
    unfold IceIConvect_three_zone.
    mpure. rewrite enter_zones_IceI_attr.
    change (attr (store_regime IceI reg p) eLid_m) with (conductiveLidThickness_m reg).
    mstep ltac:(apply next_z_gt_ok; fold pre; rewrite Harr; exact Hc).
    mpure. rewrite enter_zones_IceI_attr.
    change (attr (store_regime IceI reg p) deltaTBL_m)
      with (bottomBoundaryLayerThickness_m reg).
    mstep ltac:(apply next_z_gt_ok; fold pre; rewrite Harr; exact Hd).
    mpure. mpure. fold pre. rewrite HS.
    rewrite decide_False by lia.
    mgetH n Hnpre.
    mstep ltac:(apply IceIConvect_lid_T_run; [by rewrite HD | done | lia]).
    unfold pre at 1. rewrite enter_zones_IceI_attr. fold pre.
    change (attr (store_regime IceI reg p) Tconv_K) with (convectedTemperature_K reg).
    mstep ltac:(exact Hr2). mstep ltac:(exact Hr3).
    replace (c + (d - c))%Z with d by lia.
    mstep ltac:(exact Hr4).
    mpure. mpure.
    replace (Bulk p4 Tb_K) with (Bulk p Tb_K).
    2:{ destruct Henv4 as [-> _]. symmetry. by apply enter_zones_IceI_Bulk. }
    replace (attr p4 PbI_MPa) with (attr p PbI_MPa).
    2:{ destruct Henv4 as (_ & _ & _ & _ & ->). unfold pre. by rewrite enter_zones_IceI_attr. }
    mstep ltac:(exact Hr5). mstep ltac:(exact Hr6). mstep ltac:(exact Hr7).
    reflexivity. }
  split; [done |]. split; [done |]. split; [done |].
  by apply (three_zone_post_arr _ _ _ _ _ _ _ _ _ _ _ _ pre).
Qed.

(** All three at once. *)
Lemma IceConvect_zones ph eosS eosC reg c d p :
  three_zone_entry CDS2001 ph n eosS eosC reg c d p →
  three_zone_outcome G CDS2001 ClathrateLayers ph Params n eosS eosC reg c d p.
Proof.
  destruct ph.
  - intros H. assert (eosC = eosS) as ->.
    { destruct H as (_ & _ & H1 & H2 & _). unfold lid_table, convect_table in *.
      congruence. }
    by apply IceIConvect_zones.
  - intros H. assert (eosC = eosS) as ->.
    { destruct H as (_ & _ & H1 & H2 & _). unfold lid_table, convect_table in *.
      congruence. }
    by apply IceIIIConvect_zones.
  - apply IceVConvect_zones.
Qed.
End Phases.

(** ** Ice I with clathrates switched on *)

Section Clathrate.
Variable G : R.
Variable CDS2001 : Classifier.
Variable n : nat.
Variable Params : ParamsStruct.

(** What is left of [IceIConvect] once both transition shells are found. *)
Lemma IceIConvect_to_guard ClathrateLayers eosS reg c d p :
  shells n p → phase_wf IceI n p → lid_table IceI p = Some eosS →
  reg = phase_regime CDS2001 IceI eosS p →
  ¬ whole_layer_conduction IceI reg p →
  next_index_gt (arr p z_m) (lid_threshold IceI reg p) = Some c →
  next_index_gt (arr p z_m) (TBL_threshold IceI reg p) = Some d →
  IceIConvect G CDS2001 ClathrateLayers Params p
  = (if decide (nClath (Steps p) > c)%Z then @raise unit ValueError else
     PconvTop_MPa ← getitem P_MPa c;
     thisMAbove_kg ← IceIConvect_lid_T ClathrateLayers Params c PconvTop_MPa;
     assign_lid_props (surfIceEOS_at "Ih") 0 c;;
     thisMAbove_kg ← for_ (range 1 c) (increment_depth G) thisMAbove_kg;
     thisMAbove_kg ← for_ (range c d) (convect_step G (surfIceEOS_at "Ih")) thisMAbove_kg;
     Tb ← bulk Tb_K;
     PbI ← scalar PbI_MPa;
     assign_TBL_T (range d (nIbottom (Steps p) + 1)) Tb PbI (d - 1);;
     assign_TBL_props (surfIceEOS_at "Ih") (range d (nIbottom (Steps p) + 1));;
     _ ← for_ (range d (nIbottom (Steps p) + 1)) (increment_depth G) thisMAbove_kg;
     mret ()) (enter_zones IceI reg p).
Proof.
  intros Hn HIb Heos Hreg Hwlc Hc Hd.
  rewrite (IceIConvect_prologue G CDS2001 ClathrateLayers n Params eosS reg) by done.
  assert (arr (enter_zones IceI reg p) = arr p) as Harr by apply arr_enter_zones.
  assert (Steps (enter_zones IceI reg p) = Steps p) as HS.
  { unfold enter_zones.
    destruct (cap_clathrate_env reg (store_regime IceI reg p)) as (H1 & _).
    by rewrite H1. }
  mpure. mpure. rewrite !enter_zones_IceI_attr.
  change (attr (store_regime IceI reg p) eLid_m) with (conductiveLidThickness_m reg).
  change (attr (store_regime IceI reg p) deltaTBL_m)
    with (bottomBoundaryLayerThickness_m reg).
  rewrite decide_False by done.
  unfold IceIConvect_three_zone.
  mpure. rewrite enter_zones_IceI_attr.
  change (attr (store_regime IceI reg p) eLid_m) with (conductiveLidThickness_m reg).
  mstep ltac:(apply next_z_gt_ok; rewrite Harr; exact Hc).
  mpure. rewrite enter_zones_IceI_attr.
  change (attr (store_regime IceI reg p) deltaTBL_m)
    with (bottomBoundaryLayerThickness_m reg).
  mstep ltac:(apply next_z_gt_ok; rewrite Harr; exact Hd).
  mpure. mpure. rewrite HS.
  replace (c + (d - c))%Z with d by lia.
  reflexivity.
Qed.

(** The guard on the number of clathrate layers comes first. *)
Lemma IceIConvect_clathrate_guard ClathrateLayers eosS reg c d p :
  shells n p → phase_wf IceI n p → lid_table IceI p = Some eosS →
  reg = phase_regime CDS2001 IceI eosS p →
  ¬ whole_layer_conduction IceI reg p →
  next_index_gt (arr p z_m) (lid_threshold IceI reg p) = Some c →
  next_index_gt (arr p z_m) (TBL_threshold IceI reg p) = Some d →
  (nClath (Steps p) > c)%Z →
  IceIConvect G CDS2001 ClathrateLayers Params p
  = Raise ValueError (enter_zones IceI reg p).
Proof.
  intros Hn HIb Heos Hreg Hwlc Hc Hd Hcl.
  rewrite (IceIConvect_to_guard ClathrateLayers eosS reg c d) by done.
  by rewrite decide_True.
Qed.

Lemma bind_Ok_Raise_ex {A B} (m : M A) (k : A → M B) p a p' e :
  m p = Ok a p' → (∃ q, k a p' = Raise e q) → ∃ q, (m ≫= k) p = Raise e q.
Proof. intros Hm [q Hq]. exists q. by rewrite (bind_Ok _ _ _ _ _ Hm). Qed.

(** The depth block with the running mass still unbound. *)
Lemma increment_depth_unbound i q :
  shells n q → (1 ≤ i < Z.of_nat n)%Z →
  ∃ q', increment_depth G i None q = Raise NameError q'.
Proof.
  intros Hn Hi. unfold increment_depth. eexists.
  mget n. mget n. mget n. mget n. mget n. mset n. mpure. mget n. mset n.
  mget n. mget n. mget n. mset n.
  reflexivity.
Qed.

Lemma for_increment_depth_unbound a b q :
  shells n q → (1 ≤ a < b)%Z → (a < Z.of_nat n)%Z →
  ∃ q', for_ (range a b) (increment_depth G) None q = Raise NameError q'.
Proof.
  intros Hn Hab Ha. rewrite range_cons by lia. simpl.
  destruct (increment_depth_unbound a q Hn) as [q' Hq']; [lia |].
  exists q'. by apply bind_Raise.
Qed.

Lemma for_convect_step_unbound eosref a b q :
  shells n q → (1 ≤ a < b)%Z → (a < Z.of_nat n)%Z →
  ∃ q', for_ (range a b) (convect_step G eosref) None q = Raise NameError q'.
Proof.
  intros Hn Hab Ha. rewrite range_cons by lia. simpl.
  destruct (increment_depth_unbound a q Hn) as [q' Hq']; [lia |].
  exists q'. apply bind_Raise. unfold convect_step. by apply bind_Raise.
Qed.

(** Past the guard with clathrates on: the call of the unbound name, or,
    were the name bound, the first use of the unbound running mass. *)
Lemma IceIConvect_clathrate_NameError ClathrateLayers eosS reg c d p :
  shells n p → phase_wf IceI n p → lid_table IceI p = Some eosS →
  reg = phase_regime CDS2001 IceI eosS p →
  ¬ whole_layer_conduction IceI reg p →
  next_index_gt (arr p z_m) (lid_threshold IceI reg p) = Some c →
  next_index_gt (arr p z_m) (TBL_threshold IceI reg p) = Some d →
  (nClath (Steps p) ≤ c)%Z → CLATHRATE (Do p) = true →
  match ClathrateLayers with
  | None =>
      IceIConvect G CDS2001 ClathrateLayers Params p
      = Raise NameError (enter_zones IceI reg p)
  | Some f =>
      ∀ q eos',
        f Params (enter_zones IceI reg p) = Ok () q →
        shells n q → surfIceEOS (Ocean q) "Ih" = Some eos' →
        (0 < c)%Z → (1 < c ∨ c < d ∨ d ≤ nIbottom (Steps p))%Z →
        ∃ q', IceIConvect G CDS2001 ClathrateLayers Params p = Raise NameError q'
  end.
Proof.
  intros Hn HIb Heos Hreg Hwlc Hc Hd HnCl Hcl.
  pose proof (next_index_gt_lt _ _ _ Hc) as Hcn.
  pose proof (next_index_gt_lt _ _ _ Hd) as Hdn.
  rewrite Hn in Hcn, Hdn.
  assert (c ≤ d)%Z as Hcd.
  { eapply next_index_gt_mono; [| exact Hc | exact Hd].
    unfold whole_layer_conduction, lid_threshold, TBL_threshold, phase_top in *.
    apply Rnot_le_lt in Hwlc. lra. }
  set (pre := enter_zones IceI reg p).
  assert (shells n pre) as Hnpre by (by apply shells_enter_zones).
  assert (Do pre = Do p) as HD.
  { unfold pre, enter_zones.
    destruct (cap_clathrate_env reg (store_regime IceI reg p)) as (_ & H2 & _).
    by rewrite H2. }
  simpl in HIb.
  destruct ClathrateLayers as [f |].
  - intros q eos' Hf Hnq Heos' Hc0 Hloop.
    rewrite (IceIConvect_to_guard (Some f) eosS reg c d) by done.
    rewrite decide_False by lia. fold pre.
    assert (∃ q', (thisMAbove_kg ← for_ (range 1 c) (increment_depth G) None;
                   thisMAbove_kg ← for_ (range c d)
                                     (convect_step G (surfIceEOS_at "Ih")) thisMAbove_kg;
                   Tb ← bulk Tb_K;
                   PbI ← scalar PbI_MPa;
                   assign_TBL_T (range d (nIbottom (Steps p) + 1)) Tb PbI (d - 1);;
                   assign_TBL_props (surfIceEOS_at "Ih")
                     (range d (nIbottom (Steps p) + 1));;
                   _ ← for_ (range d (nIbottom (Steps p) + 1)) (increment_depth G)
                         thisMAbove_kg;
                   mret ()) (fill_props eos' 0 (c + 1) q) = Raise NameError q')
      as [q' Hq'].
    { set (q2 := fill_props eos' 0 (c + 1) q).
      assert (shells n q2) as Hn2 by (by apply shells_fill_props).
      destruct (decide (1 < c)%Z) as [H1c | H1c].
      { destruct (for_increment_depth_unbound 1 c q2 Hn2) as [q' Hq']; [lia | lia |].
        exists q'. by apply bind_Raise. }
      rewrite (range_nil 1 c) by lia. simpl.
      eapply bind_Ok_Raise_ex; [reflexivity | cbv beta].
      destruct (decide (c < d)%Z) as [Hlt | Hge].
      { destruct (for_convect_step_unbound (surfIceEOS_at "Ih") c d q2 Hn2)
          as [q' Hq']; [lia | lia |].
        exists q'. by apply bind_Raise. }
      rewrite (range_nil c d) by lia. simpl.
      eapply bind_Ok_Raise_ex; [reflexivity | cbv beta].
      eapply bind_Ok_Raise_ex; [reflexivity | cbv beta].
      eapply bind_Ok_Raise_ex; [reflexivity | cbv beta].
      eapply bind_Ok_Raise_ex;
        [apply (assign_TBL_T_ok n); (done || lia) | cbv beta].
      eapply bind_Ok_Raise_ex;
        [apply (assign_TBL_props_ok n _ eos');
         [eauto with shells | lia | lia | by apply resolves_surfIceEOS] | cbv beta].
      match goal with
      | |- ∃ _, (_ ≫= _) ?q3 = _ =>
          destruct (for_increment_depth_unbound d (nIbottom (Steps p) + 1) q3)
            as [q' Hq']; [by apply shells_fill_props; eauto with shells | lia | lia |]
      end.
      exists q'. by apply bind_Raise. }
    exists q'.
    mgetH n Hnpre.
    mstep ltac:(unfold IceIConvect_lid_T;
                mpure; rewrite HD, Hcl;
                mstep ltac:(exact Hf); reflexivity).
    mstep ltac:(apply (assign_lid_props_ok n _ eos');
                [done | lia | lia | lia | by apply resolves_surfIceEOS]).
    exact Hq'.
  - rewrite (IceIConvect_to_guard None eosS reg c d) by done.
    rewrite decide_False by lia. fold pre.
    mgetH n Hnpre. apply bind_Raise.
    unfold IceIConvect_lid_T.
    mpure. by rewrite HD, Hcl.
Qed.
End Clathrate.

(** * The specification's claims *)

Section Claims.
Variable G : R.
Variable CDS2001 : Classifier.
Variable ClathrateLayers : option (ParamsStruct → M unit).
Variable Params : ParamsStruct.

Lemma IceConvect_whole_layer ph n eos reg p :
  shells n p → phase_wf ph n p → lid_table ph p = Some eos →
  reg = phase_regime CDS2001 ph eos p →
  whole_layer_conduction ph reg p →
  IceConvect G CDS2001 ClathrateLayers ph Params p
  = Ok () (whole_layer_result ph reg p).
Proof.
  destruct ph; simpl.
  - apply IceIConvect_whole_layer.
  - apply IceIIIConvect_whole_layer.
  - apply IceVConvect_whole_layer.
Qed.

Lemma arr_whole_layer_result ph reg p : arr (whole_layer_result ph reg p) = arr p.
Proof. destruct ph; simpl; try done. unfold cap_clathrate. by case_decide. Qed.

(** A completed three-zone call went through every zone. *)
Lemma three_zone_completed ph n eosS eosC reg c d p p' :
  three_zone_entry CDS2001 ph n eosS eosC reg c d p →
  IceConvect G CDS2001 ClathrateLayers ph Params p = Ok () p' →
  shells n p' ∧ same_env (enter_zones ph reg p) p'
  ∧ (c ≤ d)%Z ∧ (0 ≤ phase_top ph p < c)%Z ∧ (d < Z.of_nat n)%Z
  ∧ (phase_bottom ph p < Z.of_nat n)%Z
  ∧ three_zone_post G eosS eosC eosS (phase_top ph p) c d (phase_bottom ph p)
      (convectedTemperature_K reg) (phase_Tb ph p) (phase_Pb ph p)
      (phase_mass_above ph p) p p'.
Proof.
  intros Hentry Hrun.
  pose proof Hentry as (Hn & Hwf & _ & _ & _ & Hwlc & Hc & Hd & Htop & _).
  pose proof (next_index_gt_lt _ _ _ Hc) as Hcn.
  pose proof (next_index_gt_lt _ _ _ Hd) as Hdn.
  rewrite Hn in Hcn, Hdn.
  assert (c ≤ d)%Z as Hcd.
  { eapply next_index_gt_mono; [| exact Hc | exact Hd].
    unfold whole_layer_conduction in Hwlc. apply Rnot_le_lt in Hwlc.
    destruct ph; unfold lid_threshold, TBL_threshold, phase_top; lra. }
  assert (0 ≤ phase_top ph p)%Z as Htop0 by (destruct ph; simpl in *; lia).
  assert (phase_bottom ph p < Z.of_nat n)%Z as Hbot by (destruct ph; simpl in *; lia).
  destruct (IceConvect_zones G CDS2001 ClathrateLayers n Params ph eosS eosC reg c d p Hentry)
    as (p4 & m4 & _ & _ & _ & [(_ & _ & Hraise) | (_ & p'' & Hok & Hn' & Henv & _ & Hpost)]).
  - rewrite Hrun in Hraise. discriminate.
  - rewrite Hrun in Hok. injection Hok as <-.
    split; [done |]. split; [done |]. split; [done |]. split; [lia |].
    split; [lia |]. split; done.
Qed.

(** Short of the fatal error, a three-zone call returns, and has then gone
    through every zone. *)
Lemma three_zone_returns ph n eosS eosC reg c d p :
  three_zone_entry CDS2001 ph n eosS eosC reg c d p →
  no_fatal_error (IceConvect G CDS2001 ClathrateLayers ph Params) p →
  ∃ p', IceConvect G CDS2001 ClathrateLayers ph Params p = Ok () p'
      ∧ same_env (enter_zones ph reg p) p'
      ∧ (c ≤ d)%Z ∧ (0 ≤ phase_top ph p < c)%Z ∧ (d < Z.of_nat n)%Z
      ∧ (phase_bottom ph p < Z.of_nat n)%Z
      ∧ three_zone_post G eosS eosC eosS (phase_top ph p) c d (phase_bottom ph p)
          (convectedTemperature_K reg) (phase_Tb ph p) (phase_Pb ph p)
          (phase_mass_above ph p) p p'.
Proof.
  intros entry Hfatal.
  destruct (IceConvect_zones G CDS2001 ClathrateLayers n Params ph eosS eosC reg c d p entry)
    as (p4 & m4 & _ & _ & _ & [(_ & _ & Hraise) | (_ & p' & Hok & _)]).
  - by destruct (Hfatal p4).
  - exists p'. split; [done |].
    by destruct (three_zone_completed _ _ _ _ _ _ _ _ _ entry Hok) as (_ & ?).
Qed.

(** C5 (regime fallback): whichever the phase, when the classifier's lid
    and boundary-layer thicknesses add up to at least the layer thickness,
    the call succeeds and the temperature array is exactly what it was,
    over the whole stack and so over the phase's shells. *)
Theorem C5_regime_fallback_keeps_temperature ph n eos reg p :
  shells n p → phase_wf ph n p → lid_table ph p = Some eos →
  reg = phase_regime CDS2001 ph eos p →
  whole_layer_conduction ph reg p →
  ∃ p', IceConvect G CDS2001 ClathrateLayers ph Params p = Ok () p'
      ∧ arr p' T_K = arr p T_K
      ∧ ∀ i, (phase_top ph p ≤ i ≤ phase_bottom ph p)%Z →
             shell p' T_K i = shell p T_K i.
Proof.
  intros Hn Hwf Heos Hreg Hwlc. exists (whole_layer_result ph reg p).
  split; [by eapply IceConvect_whole_layer |].
  split; [by rewrite arr_whole_layer_result |].
  intros i _. unfold shell. by rewrite arr_whole_layer_result.
Qed.

(** What the whole-layer-conduction branch does to the heat flow: every
    phase leaves all per-shell arrays as they were; ice I then stores the
    heat flow of the temperature gradient between the first two shells,
    (T[1] - Tsurf)·kTherm[0]/(R - r[1]) · 4·pi·R² (lines 41-43), while
    ice III and ice V have no such lines and return with
    [QfromMantle_W] at the classifier's heat flow. *)
Lemma whole_layer_heat_flow ph n eos reg p :
  shells n p → phase_wf ph n p → lid_table ph p = Some eos →
  reg = phase_regime CDS2001 ph eos p →
  whole_layer_conduction ph reg p →
  ∃ p', IceConvect G CDS2001 ClathrateLayers ph Params p = Ok () p'
      ∧ arr p' = arr p
      ∧ QfromMantle_W (Ocean p')
        = match ph with
          | IceI =>
              (shell p T_K 1 - Bulk p Tsurf_K) * shell p kTherm_WmK 0
              / (Bulk p R_m - shell p r_m 1) * (4 * PI * Bulk p R_m ^ 2)
          | _ => heatFlowFromBelow_W reg
          end.
Proof.
  intros Hn Hwf Heos Hreg Hwlc. exists (whole_layer_result ph reg p).
  split; [by eapply IceConvect_whole_layer |].
  split; [by rewrite arr_whole_layer_result |].
  destruct ph; simpl; [| done ..].
  unfold conductive_heat_flow, Rdiv. ring.
Qed.

(** The two zone transitions of a three-zone call that returns: the
    first convecting shell holds the adiabatic step from the last lid
    shell, T[c] = T[c-1] + T[c-1]·alpha[c-1]/(Cp[c-1]·rho[c-1])·(P[c] -
    P[c-1])·1e6, written by the convecting loop over what the lid's
    slice had put there; the first boundary-layer shell holds the power
    law Tb^(P[d]/Pb) · Tlast^(1 - P[d]/Pb) anchored at the convecting
    zone's last temperature Tlast = T[d-1]. *)
Lemma zone_transitions ph n eosS eosC reg c d p :
  three_zone_entry CDS2001 ph n eosS eosC reg c d p →
  no_fatal_error (IceConvect G CDS2001 ClathrateLayers ph Params) p →
  ∃ p',
    IceConvect G CDS2001 ClathrateLayers ph Params p = Ok () p'
    ∧ ((c < d)%Z →
         shell p' T_K c
         = shell p' T_K (c - 1)
           + shell p' T_K (c - 1) * shell p' alpha_pK (c - 1)
             / (shell p' Cp_JkgK (c - 1) * shell p' rho_kgm3 (c - 1))
             * (shell p' P_MPa c - shell p' P_MPa (c - 1)) * 1e6)
    ∧ ((d ≤ phase_bottom ph p)%Z →
         shell p' T_K d
         = phase_Tb ph p ** (shell p' P_MPa d / phase_Pb ph p)
           * shell p' T_K (d - 1) ** (1 - shell p' P_MPa d / phase_Pb ph p)).
Proof.
  intros entry run.
  destruct (three_zone_returns _ _ _ _ _ _ _ _ entry run)
    as (p' & Hrun & Henv & Hcd & Htop & Hdn & Hbot & Hpost).
  destruct Hpost as [TP TH TLT TLP TCT TCP TTT TTP TTOP TF].
  exists p'. split; [exact Hrun |].
  split.
  - intros Hlt. rewrite (TCT c) by lia. unfold Rdiv. rewrite Rinv_mult. ring.
  - intros Hle. rewrite (TTT d) by lia. unfold power_law.
    by rewrite (shell_of_arr_eq P_MPa p p').
Qed.

(** C4: short of the fatal error a three-zone call returns, and in the
    finished profile every lid shell carries the properties of
    [Ocean.surfIceEOS[key]] of the phase, every convecting shell those of
    the convecting zone's table, and every boundary-layer shell but the
    last those of [Ocean.surfIceEOS[key]] again; for ice V the lid and
    the boundary layer read [Ocean.surfIceEOS['V']] and the convecting
    interior reads [Ocean.iceEOS['V']]. *)
Theorem C4_zone_tables ph n eosS eosC reg c d p :
  three_zone_entry CDS2001 ph n eosS eosC reg c d p →
  no_fatal_error (IceConvect G CDS2001 ClathrateLayers ph Params) p →
  ∃ p',
    IceConvect G CDS2001 ClathrateLayers ph Params p = Ok () p'
    ∧ (∀ i, (phase_top ph p ≤ i < c)%Z → PropsEq eosS p' i)
    ∧ (∀ i, (c ≤ i < d)%Z → PropsEq eosC p' i)
    ∧ (∀ i, (d ≤ i < phase_bottom ph p)%Z → PropsEq eosS p' i)
    ∧ surfIceEOS (Ocean p) (phase_key ph) = Some eosS
    ∧ (ph = IceV → iceEOS (Ocean p) "V" = Some eosC)
    ∧ (ph ≠ IceV → surfIceEOS (Ocean p) (phase_key ph) = Some eosC).
Proof.
  intros entry run.
  destruct (three_zone_returns _ _ _ _ _ _ _ _ entry run)
    as (p' & Hrun & Henv & Hcd & Htop & Hdn & Hbot & Hpost).
  destruct Hpost as [TP TH TLT TLP TCT TCP TTT TTP TTOP TF].
  exists p'. split; [exact Hrun |].
  destruct entry as (_ & _ & HS & HC & _).
  split; [done |]. split; [done |]. split; [done |]. split; [exact HS |].
  split.
  - intros ->. exact HC.
  - intros Hne. destruct ph; [exact HC | exact HC | done].
Qed.

(** C6: short of the fatal error a three-zone call returns, and then
    every shell i of the convecting interior holds T[i] = T[i-1] +
    T[i-1]·alpha[i-1]/(Cp[i-1]·rho[i-1])·(P[i] - P[i-1])·1e6 with the
    previous shell's properties, its density, heat capacity, expansivity
    and conductivity are those of the zone's table at (P[i], T[i]), and
    its depth is z[i] = z[i-1] + (P[i] - P[i-1])·1e6/(g[i-1]·rho[i-1]). *)
Theorem C6_convecting_interior ph n eosS eosC reg c d p :
  three_zone_entry CDS2001 ph n eosS eosC reg c d p →
  no_fatal_error (IceConvect G CDS2001 ClathrateLayers ph Params) p →
  ∃ p',
    IceConvect G CDS2001 ClathrateLayers ph Params p = Ok () p'
    ∧ ∀ i, (c ≤ i < d)%Z →
        shell p' T_K i
        = shell p' T_K (i - 1)
          + shell p' T_K (i - 1) * shell p' alpha_pK (i - 1)
            / (shell p' Cp_JkgK (i - 1) * shell p' rho_kgm3 (i - 1))
            * (shell p' P_MPa i - shell p' P_MPa (i - 1)) * 1e6
        ∧ PropsEq eosC p' i
        ∧ shell p' z_m i
          = shell p' z_m (i - 1)
            + (shell p' P_MPa i - shell p' P_MPa (i - 1)) * 1e6
              / (shell p' g_ms2 (i - 1) * shell p' rho_kgm3 (i - 1)).
Proof.
  intros entry run.
  destruct (three_zone_returns _ _ _ _ _ _ _ _ entry run)
    as (p' & Hrun & Henv & Hcd & Htop & Hdn & Hbot & Hpost).
  destruct Hpost as [TP TH TLT TLP TCT TCP TTT TTP TTOP TF].
  exists p'. split; [exact Hrun |].
  intros i Hi. split; [| split].
  - rewrite (TCT i) by lia. unfold Rdiv. rewrite Rinv_mult. ring.
  - by apply TCP.
  - destruct (TH i) as (Hz & _); [lia | lia |].
    rewrite Hz. unfold Rdiv. rewrite Rinv_mult. ring.
Qed.

(** C7: short of the fatal error a three-zone call returns, and then:
    pressures are untouched; every lid shell holds the power law
    Tconv^(P[i]/PconvTop) · Ttop^(1 - P[i]/PconvTop), PconvTop being the
    pressure at the lid's base [c] and Ttop the temperature the top shell
    had on entry; every boundary-layer shell holds
    Tb^(P[i]/Pb) · Tlast^(1 - P[i]/Pb), Tlast being the temperature of
    the shell just above the boundary layer. *)
Theorem C7_power_law_profiles ph n eosS eosC reg c d p :
  three_zone_entry CDS2001 ph n eosS eosC reg c d p →
  no_fatal_error (IceConvect G CDS2001 ClathrateLayers ph Params) p →
  ∃ p',
    IceConvect G CDS2001 ClathrateLayers ph Params p = Ok () p'
    ∧ arr p' P_MPa = arr p P_MPa
    ∧ (∀ i, (phase_top ph p ≤ i < c)%Z →
         shell p' T_K i
         = convectedTemperature_K reg ** (shell p P_MPa i / shell p P_MPa c)
           * shell p T_K (phase_top ph p) ** (1 - shell p P_MPa i / shell p P_MPa c))
    ∧ (∀ i, (d ≤ i ≤ phase_bottom ph p)%Z →
         shell p' T_K i
         = phase_Tb ph p ** (shell p P_MPa i / phase_Pb ph p)
           * shell p' T_K (d - 1) ** (1 - shell p P_MPa i / phase_Pb ph p)).
Proof.
  intros entry run.
  destruct (three_zone_returns _ _ _ _ _ _ _ _ entry run)
    as (p' & Hrun & Henv & Hcd & Htop & Hdn & Hbot & Hpost).
  destruct Hpost as [TP TH TLT TLP TCT TCP TTT TTP TTOP TF].
  exists p'. split; [exact Hrun |].
  split; [done |]. split.
  - intros i Hi. by rewrite TLT.
  - intros i Hi. by rewrite TTT.
Qed.

Lemma Bulk_enter_zones ph reg p x :
  x ≠ clathMaxDepth_m → Bulk (enter_zones ph reg p) x = Bulk p x.
Proof.
  intros Hx. destruct ph; simpl; [| done ..].
  unfold cap_clathrate. case_decide; [| done].
  simpl. unfold insert, fn_insert. by rewrite decide_False.
Qed.

(** C8: short of the fatal error a three-zone call returns, and then
    at every shell i the integration updates, with massAbove(i) the
    sum of the layer masses MLayer_kg[j] of all shells j above i and
    massBelow(i) = bodyMass_kg - massAbove(i), the two add up to the body
    mass and the gravity stored there is G·massBelow(i)/r[i]². *)
Theorem C8_mass_and_gravity ph n eosS eosC reg c d p :
  three_zone_entry CDS2001 ph n eosS eosC reg c d p →
  no_fatal_error (IceConvect G CDS2001 ClathrateLayers ph Params) p →
  ∃ p',
    IceConvect G CDS2001 ClathrateLayers ph Params p = Ok () p'
    ∧ Bulk p' M_kg = Bulk p M_kg
    ∧ ∀ i, (phase_top ph p < i ≤ last_updated ph d p)%Z →
        let massAbove := sumZ (shell p' MLayer_kg) 0 i in
        let massBelow := Bulk p' M_kg - massAbove in
        massAbove + massBelow = Bulk p' M_kg
        ∧ shell p' g_ms2 i = G * massBelow / shell p' r_m i ^ 2.
Proof.
  intros entry run.
  destruct (three_zone_returns _ _ _ _ _ _ _ _ entry run)
    as (p' & Hrun & Henv & Hcd & Htop & Hdn & Hbot & Hpost).
  destruct Hpost as [TP TH TLT TLP TCT TCP TTT TTP TTOP TF].
  exists p'. split; [exact Hrun |].
  split.
  { destruct Henv as [-> _]. by apply Bulk_enter_zones. }
  intros i Hi massAbove massBelow. split; [unfold massBelow; lra |].
  unfold last_updated in Hi.
  destruct (TH i) as (_ & _ & _ & Hg); [lia | lia |].
  rewrite Hg. unfold massBelow, massAbove. do 3 f_equal.
  rewrite (sumZ_split _ 0 (phase_top ph p) i) by lia.
  replace i with (i - 1 + 1)%Z at 3 by lia.
  rewrite (sumZ_snoc _ (phase_top ph p) (i - 1)) by lia.
  assert (phase_mass_above ph p = sumZ (shell p' MLayer_kg) 0 (phase_top ph p)) as ->;
    [| lra].
  assert (sumZ (shell p MLayer_kg) 0 (phase_top ph p)
          = sumZ (shell p' MLayer_kg) 0 (phase_top ph p)) as Hsum.
  { apply sumZ_ext. intros j Hj. symmetry. apply TF; lia. }
  destruct ph; simpl in *; [by rewrite sumZ_nil by lia | done | done].
Qed.

(** C9: short of the fatal error a three-zone call returns, and the
    pressure array is never modified; when moreover the pressures of the
    phase increase strictly with the index and every previous-shell
    gravity and density met is positive, then over the updated shells
    depth increases strictly, r[i] = R - z[i], radius decreases strictly
    (for the pair made with the untouched top shell: when that shell's
    radius was R - z on entry) and pressure does not decrease. *)
Theorem C9_monotone_profile ph n eosS eosC reg c d p :
  three_zone_entry CDS2001 ph n eosS eosC reg c d p →
  no_fatal_error (IceConvect G CDS2001 ClathrateLayers ph Params) p →
  ∃ p', IceConvect G CDS2001 ClathrateLayers ph Params p = Ok () p'
    ∧ arr p' P_MPa = arr p P_MPa
    ∧ ((∀ i, (phase_top ph p < i ≤ last_updated ph d p)%Z →
             shell p P_MPa (i - 1) < shell p P_MPa i) →
       (∀ i, (phase_top ph p < i ≤ last_updated ph d p)%Z →
             0 < shell p' g_ms2 (i - 1) ∧ 0 < shell p' rho_kgm3 (i - 1)) →
       ∀ i, (phase_top ph p < i ≤ last_updated ph d p)%Z →
         shell p' z_m (i - 1) < shell p' z_m i
         ∧ shell p' r_m i = Bulk p R_m - shell p' z_m i
         ∧ ((phase_top ph p < i - 1)%Z
            ∨ shell p r_m (phase_top ph p) = Bulk p R_m - shell p z_m (phase_top ph p) →
            shell p' r_m (i - 1) > shell p' r_m i)
         ∧ shell p' P_MPa (i - 1) <= shell p' P_MPa i).
Proof.
  intros entry run.
  destruct (three_zone_returns _ _ _ _ _ _ _ _ entry run)
    as (p' & Hrun & Henv & Hcd & Htop & Hdn & Hbot & Hpost).
  destruct Hpost as [TP TH TLT TLP TCT TCP TTT TTP TTOP TF].
  exists p'. split; [exact Hrun |]. split; [done |].
  intros HP Hpos.
  assert (Bulk p' R_m = Bulk p R_m) as HR.
  { destruct Henv as [-> _]. by apply Bulk_enter_zones. }
  assert (∀ i, (phase_top ph p < i ≤ last_updated ph d p)%Z →
            shell p' z_m (i - 1) < shell p' z_m i
            ∧ shell p' r_m i = Bulk p R_m - shell p' z_m i) as Hzr.
  { intros i Hi. unfold last_updated in Hi.
    destruct (TH i) as (Hz & Hr & _); [lia | lia |].
    split; [| by rewrite Hr, HR].
    destruct (Hpos i Hi) as [Hg Hrho]. specialize (HP i Hi).
    rewrite <- !(shell_of_arr_eq P_MPa p p') in HP by done.
    rewrite Hz.
    assert (0 < (shell p' P_MPa i - shell p' P_MPa (i - 1)) * 1e6
                / shell p' g_ms2 (i - 1) / shell p' rho_kgm3 (i - 1)); [| lra].
    apply Rdiv_lt_0_compat; [| done].
    apply Rdiv_lt_0_compat; [| done]. lra. }
  intros i Hi. destruct (Hzr i Hi) as [Hz Hr].
  split; [done |]. split; [done |]. split.
  - intros Hprev. rewrite Hr.
    destruct (decide (phase_top ph p < i - 1)%Z) as [Hlt | Hge].
    + destruct (Hzr (i - 1)%Z) as [_ Hr']; [lia |]. rewrite Hr'. lra.
    + destruct Hprev as [? | Hprev]; [lia |].
      replace (i - 1)%Z with (phase_top ph p) in * by lia.
      rewrite (TTOP r_m) by auto. rewrite (TTOP z_m) in Hz by auto. lra.
  - specialize (HP i Hi). rewrite !(shell_of_arr_eq P_MPa p p') by done. lra.
Qed.
End Claims.

(** ** The bottom-temperature check, phase by phase *)

Section BottomCheck.
Variable G : R.
Variable CDS2001 : Classifier.
Variable ClathrateLayers : option (ParamsStruct → M unit).
Variable Params : ParamsStruct.

(** Ice III and ice V stop with the fatal error as soon as the convecting
    layer is done, when its last temperature exceeds the bottom
    temperature; the boundary layer is then as the convecting loop left
    it. *)
Lemma deep_phase_checks_bottom_temperature ph n eosS eosC reg c d p :
  ph ≠ IceI →
  three_zone_entry CDS2001 ph n eosS eosC reg c d p →
  ∃ p4 m4,
    upper_zones_post G eosS eosC (phase_top ph p) c d (convectedTemperature_K reg)
      (shell p P_MPa c) (phase_mass_above ph p) p p4 m4
    ∧ (shell p4 T_K (d - 1) > phase_Tb ph p →
       IceConvect G CDS2001 ClathrateLayers ph Params p = Raise ValueError p4).
Proof.
  intros Hph entry.
  destruct (IceConvect_zones G CDS2001 ClathrateLayers n Params ph eosS eosC reg c d p entry)
    as (p4 & m4 & _ & _ & Hup & [(_ & _ & Hraise) | ([Hph' | Hle] & _)]).
  - exists p4, m4. by split.
  - done.
  - exists p4, m4. split; [done |]. intros Hgt. done.
Qed.

(** Ice I has no such check: a three-zone call always runs to the end. *)
Lemma IceI_runs_to_the_end n eosS eosC reg c d p :
  three_zone_entry CDS2001 IceI n eosS eosC reg c d p →
  ∃ p', IceConvect G CDS2001 ClathrateLayers IceI Params p = Ok () p'.
Proof.
  intros entry.
  destruct (IceConvect_zones G CDS2001 ClathrateLayers n Params IceI eosS eosC reg c d p entry)
    as (p4 & m4 & _ & _ & _ & [(Hph & _) | (_ & p' & Hok & _)]).
  - done.
  - by exists p'.
Qed.
End BottomCheck.

(** C10, amended: with [Planet.Do.CLATHRATE] true, the three-zone branch
    taken, both transition searches successful and no more clathrate layers
    than lid shells (otherwise the guard's ValueError comes first),
    [IceIConvect] raises NameError at the call of [ClathrateLayers], which
    the module neither defines nor imports; and were the name bound to a
    function that returns normally (leaving the shell stack and an ice Ih
    table in place), the first shell loop with an index to run over would
    raise NameError on [thisMAbove_kg], bound on the non-clathrate branch
    only. *)
Theorem C10_clathrate_NameError_amended G CDS2001 Params n eosS reg c d p :
  shells n p → phase_wf IceI n p → lid_table IceI p = Some eosS →
  reg = phase_regime CDS2001 IceI eosS p →
  ¬ whole_layer_conduction IceI reg p →
  next_index_gt (arr p z_m) (lid_threshold IceI reg p) = Some c →
  next_index_gt (arr p z_m) (TBL_threshold IceI reg p) = Some d →
  (nClath (Steps p) ≤ c)%Z → CLATHRATE (Do p) = true →
  IceIConvect G CDS2001 None Params p = Raise NameError (enter_zones IceI reg p)
  ∧ ∀ f q eos',
      f Params (enter_zones IceI reg p) = Ok () q →
      shells n q → surfIceEOS (Ocean q) "Ih" = Some eos' →
      (0 < c)%Z → (1 < c ∨ c < d ∨ d ≤ nIbottom (Steps p))%Z →
      ∃ q', IceIConvect G CDS2001 (Some f) Params p = Raise NameError q'.
Proof.
  intros Hn Hwf Heos Hreg Hwlc Hc Hd HnCl Hcl. split.
  - exact (IceIConvect_clathrate_NameError G CDS2001 n Params None
             eosS reg c d p Hn Hwf Heos Hreg Hwlc Hc Hd HnCl Hcl).
  - intros f.
    exact (IceIConvect_clathrate_NameError G CDS2001 n Params (Some f)
             eosS reg c d p Hn Hwf Heos Hreg Hwlc Hc Hd HnCl Hcl).
Qed.

(** * The test body *)

Lemma shells_test_planet Tb T st clath :
  length T = 6%nat → shells 6 (test_planet Tb T st clath).
Proof. intros HT F. destruct F; simpl; done. Qed.

Lemma next_lid_test Tb T st clath :
  next_index_gt (arr (test_planet Tb T st clath) z_m) 1500 = Some 2%Z.
Proof.
  unfold next_index_gt. simpl.
  rewrite decide_False by lra. simpl.
  rewrite decide_False by lra. simpl.
  rewrite decide_True by lra. reflexivity.
Qed.

Lemma next_TBL_test Tb T st clath x :
  2000 <= x < 3000 →
  next_index_gt (arr (test_planet Tb T st clath) z_m) x = Some 3%Z.
Proof.
  intros Hx. unfold next_index_gt. simpl.
  do 3 (rewrite decide_False by lra; simpl).
  rewrite decide_True by lra. reflexivity.
Qed.

(** Ice I on the six-shell stack: lid on shells 0-1, convection on shell 2,
    boundary layer on shells 3-5. *)
Lemma entry_I Tb T nCl :
  length T = 6%nat → (nCl ≤ 2)%Z →
  three_zone_entry test_classifier IceI 6 surfTable surfTable test_regime 2 3
    (test_planet Tb T (steps_I nCl) false).
Proof.
  intros HT HnCl.
  split; [by apply shells_test_planet |].
  split; [simpl; lia |].
  split; [reflexivity |]. split; [reflexivity |]. split; [reflexivity |].
  split.
  { unfold whole_layer_conduction, phase_thickness, shell. simpl. lra. }
  split; [apply next_lid_test |].
  split.
  { apply next_TBL_test. unfold TBL_threshold, phase_thickness, shell. simpl. lra. }
  split; [simpl; lia |].
  intros _. split; [simpl; lia | reflexivity].
Qed.

Lemma test_P Tb T st clath i :
  (0 ≤ i ≤ 5)%Z → shell (test_planet Tb T st clath) P_MPa i = 0.1 * IZR i.
Proof.
  intros Hi.
  assert (i = 0 ∨ i = 1 ∨ i = 2 ∨ i = 3 ∨ i = 4 ∨ i = 5)%Z
    as [-> | [-> | [-> | [-> | [-> | ->]]]]] by lia;
    unfold shell; simpl; lra.
Qed.

(** ** The pressure-ratio power law between its end points *)

Lemma power_law_pos Tb Ta Pref P : 0 < power_law Tb Ta Pref P.
Proof. unfold power_law, fpow, Rpower. apply Rmult_lt_0_compat; apply exp_pos. Qed.

Lemma power_law_same T Pref P : 0 < T → power_law T T Pref P = T.
Proof.
  intros HT. unfold power_law, fpow. rewrite <- Rpower_plus.
  replace (P / Pref + (1 - P / Pref)) with 1 by lra. by apply Rpower_1.
Qed.

Lemma power_law_mono_bottom Tb Tb' Ta Pref P :
  0 <= P / Pref → 0 < Tb <= Tb' → power_law Tb Ta Pref P <= power_law Tb' Ta Pref P.
Proof.
  intros Hx HT. unfold power_law, fpow.
  apply Rmult_le_compat_r; [unfold Rpower; left; apply exp_pos |].
  by apply Rle_Rpower_l.
Qed.

Lemma power_law_mono_top Tb Ta Ta' Pref P :
  P / Pref <= 1 → 0 < Ta <= Ta' → power_law Tb Ta Pref P <= power_law Tb Ta' Pref P.
Proof.
  intros Hx HT. unfold power_law, fpow.
  apply Rmult_le_compat_l; [unfold Rpower; left; apply exp_pos |].
  apply Rle_Rpower_l; [lra | done].
Qed.

Lemma power_law_strict_bottom Tb Tb' Ta Pref P :
  0 < P / Pref → 0 < Tb < Tb' → power_law Tb Ta Pref P < power_law Tb' Ta Pref P.
Proof.
  intros Hx HT. unfold power_law, fpow.
  apply Rmult_lt_compat_r; [unfold Rpower; apply exp_pos |].
  by apply Rlt_Rpower_l.
Qed.

(** The lid's power law halfway between 75 K and 243 K. *)
Lemma power_law_halfway : power_law 243 75 0.2 0.1 = 135.
Proof.
  unfold power_law, fpow.
  replace (0.1 / 0.2) with (/ 2) by lra. replace (1 - / 2) with (/ 2) by lra.
  rewrite Rpower_mult_distr by lra. rewrite Rpower_sqrt by lra.
  replace (243 * 75) with (135 * 135) by lra. apply sqrt_square. lra.
Qed.

(** ** Depth, radius, mass and gravity down the test body *)

Lemma hydro_inv_step p' i :
  (1 ≤ i ≤ 5)%Z →
  Bulk p' R_m = 252100 → Bulk p' M_kg = 1.08022e20 →
  shell p' rho_kgm3 (i - 1) = 1000 →
  shell p' P_MPa i - shell p' P_MPa (i - 1) = 0.1 →
  HydroEq test_G p' (0 + sumZ (shell p' MLayer_kg) 0 (i - 1)) i →
  hydro_inv p' (i - 1) → hydro_inv p' i.
Proof.
  intros Hi HR HM Hrho HP (Hz & Hr & HMl & Hg) (Hzp & Hrp & Hgp & HS).
  rewrite HR in Hr. rewrite HM in Hg. rewrite Hrho in Hz, HMl. rewrite HP in Hz.
  rewrite minus_IZR in Hzp.
  assert (1 <= IZR i <= 5) as Hi'.
  { split; [apply (IZR_le 1) | apply (IZR_le i 5)]; lia. }
  set (z := shell p' z_m i) in *. set (zp := shell p' z_m (i - 1)) in *.
  set (r := shell p' r_m i) in *. set (rp := shell p' r_m (i - 1)) in *.
  set (gp := shell p' g_ms2 (i - 1)) in *.
  assert (0 < / gp <= 50) as Hinv.
  { split; [apply Rinv_0_lt_compat; lra |].
    replace 50 with (/ 0.02) by lra. apply Rinv_le_contravar; lra. }
  assert (z = zp + 100 * / gp) as Hz' by (rewrite Hz; unfold Rdiv; lra).
  assert (zp < z <= 5000 * IZR i) as Hzb by lra.
  assert (227100 <= r <= 252100) as Hrb by lra.
  assert (sumZ (shell p' MLayer_kg) 0 i
          = 4 / 3 * PI * 1000 * (252100 ^ 3 - r ^ 3)) as HS'.
  { replace i with (i - 1 + 1)%Z at 1 by lia.
    rewrite sumZ_snoc by lia. rewrite HS, HMl. fold rp. ring. }
  unfold hydro_inv. fold z r.
  split; [lra |]. split; [done |]. split; [| done].
  rewrite Hg.
  replace (0 + sumZ (shell p' MLayer_kg) 0 (i - 1) + shell p' MLayer_kg (i - 1))
    with (sumZ (shell p' MLayer_kg) 0 i).
  2:{ replace i with (i - 1 + 1)%Z at 1 by lia. rewrite sumZ_snoc by lia. lra. }
  rewrite HS'.
  assert (0 < r ^ 2 <= 252100 ^ 2) as Hr2.
  { split; [apply pow_lt; lra | apply pow_incr; lra]. }
  assert (0 <= r ^ 3) as Hr3 by (apply pow_le; lra).
  assert (PI * (252100 ^ 3 - r ^ 3) <= 4 * 252100 ^ 3) as Hmass.
  { pose proof PI_4. pose proof PI_RGT_0.
    assert (r ^ 3 <= 252100 ^ 3) by (apply pow_incr; lra).
    apply Rle_trans with (4 * (252100 ^ 3 - r ^ 3)).
    - apply Rmult_le_compat_r; lra.
    - lra. }
  apply Rmult_le_reg_r with (r ^ 2); [lra |].
  unfold Rdiv. rewrite Rmult_assoc, Rinv_l by lra.
  unfold test_G. simpl pow in *. lra.
Qed.

(** ** The three-zone run of ice I on the test body *)

Lemma test_run_I Tb T nCl :
  length T = 6%nat → (nCl ≤ 2)%Z →
  ∃ p', IceConvect test_G test_classifier None IceI test_Params
          (test_planet Tb T (steps_I nCl) false) = Ok () p'
      ∧ Bulk p' R_m = 252100 ∧ Bulk p' M_kg = 1.08022e20
      ∧ three_zone_post test_G surfTable surfTable surfTable 0 2 3 5 243 Tb 0.5 0
          (test_planet Tb T (steps_I nCl) false) p'.
Proof.
  intros HT HnCl. pose proof (entry_I Tb T nCl HT HnCl) as entry.
  destruct (IceI_runs_to_the_end test_G test_classifier None test_Params
              _ _ _ _ _ _ _ entry) as [p' Hrun].
  destruct (three_zone_completed test_G test_classifier None test_Params
              _ _ _ _ _ _ _ _ _ entry Hrun)
    as (_ & Henv & _ & _ & _ & _ & Hpost).
  exists p'. split; [done |].
  destruct Henv as [HB _]. rewrite HB, !Bulk_enter_zones by done.
  split; [done |]. split; [done |]. exact Hpost.
Qed.

Lemma entry_planet_I :
  three_zone_entry test_classifier IceI 6 surfTable surfTable test_regime 2 3 planet_I.
Proof. by apply entry_I. Qed.

Lemma test_run_planet_I :
  ∃ p', IceConvect test_G test_classifier None IceI test_Params planet_I = Ok () p'
      ∧ Bulk p' R_m = 252100 ∧ Bulk p' M_kg = 1.08022e20
      ∧ three_zone_post test_G surfTable surfTable surfTable 0 2 3 5 243 272.356 0.5 0
          planet_I p'.
Proof. by apply test_run_I. Qed.

Lemma no_fatal_planet_I :
  no_fatal_error (IceConvect test_G test_classifier None IceI test_Params) planet_I.
Proof.
  intros q Hq. destruct test_run_planet_I as (p' & Hrun & _).
  rewrite Hrun in Hq. discriminate.
Qed.

Section TestRun.
Variables (Tb : R) (T : list R) (nCl : Z) (p' : PlanetStruct).
Hypothesis HR : Bulk p' R_m = 252100.
Hypothesis HM : Bulk p' M_kg = 1.08022e20.
Hypothesis Hpost :
  three_zone_post test_G surfTable surfTable surfTable 0 2 3 5 243 Tb 0.5 0
    (test_planet Tb T (steps_I nCl) false) p'.

Lemma test_run_P i : (0 ≤ i ≤ 5)%Z → shell p' P_MPa i = 0.1 * IZR i.
Proof.
  intros Hi. destruct Hpost as [TP TH TLT TLP TCT TCP TTT TTP TTOP TF].
  rewrite (shell_of_arr_eq P_MPa _ p' i TP). by apply test_P.
Qed.

Lemma test_run_props i : (0 ≤ i < 5)%Z → PropsEq surfTable p' i.
Proof.
  intros Hi. destruct Hpost as [TP TH TLT TLP TCT TCP TTT TTP TTOP TF].
  destruct (decide (i < 2)%Z); [apply TLP; lia |].
  destruct (decide (i < 3)%Z); [apply TCP; lia |].
  apply TTP; lia.
Qed.

Lemma test_run_hydro (k : nat) : (k ≤ 5)%nat → hydro_inv p' (Z.of_nat k).
Proof.
  pose proof Hpost as [TP TH TLT TLP TCT TCP TTT TTP TTOP TF].
  induction k as [| k IH]; intros Hk.
  - unfold hydro_inv. change (Z.of_nat 0) with 0%Z.
    rewrite !TTOP by auto. rewrite sumZ_nil by lia.
    unfold shell. simpl.
    split; [lra |]. split; [lra |]. split; [lra | ring].
  - apply hydro_inv_step; [lia | done | done | | | |].
    + destruct (test_run_props (Z.of_nat (S k) - 1)) as [Hrho _]; [lia |]. exact Hrho.
    + rewrite !test_run_P by lia. rewrite minus_IZR. lra.
    + apply TH; lia.
    + replace (Z.of_nat (S k) - 1)%Z with (Z.of_nat k) by lia. apply IH. lia.
Qed.

(** With a top shell at 75 K the last lid shell ends up at 135 K and the
    convecting shell a little above. *)
Lemma test_run_T1 :
  shell (test_planet Tb T (steps_I nCl) false) T_K 0 = 75 → shell p' T_K 1 = 135.
Proof.
  intros HT0. pose proof Hpost as [TP TH TLT TLP TCT TCP TTT TTP TTOP TF].
  rewrite TLT by lia.
  rewrite HT0, !test_P by lia.
  replace (0.1 * 2) with 0.2 by lra. replace (0.1 * 1) with 0.1 by lra.
  apply power_law_halfway.
Qed.

Lemma test_run_T2 :
  shell (test_planet Tb T (steps_I nCl) false) T_K 0 = 75 →
  shell p' T_K 2 = 135.000675.
Proof.
  intros HT0.
  pose proof Hpost as [TP TH TLT TLP TCT TCP TTT TTP TTOP TF].
  pose proof (TCT 2%Z ltac:(lia)) as HT2.
  unfold AdiabatEq in HT2. change (2 - 1)%Z with 1%Z in HT2.
  destruct (test_run_props 1%Z) as (Hrho & HCp & Halpha & _); [lia |].
  simpl in Hrho, HCp, Halpha.
  rewrite Hrho, HCp, Halpha, (test_run_T1 HT0), !test_run_P in HT2 by lia.
  rewrite HT2. lra.
Qed.
End TestRun.

(** ** Ice V on the test body: lid on shells 1-2, convection on shell 3,
    boundary layer on shells 4-5 *)

Lemma next_deep_test Tb T st clath x :
  3000 <= x < 4000 →
  next_index_gt (arr (test_planet Tb T st clath) z_m) x = Some 4%Z.
Proof.
  intros Hx. unfold next_index_gt. simpl.
  do 4 (rewrite decide_False by lra; simpl).
  rewrite decide_True by lra. reflexivity.
Qed.

Lemma entry_V :
  three_zone_entry test_classifier IceV 6 surfTable deepTable test_regime 3 4 planet_V.
Proof.
  split; [by apply shells_test_planet |].
  split; [simpl; lia |].
  split; [reflexivity |]. split; [reflexivity |]. split; [reflexivity |].
  split.
  { unfold whole_layer_conduction, phase_thickness, shell. simpl. lra. }
  split.
  { apply next_TBL_test. unfold lid_threshold, phase_top, shell. simpl. lra. }
  split.
  { apply next_deep_test.
    unfold TBL_threshold, phase_thickness, phase_top, shell. simpl. lra. }
  split; [simpl; lia |].
  intros [=].
Qed.

Lemma test_run_V :
  ∃ p', IceConvect test_G test_classifier None IceV test_Params planet_V = Ok () p'.
Proof.
  destruct (IceConvect_zones test_G test_classifier None 6 test_Params
              _ _ _ _ _ _ _ entry_V)
    as (p4 & m4 & _ & _ & Hup & [(_ & Hgt & _) | (_ & p' & Hok & _)]);
    [| by exists p'].
  exfalso.
  destruct Hup as [UP UH UM ULT ULP UCT UCP UTOP UF].
  pose proof (UCT 3%Z ltac:(lia)) as HT3.
  unfold AdiabatEq in HT3. change (4 - 1)%Z with 3%Z in Hgt.
  change (3 - 1)%Z with 2%Z in HT3.
  destruct (ULP 2%Z) as (Hrho & HCp & Halpha & _); [simpl; lia |].
  simpl in Hrho, HCp, Halpha.
  rewrite Hrho, HCp, Halpha in HT3.
  rewrite !(shell_of_arr_eq P_MPa planet_V p4) in HT3 by done.
  unfold planet_V in HT3. rewrite !test_P in HT3 by lia.
  assert (shell p4 T_K 2 <= 243) as HT2.
  { rewrite ULT by (simpl; lia).
    etrans; [apply (power_law_mono_top _ _ 243) |].
    - unfold planet_V. rewrite !test_P by lia. lra.
    - unfold shell. simpl. lra.
    - rewrite power_law_same by lra. lra. }
  assert (0 < shell p4 T_K 2) as HT2'.
  { rewrite ULT by (simpl; lia). apply power_law_pos. }
  simpl in Hgt. lra.
Qed.

Lemma no_fatal_planet_V :
  no_fatal_error (IceConvect test_G test_classifier None IceV test_Params) planet_V.
Proof.
  intros q Hq. destruct test_run_V as (p' & Hrun).
  rewrite Hrun in Hq. discriminate.
Qed.

(** ** The thin layers: whole-layer conduction *)

Lemma whole_layer_thin ph :
  ph = IceI ∨ ph = IceIII → whole_layer_conduction ph test_regime planet_thin.
Proof.
  intros [-> | ->]; unfold whole_layer_conduction, phase_thickness, shell; simpl; lra.
Qed.

(** ** Clathrates switched on *)

Lemma whole_layer_thick Tb T nCl clath :
  ¬ whole_layer_conduction IceI test_regime (test_planet Tb T (steps_I nCl) clath).
Proof. unfold whole_layer_conduction, phase_thickness, shell. simpl. lra. Qed.

Lemma next_lid_clath Tb T nCl clath :
  next_index_gt (arr (test_planet Tb T (steps_I nCl) clath) z_m)
    (lid_threshold IceI test_regime (test_planet Tb T (steps_I nCl) clath)) = Some 2%Z.
Proof. apply next_lid_test. Qed.

Lemma next_TBL_clath Tb T nCl clath :
  next_index_gt (arr (test_planet Tb T (steps_I nCl) clath) z_m)
    (TBL_threshold IceI test_regime (test_planet Tb T (steps_I nCl) clath)) = Some 3%Z.
Proof.
  apply next_TBL_test. unfold TBL_threshold, phase_thickness, shell. simpl. lra.
Qed.

(** * The claims on the test body *)

(** C1: ice I has no bottom-temperature check.  On the six-shell test body
    with a bottom temperature of 130 K the three-zone path is taken (lid on
    shells 0-1, convection on shell 2, boundary layer on shells 3-5), the
    convecting shell reaches 135.000675 K, above the bottom temperature, and
    yet [IceIConvect] returns normally, having reassigned the boundary layer
    by the power law between those two temperatures: shell 3 no longer
    holds its temperature of entry.  ([IceIIIConvect] and [IceVConvect]
    raise ValueError in this situation,
    [deep_phase_checks_bottom_temperature].) *)
Theorem C1_IceI_skips_bottom_temperature_check :
  three_zone_entry test_classifier IceI 6 surfTable surfTable test_regime 2 3
    planet_cold_bottom
  ∧ ∃ p', IceConvect test_G test_classifier None IceI test_Params planet_cold_bottom
          = Ok () p'
        ∧ shell p' T_K (3 - 1) = 135.000675
        ∧ phase_Tb IceI planet_cold_bottom < shell p' T_K (3 - 1)
        ∧ (∀ i, (3 ≤ i ≤ 5)%Z →
             shell p' T_K i
             = power_law 130 (shell p' T_K (3 - 1)) 0.5 (shell planet_cold_bottom P_MPa i))
        ∧ shell p' T_K 3 ≠ shell planet_cold_bottom T_K 3.
Proof.
  split; [by apply entry_I |].
  destruct (test_run_I 130 [75; 90; 100; 110; 120; 130] 0 eq_refl ltac:(lia))
    as (p' & Hrun & HR & HM & Hpost).
  exists p'. split; [exact Hrun |].
  assert (shell p' T_K 2 = 135.000675) as HT2
    by (by apply (test_run_T2 _ _ _ _ Hpost)).
  change (3 - 1)%Z with 2%Z.
  split; [done |].
  split; [rewrite HT2; simpl; lra |].
  destruct Hpost as [TP TH TLT TLP TCT TCP TTT TTP TTOP TF].
  split; [exact TTT |].
  rewrite TTT by lia. change (3 - 1)%Z with 2%Z. rewrite HT2.
  unfold planet_cold_bottom. rewrite test_P by lia.
  assert (130 <= power_law 130 135.000675 0.5 (0.1 * 3)) as Hge.
  { rewrite <- (power_law_same 130 0.5 (0.1 * 3)) at 1 by lra.
    apply power_law_mono_top; lra. }
  unfold shell. simpl. lra.
Qed.

(** C2: the first convecting shell does not keep the temperature the lid
    gave it.  On the six-shell test body (lid on shells 0-1, convection on
    shell 2, boundary layer on shells 3-5) the lid's power law of lines
    62-69, run from the planet as the call has it at that point, writes
    [T_K[:nConduct+1]] and ends on the convecting temperature: shell 2,
    the first convecting shell, is set to 243 K, the "new bottom
    temperature for conductive layer".  The convecting loop of line 96 starts on that same
    shell and writes the adiabatic step from shell 1 over it: the call
    returns with 135 K on the last lid shell and 135.000675 K on shell 2,
    not 243 K.  The second transition is anchored as claimed: the
    boundary layer's power law starts from the convecting zone's last
    temperature. *)
Theorem C2_first_convecting_shell_overwritten :
  three_zone_entry test_classifier IceI 6 surfTable surfTable test_regime 2 3 planet_I
  ∧ (∃ q, IceIConvect_lid_T None test_Params 2 (shell planet_I P_MPa 2)
            (enter_zones IceI test_regime planet_I) = Ok (Some 0) q
        ∧ shell q T_K 2 = convectedTemperature_K test_regime)
  ∧ ∃ p', IceConvect test_G test_classifier None IceI test_Params planet_I = Ok () p'
        ∧ shell p' T_K (2 - 1) = 135
        ∧ shell p' T_K 2 = 135.000675
        ∧ shell p' T_K 2 ≠ convectedTemperature_K test_regime
        ∧ shell p' T_K 3
          = power_law 272.356 (shell p' T_K (3 - 1)) 0.5 (shell planet_I P_MPa 3).
Proof.
  split; [exact entry_planet_I |].
  split.
  { eexists. split.
    - apply (IceIConvect_lid_T_run None 6); [| | lia].
      + unfold enter_zones, cap_clathrate. by case_decide.
      + apply shells_enter_zones. by apply shells_test_planet.
    - rewrite (shell_fill 6) by
        (first [apply shells_enter_zones; by apply shells_test_planet | lia]).
      rewrite decide_True by (split; [done | lia]).
      rewrite enter_zones_IceI_attr.
      change (attr (store_regime IceI test_regime planet_I) Tconv_K) with 243.
      unfold power_law, fpow, shell. rewrite !arr_enter_zones. simpl.
      replace (0.2 / 0.2) with 1 by lra. replace (1 - 1) with 0 by lra.
      rewrite Rpower_1 by lra. rewrite Rpower_O by lra. lra. }
  destruct test_run_planet_I as (p' & Hrun & HR & HM & Hpost).
  exists p'. split; [exact Hrun |].
  assert (shell p' T_K 1 = 135) as HT1 by (by apply (test_run_T1 _ _ _ _ Hpost)).
  assert (shell p' T_K 2 = 135.000675) as HT2 by (by apply (test_run_T2 _ _ _ _ Hpost)).
  change (2 - 1)%Z with 1%Z.
  split; [exact HT1 |]. split; [exact HT2 |].
  split; [rewrite HT2; simpl; lra |].
  destruct Hpost as [TP TH TLT TLP TCT TCP TTT TTP TTOP TF].
  apply TTT. lia.
Qed.

Lemma thin_layers_deep_phase ph :
  ph ≠ IceI →
  whole_layer_conduction ph test_regime planet_thin
  ∧ ∃ p', IceConvect test_G test_classifier None ph test_Params planet_thin = Ok () p'
        ∧ arr p' = arr planet_thin
        ∧ QfromMantle_W (Ocean p') = 1e9
        ∧ QfromMantle_W (Ocean p')
          ≠ (shell p' T_K 1 - Bulk p' Tsurf_K) * shell p' kTherm_WmK 0
            / (Bulk p' R_m - shell p' r_m 1) * (4 * PI * Bulk p' R_m ^ 2).
Proof.
  intros Hph.
  assert (whole_layer_conduction ph test_regime planet_thin) as Hwlc
    by (unfold whole_layer_conduction, phase_thickness, shell; destruct ph; simpl; lra).
  split; [exact Hwlc |].
  destruct (whole_layer_heat_flow test_G test_classifier None test_Params ph 6 surfTable
              test_regime planet_thin) as (p' & Hrun & Harr & HQ).
  { by apply shells_test_planet. }
  { destruct ph; simpl; lia. }
  { by destruct ph. }
  { by destruct ph. }
  { exact Hwlc. }
  assert (Bulk p' = Bulk planet_thin) as HB.
  { rewrite (IceConvect_whole_layer test_G test_classifier None test_Params ph 6 surfTable
               test_regime planet_thin) in Hrun;
      [| by apply shells_test_planet | destruct ph; simpl; lia | by destruct ph
       | by destruct ph | exact Hwlc].
    injection Hrun as <-. by destruct ph. }
  exists p'. split; [exact Hrun |]. split; [exact Harr |].
  assert (QfromMantle_W (Ocean p') = 1e9) as HQ' by (rewrite HQ; by destruct ph).
  split; [exact HQ' |].
  rewrite HQ', HB. unfold shell. rewrite Harr. simpl. pose proof PI2_3_2. lra.
Qed.

(** C3: the deeper phases do not recompute the heat flow.  On the thin
    layers all three routines take the whole-layer-conduction branch and
    leave every array alone.  [IceIConvect] then stores the heat flow of
    the temperature gradient between the first two shells (lines 41-43,
    "it will be too high for conduction-only"); [IceIIIConvect] and
    [IceVConvect] have no such lines and return with the classifier's
    1e9 W still in [Ocean.QfromMantle_W], which is not that heat flow. *)
Theorem C3_deep_phases_keep_classifier_heat_flow :
  (whole_layer_conduction IceI test_regime planet_thin
   ∧ ∃ p', IceConvect test_G test_classifier None IceI test_Params planet_thin = Ok () p'
         ∧ arr p' = arr planet_thin
         ∧ QfromMantle_W (Ocean p')
           = (shell p' T_K 1 - Bulk p' Tsurf_K) * shell p' kTherm_WmK 0
             / (Bulk p' R_m - shell p' r_m 1) * (4 * PI * Bulk p' R_m ^ 2))
  ∧ (whole_layer_conduction IceIII test_regime planet_thin
     ∧ ∃ p', IceConvect test_G test_classifier None IceIII test_Params planet_thin
             = Ok () p'
           ∧ arr p' = arr planet_thin
           ∧ QfromMantle_W (Ocean p') = 1e9
           ∧ QfromMantle_W (Ocean p')
             ≠ (shell p' T_K 1 - Bulk p' Tsurf_K) * shell p' kTherm_WmK 0
               / (Bulk p' R_m - shell p' r_m 1) * (4 * PI * Bulk p' R_m ^ 2))
  ∧ (whole_layer_conduction IceV test_regime planet_thin
     ∧ ∃ p', IceConvect test_G test_classifier None IceV test_Params planet_thin
             = Ok () p'
           ∧ arr p' = arr planet_thin
           ∧ QfromMantle_W (Ocean p') = 1e9
           ∧ QfromMantle_W (Ocean p')
             ≠ (shell p' T_K 1 - Bulk p' Tsurf_K) * shell p' kTherm_WmK 0
               / (Bulk p' R_m - shell p' r_m 1) * (4 * PI * Bulk p' R_m ^ 2)).
Proof.
  split; [| split; by apply thin_layers_deep_phase].
  assert (whole_layer_conduction IceI test_regime planet_thin) as Hwlc
    by (apply whole_layer_thin; auto).
  split; [exact Hwlc |].
  exists (whole_layer_result IceI test_regime planet_thin).
  split.
  { apply (IceConvect_whole_layer test_G test_classifier None test_Params IceI 6 surfTable);
      [by apply shells_test_planet | simpl; lia | reflexivity | reflexivity | exact Hwlc]. }
  split; [apply arr_whole_layer_result |].
  unfold shell. rewrite arr_whole_layer_result.
  change (Bulk (whole_layer_result IceI test_regime planet_thin))
    with (Bulk (enter_zones IceI test_regime planet_thin)).
  rewrite !Bulk_enter_zones by done.
  change (QfromMantle_W (Ocean (whole_layer_result IceI test_regime planet_thin)))
    with (conductive_heat_flow planet_thin).
  unfold conductive_heat_flow, shell. simpl. lra.
Qed.

Lemma C4_zone_tables_witness :
  ∃ p', IceConvect test_G test_classifier None IceV test_Params planet_V = Ok () p'
      ∧ (∀ i, (1 ≤ i < 3)%Z → PropsEq surfTable p' i)
      ∧ (∀ i, (3 ≤ i < 4)%Z → PropsEq deepTable p' i)
      ∧ (∀ i, (4 ≤ i < 5)%Z → PropsEq surfTable p' i)
      ∧ surfIceEOS (Ocean planet_V) "V" = Some surfTable
      ∧ iceEOS (Ocean planet_V) "V" = Some deepTable.
Proof.
  destruct (C4_zone_tables test_G test_classifier None test_Params
              IceV 6 surfTable deepTable test_regime 3 4 planet_V
              entry_V no_fatal_planet_V)
    as (p' & Hrun & Hlid & Hconv & Htbl & HS & HC & _).
  exists p'. split; [exact Hrun |].
  split; [exact Hlid |]. split; [exact Hconv |]. split; [exact Htbl |].
  split; [exact HS | exact (HC eq_refl)].
Defined.

Lemma C5_regime_fallback_witness :
  ∃ p', IceConvect test_G test_classifier None IceIII test_Params planet_thin = Ok () p'
      ∧ arr p' T_K = T_guess
      ∧ ∀ i, (2 ≤ i ≤ 4)%Z → shell p' T_K i = shell planet_thin T_K i.
Proof.
  apply (C5_regime_fallback_keeps_temperature test_G test_classifier None test_Params
           IceIII 6 surfTable test_regime planet_thin).
  - by apply shells_test_planet.
  - simpl. lia.
  - reflexivity.
  - reflexivity.
  - apply whole_layer_thin. auto.
Defined.

Lemma C6_convecting_interior_witness :
  ∃ p', IceConvect test_G test_classifier None IceI test_Params planet_I = Ok () p'
      ∧ shell p' T_K 2
        = shell p' T_K 1
          + shell p' T_K 1 * shell p' alpha_pK 1
            / (shell p' Cp_JkgK 1 * shell p' rho_kgm3 1)
            * (shell p' P_MPa 2 - shell p' P_MPa 1) * 1e6
      ∧ PropsEq surfTable p' 2
      ∧ shell p' z_m 2
        = shell p' z_m 1
          + (shell p' P_MPa 2 - shell p' P_MPa 1) * 1e6
            / (shell p' g_ms2 1 * shell p' rho_kgm3 1).
Proof.
  destruct (C6_convecting_interior test_G test_classifier None test_Params
              IceI 6 surfTable surfTable test_regime 2 3 planet_I
              entry_planet_I no_fatal_planet_I) as (p' & Hrun & Hconv).
  exists p'. split; [exact Hrun |].
  apply (Hconv 2%Z). lia.
Defined.

Lemma C7_power_law_profiles_witness :
  ∃ p', IceConvect test_G test_classifier None IceI test_Params planet_I = Ok () p'
      ∧ arr p' P_MPa = arr planet_I P_MPa
      ∧ (∀ i, (0 ≤ i < 2)%Z →
           shell p' T_K i
           = 243 ** (shell planet_I P_MPa i / shell planet_I P_MPa 2)
             * shell planet_I T_K 0 ** (1 - shell planet_I P_MPa i / shell planet_I P_MPa 2))
      ∧ (∀ i, (3 ≤ i ≤ 5)%Z →
           shell p' T_K i
           = 272.356 ** (shell planet_I P_MPa i / 0.5)
             * shell p' T_K 2 ** (1 - shell planet_I P_MPa i / 0.5)).
Proof.
  exact (C7_power_law_profiles test_G test_classifier None test_Params
           IceI 6 surfTable surfTable test_regime 2 3 planet_I
           entry_planet_I no_fatal_planet_I).
Defined.

Lemma C8_mass_and_gravity_witness :
  ∃ p', IceConvect test_G test_classifier None IceI test_Params planet_I = Ok () p'
      ∧ Bulk p' M_kg = 1.08022e20
      ∧ ∀ i, (0 < i ≤ 5)%Z →
          sumZ (shell p' MLayer_kg) 0 i
          + (Bulk p' M_kg - sumZ (shell p' MLayer_kg) 0 i) = Bulk p' M_kg
          ∧ shell p' g_ms2 i
            = test_G * (Bulk p' M_kg - sumZ (shell p' MLayer_kg) 0 i) / shell p' r_m i ^ 2.
Proof.
  exact (C8_mass_and_gravity test_G test_classifier None test_Params
           IceI 6 surfTable surfTable test_regime 2 3 planet_I
           entry_planet_I no_fatal_planet_I).
Defined.

Lemma C9_monotone_profile_witness :
  ∃ p', IceConvect test_G test_classifier None IceI test_Params planet_I = Ok () p'
      ∧ arr p' P_MPa = arr planet_I P_MPa
      ∧ ∀ i, (0 < i ≤ 5)%Z →
          shell p' z_m (i - 1) < shell p' z_m i
          ∧ shell p' r_m i = 252100 - shell p' z_m i
          ∧ shell p' r_m (i - 1) > shell p' r_m i
          ∧ shell p' P_MPa (i - 1) <= shell p' P_MPa i.
Proof.
  destruct (C9_monotone_profile test_G test_classifier None test_Params
              IceI 6 surfTable surfTable test_regime 2 3 planet_I
              entry_planet_I no_fatal_planet_I) as (p' & Hrun & HP & Hmono).
  exists p'. split; [exact Hrun |]. split; [exact HP |].
  destruct test_run_planet_I as (p'' & Hrun' & HR & HM & Hpost).
  rewrite Hrun in Hrun'. injection Hrun' as <-.
  intros i Hi. destruct (Hmono) with (i := i) as (Hz & Hr & Hrr & HPP).
  - intros j Hj. change (0 < j ≤ 5)%Z in Hj.
    unfold planet_I. rewrite !test_P by lia. rewrite minus_IZR. lra.
  - intros j Hj. change (0 < j ≤ 5)%Z in Hj. split.
    + destruct (test_run_hydro _ _ _ _ HR HM Hpost (Z.to_nat (j - 1)))
        as (_ & _ & Hg & _); [lia |].
      rewrite Z2Nat.id in Hg by lia. lra.
    + destruct (test_run_props _ _ _ _ Hpost (j - 1)%Z) as [Hrho _]; [lia |].
      rewrite Hrho. simpl. lra.
  - exact Hi.
  - split; [exact Hz |]. split; [exact Hr |]. split; [| exact HPP].
    apply Hrr. right. unfold shell. simpl. lra.
Defined.

(** The claim of C10 as worded fails when there are more clathrate layers
    than lid shells: with clathrates on and the three-zone branch taken, the
    call ends in the guard's ValueError, not in a NameError. *)
Lemma C10_clathrate_NameError_counterexample :
  CLATHRATE (Do planet_clath_3) = true
  ∧ ¬ whole_layer_conduction IceI test_regime planet_clath_3
  ∧ IceIConvect test_G test_classifier None test_Params planet_clath_3
    = Raise ValueError (enter_zones IceI test_regime planet_clath_3)
  ∧ ¬ ∃ q, IceIConvect test_G test_classifier None test_Params planet_clath_3
           = Raise NameError q.
Proof.
  assert (IceIConvect test_G test_classifier None test_Params planet_clath_3
          = Raise ValueError (enter_zones IceI test_regime planet_clath_3)) as Hrun.
  { apply (IceIConvect_clathrate_guard test_G test_classifier 6 test_Params None
             surfTable test_regime 2 3).
    - by apply shells_test_planet.
    - simpl. lia.
    - reflexivity.
    - reflexivity.
    - apply whole_layer_thick.
    - apply next_lid_clath.
    - apply next_TBL_clath.
    - simpl. lia. }
  split; [reflexivity |]. split; [apply whole_layer_thick |]. split; [exact Hrun |].
  intros [q Hq]. rewrite Hrun in Hq. discriminate.
Qed.

Lemma C10_clathrate_NameError_witness :
  IceIConvect test_G test_classifier None test_Params planet_clath_2
  = Raise NameError (enter_zones IceI test_regime planet_clath_2)
  ∧ ∃ q', IceIConvect test_G test_classifier (Some (λ _, mret ())) test_Params
            planet_clath_2
          = Raise NameError q'.
Proof.
  destruct (C10_clathrate_NameError_amended test_G test_classifier test_Params 6
              surfTable test_regime 2 3 planet_clath_2) as [Hunbound Hbound].
  - by apply shells_test_planet.
  - simpl. lia.
  - reflexivity.
  - reflexivity.
  - apply whole_layer_thick.
  - apply next_lid_clath.
  - apply next_TBL_clath.
  - simpl. lia.
  - reflexivity.
  - split; [exact Hunbound |].
    apply (Hbound (λ _, mret ()) (enter_zones IceI test_regime planet_clath_2) surfTable).
    + reflexivity.
    + apply shells_enter_zones. by apply shells_test_planet.
    + unfold enter_zones, cap_clathrate. rewrite decide_False
        by (simpl; unfold insert, fn_insert; simpl; lra).
      reflexivity.
    + lia.
    + simpl. lia.
Defined.

(** * Beyond the claims *)

(** ** Relations kept through every outcome *)

Section Always.
Variable I : PlanetStruct → PlanetStruct → Prop.
Hypothesis I_refl : ∀ p, I p p.
Hypothesis I_trans : ∀ p q r, I p q → I q r → I p r.

Lemma always_ret {A} (a : A) : always I (mret a).
Proof. intros p. apply I_refl. Qed.

Lemma always_raise {A} e : always I (@raise A e).
Proof. intros p. apply I_refl. Qed.

Lemma always_lift {A} e (o : option A) : always I (lift e o).
Proof. destruct o; [apply always_ret | apply always_raise]. Qed.

Lemma always_gets {A} (f : PlanetStruct → A) : always I (gets f).
Proof. intros p. apply I_refl. Qed.

Lemma always_bind {A B} (m : M A) (k : A → M B) :
  always I m → (∀ a, always I (k a)) → always I (m ≫= k).
Proof.
  intros Hm Hk p. specialize (Hm p). unfold mbind, M_bind.
  destruct (m p) as [a q | e q]; simpl in *; [| done].
  eapply I_trans; [exact Hm | apply Hk].
Qed.

Lemma always_for {A S} (l : list A) (body : A → S → M S) :
  (∀ x s, always I (body x s)) → ∀ acc, always I (for_ l body acc).
Proof.
  intros Hbody. induction l as [| x l IH]; intros acc; simpl.
  - apply always_ret.
  - apply always_bind; [apply Hbody | apply IH].
Qed.

Lemma always_modify (f : PlanetStruct → PlanetStruct) :
  (∀ p, I p (f p)) → always I (modify f).
Proof. intros Hf p. apply Hf. Qed.
End Always.

Lemma always_weaken {A} (I J : PlanetStruct → PlanetStruct → Prop) (m : M A) :
  (∀ p q, I p q → J p q) → always I m → always J m.
Proof. intros HIJ Hm p. apply HIJ, Hm. Qed.

Lemma arrays_only_refl p : arrays_only p p.
Proof. split; [apply same_env_refl | done]. Qed.

Lemma arrays_only_trans p q r : arrays_only p q → arrays_only q r → arrays_only p r.
Proof.
  intros (He1 & HP1 & Hl1) (He2 & HP2 & Hl2).
  split; [by eapply same_env_trans |]. split; [congruence |].
  intros F. by rewrite Hl2.
Qed.

Lemma kept_refl ph p : kept ph p p.
Proof. by split. Qed.

Lemma kept_trans ph p q r : kept ph p q → kept ph q r → kept ph p r.
Proof.
  intros [P1 L1 S1 D1 E1 T1 U1 B1 A1] [P2 L2 S2 D2 E2 T2 U2 B2 A2].
  split.
  - by rewrite P2.
  - intros F. by rewrite L2.
  - by rewrite S2.
  - by rewrite D2.
  - by rewrite E2.
  - by rewrite T2.
  - by rewrite U2.
  - intros x Hx. by rewrite B2, B1.
  - intros x Hx. by rewrite A2, A1.
Qed.

Lemma kept_of_arrays_only ph p q : arrays_only p q → kept ph p q.
Proof.
  intros ((HB & HS & HD & HO & HA) & HP & Hl).
  split; try done; try (by rewrite HO).
  - intros x _. by rewrite HB.
  - intros x _. by rewrite HA.
Qed.

(** ** Array writes keep sizes and everything that is not an array *)

Lemma length_list_setitem (a : list R) i v a' :
  list_setitem a i v = Some a' → length a' = length a.
Proof.
  unfold list_setitem. destruct (py_index (length a) i); simpl; [| done].
  intros [= <-]. apply length_insert.
Qed.

Lemma length_broadcast_to len (v v' : list R) :
  broadcast_to len v = Some v' → length v' = len.
Proof.
  unfold broadcast_to. case_decide; [by intros [= <-] |].
  destruct v as [| x [| ? ?]]; [done | | done].
  intros [= <-]. apply length_replicate.
Qed.

Lemma py_bound_le (n : nat) (i : Z) : (py_bound n i ≤ n)%nat.
Proof. unfold py_bound. lia. Qed.

Lemma length_list_setslice (a : list R) lo hi v a' :
  list_setslice a lo hi v = Some a' → length a' = length a.
Proof.
  unfold list_setslice.
  pose proof (py_bound_le (length a) lo) as Hl.
  pose proof (py_bound_le (length a) hi) as Hh.
  destruct (broadcast_to _ v) as [v' |] eqn:E; simpl; [| done].
  intros [= <-]. apply length_broadcast_to in E.
  rewrite !length_app, length_take, length_drop, E. lia.
Qed.

Lemma length_list_put_at (v : list R) ks : ∀ a, length (list_put_at a ks v) = length a.
Proof.
  unfold list_put_at. generalize (zip ks v). intros l.
  induction l as [| [k x] l IH]; intros a; simpl; [done |].
  rewrite IH. apply length_insert.
Qed.

Lemma arrays_only_set_arr F a' p :
  F ≠ P_MPa → length a' = length (arr p F) → arrays_only p (set_arr F a' p).
Proof.
  intros HF Hlen. split; [apply same_env_set_arr |]. simpl. split.
  - unfold insert, fn_insert. by rewrite decide_False.
  - intros F'. unfold insert, fn_insert. by case_decide; subst.
Qed.

Lemma always_setitem F i v : F ≠ P_MPa → always arrays_only (setitem F i v).
Proof.
  intros HF p. unfold setitem, gets, lift, modify, mbind, M_bind.
  destruct (list_setitem (arr p F) i v) as [a' |] eqn:E; simpl.
  - apply arrays_only_set_arr; [done | by eapply length_list_setitem].
  - apply arrays_only_refl.
Qed.

Lemma always_setslice F lo hi v : F ≠ P_MPa → always arrays_only (setslice F lo hi v).
Proof.
  intros HF p. unfold setslice, gets, lift, modify, mbind, M_bind.
  destruct (list_setslice (arr p F) lo hi v) as [a' |] eqn:E; simpl.
  - apply arrays_only_set_arr; [done | by eapply length_list_setslice].
  - apply arrays_only_refl.
Qed.

Lemma always_put_idx F inds v : F ≠ P_MPa → always arrays_only (put_idx F inds v).
Proof.
  intros HF p. unfold put_idx, gets, lift, modify, mbind, M_bind.
  destruct (mapM _ inds) as [ks |]; simpl; [| apply arrays_only_refl].
  destruct (broadcast_to _ v) as [v' |]; simpl; [| apply arrays_only_refl].
  apply arrays_only_set_arr; [done | apply length_list_put_at].
Qed.

(** Walks through a program made of reads, array writes, loops and tests,
    for a relation [J] coarser than [arrays_only]; [other] closes what is
    left. *)
Ltac walk J Jrefl Jtrans Jao other :=
  repeat first
    [ progress (lazy zeta)
    | progress (unfold getitem, getslice, take_idx, next_z_gt, bulk, scalar, steps)
    | lazymatch goal with
      | |- always _ (setitem _ _ _) =>
          apply (always_weaken arrays_only J _ Jao), always_setitem; done
      | |- always _ (setslice _ _ _ _) =>
          apply (always_weaken arrays_only J _ Jao), always_setslice; done
      | |- always _ (put_idx _ _ _) =>
          apply (always_weaken arrays_only J _ Jao), always_put_idx; done
      | |- always _ (mret _) => apply (always_ret J Jrefl)
      | |- always _ (raise _) => apply (always_raise J Jrefl)
      | |- always _ (lift _ _) => apply (always_lift J Jrefl)
      | |- always _ (gets _) => apply (always_gets J Jrefl)
      end
    | other
    | lazymatch goal with
      | |- always _ (for_ _ _ _) =>
          apply (always_for J Jrefl Jtrans); intros ? ?
      | |- always _ (mbind _ _) =>
          apply (always_bind J Jtrans); [| intros ?]
      | |- always _ (if decide _ then _ else _) => case_decide
      end ].

Section Blocks.
Variable G : R.
Variable ClathrateLayers : option (ParamsStruct → M unit).
Variable Params : ParamsStruct.
Variable J : PlanetStruct → PlanetStruct → Prop.
Hypothesis J_refl : ∀ p, J p p.
Hypothesis J_trans : ∀ p q r, J p q → J q r → J p r.
Hypothesis J_ao : ∀ p q, arrays_only p q → J p q.
Hypothesis ClathrateLayers_ok : ∀ f, ClathrateLayers = Some f → always J (f Params).

Lemma always_increment_depth i m : always J (increment_depth G i m).
Proof. unfold increment_depth. walk J J_refl J_trans J_ao fail. Qed.

Lemma always_eos_assign_item eosref fn F i :
  F ≠ P_MPa → always J eosref → always J (eos_assign_item eosref fn F i).
Proof.
  intros HF Href. unfold eos_assign_item.
  walk J J_refl J_trans J_ao ltac:(exact Href).
Qed.

Lemma always_convect_step eosref i m :
  always J eosref → always J (convect_step G eosref i m).
Proof.
  intros Href. unfold convect_step.
  walk J J_refl J_trans J_ao
    ltac:(first [ apply always_increment_depth
                | apply always_eos_assign_item; [done | exact Href] ]).
Qed.

Lemma always_eos_assign_slice eosref fn F lo hi :
  F ≠ P_MPa → always J eosref → always J (eos_assign_slice eosref fn F lo hi).
Proof.
  intros HF Href. unfold eos_assign_slice.
  walk J J_refl J_trans J_ao ltac:(exact Href).
Qed.

Lemma always_eos_assign_idx eosref fn F inds :
  F ≠ P_MPa → always J eosref → always J (eos_assign_idx eosref fn F inds).
Proof.
  intros HF Href. unfold eos_assign_idx.
  walk J J_refl J_trans J_ao ltac:(exact Href).
Qed.

Lemma always_surfIceEOS_at key : always J (surfIceEOS_at key).
Proof. unfold surfIceEOS_at. walk J J_refl J_trans J_ao fail. Qed.

Lemma always_iceEOS_at key : always J (iceEOS_at key).
Proof. unfold iceEOS_at. walk J J_refl J_trans J_ao fail. Qed.

Lemma always_assign_lid_T top iEnd Tconv Ptop : always J (assign_lid_T top iEnd Tconv Ptop).
Proof. unfold assign_lid_T. walk J J_refl J_trans J_ao fail. Qed.

Lemma always_assign_lid_props eosref top iEnd :
  always J eosref → always J (assign_lid_props eosref top iEnd).
Proof.
  intros Href. unfold assign_lid_props.
  walk J J_refl J_trans J_ao ltac:(apply always_eos_assign_slice; [done | exact Href]).
Qed.

Lemma always_assign_TBL_T inds Tb Pb iLast : always J (assign_TBL_T inds Tb Pb iLast).
Proof. unfold assign_TBL_T. walk J J_refl J_trans J_ao fail. Qed.

Lemma always_assign_TBL_props eosref inds :
  always J eosref → always J (assign_TBL_props eosref inds).
Proof.
  intros Href. unfold assign_TBL_props.
  walk J J_refl J_trans J_ao ltac:(apply always_eos_assign_idx; [done | exact Href]).
Qed.

Lemma always_IceIConvect_lid_T c Ptop :
  always J (IceIConvect_lid_T ClathrateLayers Params c Ptop).
Proof.
  unfold IceIConvect_lid_T.
  apply (always_bind J J_trans); [apply (always_gets J J_refl) |].
  intros [|].
  - destruct ClathrateLayers as [f |] eqn:E.
    + apply (always_bind J J_trans); [by apply ClathrateLayers_ok | intros ?].
      apply (always_ret J J_refl).
    + apply (always_raise J J_refl).
  - walk J J_refl J_trans J_ao ltac:(apply always_assign_lid_T).
Qed.

(** Everything after the classifier writes arrays only. *)
Lemma always_after_classifier ph zb :
  always J (after_classifier G ClathrateLayers ph Params zb).
Proof.
  destruct ph; simpl.
  - unfold IceIConvect_three_zone.
    walk J J_refl J_trans J_ao
      ltac:(first [ apply always_IceIConvect_lid_T
                  | apply always_assign_lid_props, always_surfIceEOS_at
                  | apply always_assign_TBL_props, always_surfIceEOS_at
                  | apply always_assign_TBL_T
                  | apply always_increment_depth
                  | apply always_convect_step, always_surfIceEOS_at ]).
  - unfold IceIIIConvect_three_zone.
    walk J J_refl J_trans J_ao
      ltac:(first [ apply always_assign_lid_T
                  | apply always_assign_lid_props, always_surfIceEOS_at
                  | apply always_assign_TBL_props, always_surfIceEOS_at
                  | apply always_assign_TBL_T
                  | apply always_increment_depth
                  | apply always_convect_step, always_surfIceEOS_at ]).
  - unfold IceVConvect_three_zone.
    walk J J_refl J_trans J_ao
      ltac:(first [ apply always_assign_lid_T
                  | apply always_assign_lid_props, always_surfIceEOS_at
                  | apply always_assign_TBL_props, always_surfIceEOS_at
                  | apply always_assign_TBL_T
                  | apply always_increment_depth
                  | apply always_convect_step, always_iceEOS_at ]).
Qed.
End Blocks.

(** ** The scalar writes of the routines *)

Lemma kept_set_attr ph x v p : regime_attr ph x = true → kept ph p (set_attr x v p).
Proof.
  intros Hx. split; try done.
  intros y Hy. simpl. unfold insert, fn_insert. case_decide; [congruence | done].
Qed.

Lemma kept_set_QfromMantle_W ph v p : kept ph p (set_QfromMantle_W v p).
Proof. by split. Qed.

Lemma kept_set_clathMaxDepth_m v p : kept IceI p (set_Bulk clathMaxDepth_m v p).
Proof.
  split; try done.
  intros x Hx. simpl. unfold insert, fn_insert.
  case_decide; [by destruct (Hx eq_refl) | done].
Qed.

Section Routines.
Variable G : R.
Variable CDS2001 : Classifier.
Variable ClathrateLayers : option (ParamsStruct → M unit).
Variable Params : ParamsStruct.
Hypothesis ClathrateLayers_ok :
  ∀ f, ClathrateLayers = Some f → always (kept IceI) (f Params).

Lemma always_IceConvect ph :
  always (kept ph) (IceConvect G CDS2001 ClathrateLayers ph Params).
Proof.
  destruct ph; simpl.
  - unfold IceIConvect.
    walk (kept IceI) (kept_refl IceI) (kept_trans IceI) (kept_of_arrays_only IceI)
      ltac:(idtac; lazymatch goal with
        | |- always _ (modify _) =>
            apply always_modify; intros ?;
            first [ by apply kept_set_attr
                  | apply kept_set_QfromMantle_W
                  | apply kept_set_clathMaxDepth_m ]
        | |- always _ (surfIceEOS_at _) =>
            apply always_surfIceEOS_at;
            first [apply kept_refl | apply kept_trans | apply kept_of_arrays_only]
        | |- always _ (IceIConvect_three_zone _ _ _ _) =>
            apply (always_after_classifier G ClathrateLayers Params (kept IceI)
                     (kept_refl IceI) (kept_trans IceI) (kept_of_arrays_only IceI)
                     ClathrateLayers_ok IceI)
        end).
  - unfold IceIIIConvect.
    walk (kept IceIII) (kept_refl IceIII) (kept_trans IceIII) (kept_of_arrays_only IceIII)
      ltac:(idtac; lazymatch goal with
        | |- always _ (modify _) =>
            apply always_modify; intros ?;
            first [ by apply kept_set_attr | apply kept_set_QfromMantle_W ]
        | |- always _ (surfIceEOS_at _) =>
            apply always_surfIceEOS_at;
            first [apply kept_refl | apply kept_trans | apply kept_of_arrays_only]
        | |- always _ (IceIIIConvect_three_zone _ _) =>
            apply (always_after_classifier G None Params (kept IceIII)
                     (kept_refl IceIII) (kept_trans IceIII) (kept_of_arrays_only IceIII)
                     ltac:(done) IceIII)
        end).
  - unfold IceVConvect.
    walk (kept IceV) (kept_refl IceV) (kept_trans IceV) (kept_of_arrays_only IceV)
      ltac:(idtac; lazymatch goal with
        | |- always _ (modify _) =>
            apply always_modify; intros ?;
            first [ by apply kept_set_attr | apply kept_set_QfromMantle_W ]
        | |- always _ (surfIceEOS_at _) =>
            apply always_surfIceEOS_at;
            first [apply kept_refl | apply kept_trans | apply kept_of_arrays_only]
        | |- always _ (IceVConvect_three_zone _ _) =>
            apply (always_after_classifier G None Params (kept IceV)
                     (kept_refl IceV) (kept_trans IceV) (kept_of_arrays_only IceV)
                     ltac:(done) IceV)
        end).
Qed.
End Routines.

(** ** Up to the classifier and past it *)

Section PastClassifier.
Variable G : R.
Variable CDS2001 : Classifier.
Variable ClathrateLayers : option (ParamsStruct → M unit).
Variable n : nat.
Variable Params : ParamsStruct.

(** With a stack of the right size and the phase's table in place, the
    call gets to the classifier, stores its answer and takes one of the
    two branches. *)
Lemma IceConvect_past_classifier ph eos reg p :
  shells n p → phase_wf ph n p → lid_table ph p = Some eos →
  reg = phase_regime CDS2001 ph eos p →
  ¬ whole_layer_conduction ph reg p →
  IceConvect G CDS2001 ClathrateLayers ph Params p
  = after_classifier G ClathrateLayers ph Params (phase_thickness ph p)
      (enter_zones ph reg p).
Proof.
  intros Hn Hwf Heos Hreg Hwlc. destruct ph; simpl.
  - rewrite (IceIConvect_prologue G CDS2001 ClathrateLayers n Params eos reg) by done.
    mpure. mpure. rewrite !enter_zones_IceI_attr.
    change (attr (store_regime IceI reg p) eLid_m) with (conductiveLidThickness_m reg).
    change (attr (store_regime IceI reg p) deltaTBL_m)
      with (bottomBoundaryLayerThickness_m reg).
    by rewrite decide_False.
  - destruct Hwf as [HIb HIIIb]. unfold IceIIIConvect.
    mpure. mget n. mpure. mget n. mpure. mpure. mpure. mget n. mget n. mpure. mget n.
    mpure. mstep ltac:(by apply (resolves_surfIceEOS _ eos p Heos)). mpure.
    unfold phase_regime, phase_thickness in Hreg. rewrite <- Hreg.
    do 6 mpure. mpure. mpure.
    match goal with
    | |- context [decide ?P] => change P with (whole_layer_conduction IceIII reg p)
    end.
    by rewrite decide_False.
  - destruct Hwf as [HIIIb HSurf]. unfold IceVConvect.
    mpure. mget n. mpure. mget n. mpure. mpure. mpure. mget n. mget n. mpure. mget n.
    mpure. mstep ltac:(by apply (resolves_surfIceEOS _ eos p Heos)). mpure.
    unfold phase_regime, phase_thickness in Hreg. rewrite <- Hreg.
    do 6 mpure. mpure. mpure.
    match goal with
    | |- context [decide ?P] => change P with (whole_layer_conduction IceV reg p)
    end.
    by rewrite decide_False.
Qed.
End PastClassifier.

(** ** Errors before anything is written *)




Lemma surfIceEOS_at_missing key p :
  surfIceEOS (Ocean p) key = None → surfIceEOS_at key p = Raise KeyError p.
Proof. intros H. unfold surfIceEOS_at, gets, lift, mbind, M_bind. by rewrite H. Qed.

Lemma iceEOS_at_missing key p :
  iceEOS (Ocean p) key = None → iceEOS_at key p = Raise KeyError p.
Proof. intros H. unfold iceEOS_at, gets, lift, mbind, M_bind. by rewrite H. Qed.

(** X1: whatever the phase, the planet and the outcome (a return or any
    exception), a call never changes the pressure array, the size of any
    per-shell array, the step counts, the switches, the ocean table or the
    two dictionaries of ice tables, any bulk property (but
    [clathMaxDepth_m], for ice I) or any scalar attribute other than the
    five of the phase's own regime; this for the module as it is, and for
    any [ClathrateLayers] that keeps to the same. *)
Theorem X1_never_touched G CDS2001 ClathrateLayers Params ph p :
  (∀ f, ClathrateLayers = Some f → always (kept IceI) (f Params)) →
  kept ph p (planet_of (IceConvect G CDS2001 ClathrateLayers ph Params p)).
Proof. intros HCL. by apply always_IceConvect. Qed.

Lemma X1_never_touched_witness :
  kept IceV planet_V
    (planet_of (IceConvect test_G test_classifier None IceV test_Params planet_V)).
Proof.
  apply (X1_never_touched test_G test_classifier None test_Params IceV planet_V).
  intros f Hf. discriminate Hf.
Defined.




(** X3: with a stack of the right size, if [Ocean.surfIceEOS] has no entry
    for the phase ('Ih', 'III' or 'V'), the call raises KeyError while the
    classifier's arguments are put together, before writing anything. *)
Theorem X3_missing_table_KeyError G CDS2001 ClathrateLayers Params ph n p :
  shells n p → phase_wf ph n p → lid_table ph p = None →
  IceConvect G CDS2001 ClathrateLayers ph Params p = Raise KeyError p.
Proof.
  intros Hn Hwf Hkey. destruct ph; simpl in *.
  - unfold IceIConvect.
    mpure. mget n. mpure. mpure. mpure. mpure. mget n. mpure. mget n. mpure.
    apply bind_Raise. by apply surfIceEOS_at_missing.
  - destruct Hwf as [HIb HIIIb]. unfold IceIIIConvect.
    mpure. mget n. mpure. mget n. mpure. mpure. mpure. mget n. mget n. mpure. mget n.
    mpure. apply bind_Raise. by apply surfIceEOS_at_missing.
  - destruct Hwf as [HIIIb HSurf]. unfold IceVConvect.
    mpure. mget n. mpure. mget n. mpure. mpure. mpure. mget n. mget n. mpure. mget n.
    mpure. apply bind_Raise. by apply surfIceEOS_at_missing.
Qed.

Lemma X3_missing_table_KeyError_witness :
  IceConvect test_G test_classifier None IceI test_Params planet_no_tables
  = Raise KeyError planet_no_tables.
Proof.
  apply (X3_missing_table_KeyError test_G test_classifier None test_Params IceI 6
           planet_no_tables).
  - intros F. destruct F; reflexivity.
  - simpl. lia.
  - reflexivity.
Defined.

(** ** Whatever happens past the classifier *)

Lemma next_z_gt_none x p :
  next_index_gt (arr p z_m) x = None → next_z_gt x p = Raise StopIteration p.
Proof. intros H. unfold next_z_gt, gets, lift, mbind, M_bind. by rewrite H. Qed.

Lemma attr_enter_zones ph reg p : attr (enter_zones ph reg p) = attr (store_regime ph reg p).
Proof. destruct ph; simpl; [| done ..]. unfold cap_clathrate. by case_decide. Qed.

Lemma Ocean_enter_zones ph reg p : Ocean (enter_zones ph reg p) = Ocean (store_regime ph reg p).
Proof. destruct ph; simpl; [| done ..]. unfold cap_clathrate. by case_decide. Qed.

Lemma Steps_enter_zones ph reg p : Steps (enter_zones ph reg p) = Steps p.
Proof. destruct ph; simpl; [| done ..]. unfold cap_clathrate. by case_decide. Qed.

Lemma Do_enter_zones ph reg p : Do (enter_zones ph reg p) = Do p.
Proof. destruct ph; simpl; [| done ..]. unfold cap_clathrate. by case_decide. Qed.

Lemma shell_enter_zones ph reg p F j : shell (enter_zones ph reg p) F j = shell p F j.
Proof. unfold shell. by rewrite arr_enter_zones. Qed.

(** X4: in the three-zone branch, whatever the outcome (a return or any
    exception), the planet carries the classifier's regime in the phase's
    five attributes and the classifier's heat flow in [QfromMantle_W] (ice I
    recomputes it in the conduction-only branch alone), and the only bulk
    property that can differ is [clathMaxDepth_m], which ice I has set to
    [eLid_m] if [zClath_m] exceeded it. *)
Theorem X4_three_zone_scalars G CDS2001 ClathrateLayers Params ph n eos reg p :
  (∀ f, ClathrateLayers = Some f → always arrays_only (f Params)) →
  shells n p → phase_wf ph n p → lid_table ph p = Some eos →
  reg = phase_regime CDS2001 ph eos p →
  ¬ whole_layer_conduction ph reg p →
  let q := planet_of (IceConvect G CDS2001 ClathrateLayers ph Params p) in
  attr q = attr (store_regime ph reg p)
  ∧ QfromMantle_W (Ocean q) = heatFlowFromBelow_W reg
  ∧ (∀ x, x ≠ clathMaxDepth_m → Bulk q x = Bulk p x)
  ∧ Bulk q clathMaxDepth_m
    = match ph with
      | IceI => if decide (attr p zClath_m > conductiveLidThickness_m reg)
                then conductiveLidThickness_m reg
                else Bulk p clathMaxDepth_m
      | _ => Bulk p clathMaxDepth_m
      end.
Proof.
  intros HCL Hn Hwf Heos Hreg Hwlc q. subst q.
  rewrite (IceConvect_past_classifier G CDS2001 ClathrateLayers n Params ph eos reg)
    by done.
  destruct (always_after_classifier G ClathrateLayers Params arrays_only
              arrays_only_refl arrays_only_trans (λ _ _ H, H) HCL ph
              (phase_thickness ph p) (enter_zones ph reg p))
    as ((HB & HS & HD & HO & HA) & _).
  rewrite HA, HO, HB.
  split; [apply attr_enter_zones |].
  split; [rewrite Ocean_enter_zones; by destruct ph |].
  split; [intros x Hx; by apply Bulk_enter_zones |].
  destruct ph; [| done ..].
  unfold enter_zones, cap_clathrate.
  change (attr (store_regime IceI reg p) zClath_m) with (attr p zClath_m).
  destruct (decide (attr p zClath_m > conductiveLidThickness_m reg)); [| done].
  simpl. unfold insert, fn_insert. by rewrite decide_True.
Qed.

Lemma X4_three_zone_scalars_witness :
  let q := planet_of (IceConvect test_G test_classifier None IceI test_Params
                        planet_clath_2) in
  attr q = attr (store_regime IceI test_regime planet_clath_2)
  ∧ QfromMantle_W (Ocean q) = 1e9
  ∧ (∀ x, x ≠ clathMaxDepth_m → Bulk q x = Bulk planet_clath_2 x)
  ∧ Bulk q clathMaxDepth_m
    = if decide (attr planet_clath_2 zClath_m > 1500)
      then 1500 else Bulk planet_clath_2 clathMaxDepth_m.
Proof.
  apply (X4_three_zone_scalars test_G test_classifier None test_Params IceI 6
           surfTable test_regime planet_clath_2).
  - intros f Hf. discriminate Hf.
  - by apply shells_test_planet.
  - simpl. lia.
  - reflexivity.
  - reflexivity.
  - apply whole_layer_thick.
Defined.

(** X5: outside whole-layer conduction, if no shell of [z_m] is deeper than
    the lid threshold, or none deeper than the boundary-layer threshold,
    the search for the transition index raises StopIteration; the regime is
    stored by then, and no array has been written. *)
Theorem X5_no_deeper_shell_StopIteration G CDS2001 ClathrateLayers Params ph n eos reg p :
  shells n p → phase_wf ph n p → lid_table ph p = Some eos →
  reg = phase_regime CDS2001 ph eos p →
  ¬ whole_layer_conduction ph reg p →
  next_index_gt (arr p z_m) (lid_threshold ph reg p) = None
  ∨ next_index_gt (arr p z_m) (TBL_threshold ph reg p) = None →
  IceConvect G CDS2001 ClathrateLayers ph Params p
  = Raise StopIteration (enter_zones ph reg p)
  ∧ arr (enter_zones ph reg p) = arr p.
Proof.
  intros Hn Hwf Heos Hreg Hwlc Hnone.
  split; [| apply arr_enter_zones].
  rewrite (IceConvect_past_classifier G CDS2001 ClathrateLayers n Params ph eos reg)
    by done.
  set (pre := enter_zones ph reg p).
  assert (shells n pre) as Hnpre by (by apply shells_enter_zones).
  assert (arr pre = arr p) as Harr by apply arr_enter_zones.
  assert (attr pre = attr (store_regime ph reg p)) as Hattr by apply attr_enter_zones.
  assert (Steps pre = Steps p) as HS by apply Steps_enter_zones.
  assert (∀ F j, shell pre F j = shell p F j) as Hsh
    by (intros; apply shell_enter_zones).
  destruct ph; simpl in Hwf |- *.
  - unfold IceIConvect_three_zone. mpure. rewrite Hattr.
    change (attr (store_regime IceI reg p) eLid_m) with (conductiveLidThickness_m reg).
    destruct (next_index_gt (arr p z_m) (lid_threshold IceI reg p)) as [c |] eqn:Hc.
    + destruct Hnone as [? | Hd]; [done |].
      mstep ltac:(apply next_z_gt_ok; rewrite Harr; exact Hc).
      mpure. rewrite Hattr.
      change (attr (store_regime IceI reg p) deltaTBL_m)
        with (bottomBoundaryLayerThickness_m reg).
      apply bind_Raise. apply next_z_gt_none. by rewrite Harr.
    + apply bind_Raise. apply next_z_gt_none. by rewrite Harr.
  - destruct Hwf as [HIb HIIIb]. unfold IceIIIConvect_three_zone.
    mpure. rewrite HS. mgetH n Hnpre. mpure. rewrite Hattr.
    change (attr (store_regime IceIII reg p) eLidIII_m) with (conductiveLidThickness_m reg).
    rewrite Hsh.
    destruct (next_index_gt (arr p z_m) (lid_threshold IceIII reg p)) as [c |] eqn:Hc.
    + destruct Hnone as [? | Hd]; [done |].
      mstep ltac:(apply next_z_gt_ok; rewrite Harr; exact Hc).
      mpure. rewrite Hattr.
      change (attr (store_regime IceIII reg p) deltaTBLIII_m)
        with (bottomBoundaryLayerThickness_m reg).
      apply bind_Raise. apply next_z_gt_none. by rewrite Harr.
    + apply bind_Raise. apply next_z_gt_none. by rewrite Harr.
  - destruct Hwf as [HIIIb HSurf]. unfold IceVConvect_three_zone.
    mpure. rewrite HS. mgetH n Hnpre. mpure. rewrite Hattr.
    change (attr (store_regime IceV reg p) eLidV_m) with (conductiveLidThickness_m reg).
    rewrite Hsh.
    destruct (next_index_gt (arr p z_m) (lid_threshold IceV reg p)) as [c |] eqn:Hc.
    + destruct Hnone as [? | Hd]; [done |].
      mstep ltac:(apply next_z_gt_ok; rewrite Harr; exact Hc).
      mpure. rewrite Hattr.
      change (attr (store_regime IceV reg p) deltaTBLV_m)
        with (bottomBoundaryLayerThickness_m reg).
      apply bind_Raise. apply next_z_gt_none. by rewrite Harr.
    + apply bind_Raise. apply next_z_gt_none. by rewrite Harr.
Qed.

Lemma next_none_test Tb T st clath x :
  5000 <= x → next_index_gt (arr (test_planet Tb T st clath) z_m) x = None.
Proof.
  intros Hx. unfold next_index_gt. simpl.
  do 6 (rewrite decide_False by lra; simpl). reflexivity.
Qed.

Lemma X5_no_deeper_shell_StopIteration_witness :
  IceConvect test_G thin_classifier None IceV test_Params planet_V
  = Raise StopIteration (enter_zones IceV thin_regime planet_V)
  ∧ arr (enter_zones IceV thin_regime planet_V) = arr planet_V.
Proof.
  apply (X5_no_deeper_shell_StopIteration test_G thin_classifier None test_Params IceV 6
           surfTable thin_regime planet_V).
  - by apply shells_test_planet.
  - simpl. lia.
  - reflexivity.
  - reflexivity.
  - unfold whole_layer_conduction, phase_thickness, shell. simpl. lra.
  - right. apply next_none_test.
    unfold TBL_threshold, phase_thickness, phase_top, shell. simpl. lra.
Defined.

(** ** The guard, the check and the frame *)

(** X6: in the three-zone branch of ice I, more clathrate layers than lid
    shells ([Steps.nClath > nConduct]) end the call in ValueError whether
    [Do.CLATHRATE] is set or not, before any array is written. *)
Theorem X6_clathrate_guard G CDS2001 ClathrateLayers Params n eos reg c d p :
  shells n p → phase_wf IceI n p → lid_table IceI p = Some eos →
  reg = phase_regime CDS2001 IceI eos p →
  ¬ whole_layer_conduction IceI reg p →
  next_index_gt (arr p z_m) (lid_threshold IceI reg p) = Some c →
  next_index_gt (arr p z_m) (TBL_threshold IceI reg p) = Some d →
  (nClath (Steps p) > c)%Z →
  IceIConvect G CDS2001 ClathrateLayers Params p
  = Raise ValueError (enter_zones IceI reg p)
  ∧ arr (enter_zones IceI reg p) = arr p.
Proof.
  intros Hn Hwf Heos Hreg Hwlc Hc Hd Hcl.
  split; [| apply arr_enter_zones].
  by apply (IceIConvect_clathrate_guard G CDS2001 n Params ClathrateLayers eos reg c d).
Qed.

Lemma X6_clathrate_guard_witness :
  CLATHRATE (Do planet_three_layers) = false
  ∧ IceIConvect test_G test_classifier None test_Params planet_three_layers
    = Raise ValueError (enter_zones IceI test_regime planet_three_layers)
  ∧ arr (enter_zones IceI test_regime planet_three_layers) = arr planet_three_layers.
Proof.
  split; [reflexivity |].
  apply (X6_clathrate_guard test_G test_classifier None test_Params 6
           surfTable test_regime 2 3 planet_three_layers).
  - by apply shells_test_planet.
  - simpl. lia.
  - reflexivity.
  - reflexivity.
  - apply whole_layer_thick.
  - apply next_lid_clath.
  - apply next_TBL_clath.
  - simpl. lia.
Defined.

Section Outcomes.
Variable G : R.
Variable CDS2001 : Classifier.
Variable ClathrateLayers : option (ParamsStruct → M unit).
Variable Params : ParamsStruct.

(** X7: every way a three-zone call (both transition shells found, lid
    not empty) can end in ValueError.  Either it is ice I stopped by its
    guard on the clathrate layers ([Steps.nClath > nConduct]), the regime
    stored and no array written; or it is ice I past the guard with
    [Do.CLATHRATE] set and [ClathrateLayers] bound to a function, the
    error coming from that function or after it; or it is ice III or
    ice V failing the bottom-temperature check, and the planet is left
    half-way: the lid holds its power law, the convecting shells their
    adiabat and the convecting zone's properties, the last of them is
    warmer than the bottom temperature, the regime is stored, and every
    shell from the boundary layer on (beyond the lid's base) is as it
    was. *)
Theorem X7_fatal_error_state ph n eosS eosC reg c d p q :
  zones_reached CDS2001 ph n eosS eosC reg c d p →
  IceConvect G CDS2001 ClathrateLayers ph Params p = Raise ValueError q →
  (ph = IceI ∧ (nClath (Steps p) > c)%Z
   ∧ q = enter_zones IceI reg p ∧ arr q = arr p)
  ∨ (ph = IceI ∧ (nClath (Steps p) ≤ c)%Z ∧ CLATHRATE (Do p) = true
     ∧ ∃ f, ClathrateLayers = Some f)
  ∨ (ph ≠ IceI
     ∧ shell q T_K (d - 1) > phase_Tb ph p
     ∧ (∀ i, (phase_top ph p ≤ i < c)%Z →
          shell q T_K i
          = convectedTemperature_K reg ** (shell p P_MPa i / shell p P_MPa c)
            * shell p T_K (phase_top ph p) ** (1 - shell p P_MPa i / shell p P_MPa c))
     ∧ (∀ i, (c ≤ i < d)%Z → AdiabatEq q i ∧ PropsEq eosC q i)
     ∧ (∀ F j, (Z.max c (d - 1) < j)%Z → shell q F j = shell p F j)
     ∧ attr q = attr (store_regime ph reg p)).
Proof.
  intros (Hn & Hwf & HeosS & HeosC & Hreg & Hwlc & Hc & Hd & Htop) Hrun.
  assert (ph = IceI → (nClath (Steps p) ≤ c)%Z → CLATHRATE (Do p) = false →
          three_zone_entry CDS2001 ph n eosS eosC reg c d p) as entryI
    by (intros; repeat (split; [done |]); done).
  assert (ph ≠ IceI → three_zone_entry CDS2001 ph n eosS eosC reg c d p) as entryD
    by (intros; repeat (split; [done |]); done).
  assert (ph = IceI ∨ ph ≠ IceI) as [-> | Hph]
    by (destruct ph; [by left | by right ..]).
  - destruct (decide (nClath (Steps p) > c)%Z) as [Hgt | Hle].
    { left. split; [done |]. split; [done |].
      simpl in Hrun.
      rewrite (IceIConvect_clathrate_guard G CDS2001 n Params ClathrateLayers
                 eosS reg c d p Hn Hwf HeosS Hreg Hwlc Hc Hd Hgt) in Hrun.
      injection Hrun as <-. split; [done | apply (arr_enter_zones IceI)]. }
    right. left. split; [done |]. split; [lia |].
    destruct (CLATHRATE (Do p)) eqn:Hcl.
    + split; [done |].
      pose proof (IceIConvect_clathrate_NameError G CDS2001 n Params ClathrateLayers
                    eosS reg c d p Hn Hwf HeosS Hreg Hwlc Hc Hd ltac:(lia) Hcl) as HNE.
      destruct ClathrateLayers as [f |]; [by exists f |].
      simpl in Hrun. rewrite HNE in Hrun. discriminate.
    + destruct (IceConvect_zones G CDS2001 ClathrateLayers n Params IceI eosS eosC
                  reg c d p (entryI eq_refl ltac:(lia) eq_refl))
        as (p4 & m4 & _ & _ & _ & [(Hph & _) | (_ & p' & Hok & _)]); [done |].
      rewrite Hrun in Hok. discriminate.
  - right. right.
    assert (0 ≤ phase_top ph p < c)%Z as Htop'
      by (destruct ph; simpl in *; lia).
    destruct (IceConvect_zones G CDS2001 ClathrateLayers n Params ph eosS eosC reg c d p
                (entryD Hph))
      as (p4 & m4 & _ & Henv & Hup & [(_ & Hgt & Hraise) | (_ & p' & Hok & _)]);
      [| rewrite Hrun in Hok; discriminate].
    rewrite Hrun in Hraise. injection Hraise as ->.
    destruct Hup as [UP UH UM ULT ULP UCT UCP UTOP UF].
    split; [done |]. split; [done |].
    split; [intros i Hi; by rewrite ULT |].
    split; [intros i Hi; split; [by apply UCT | by apply UCP] |].
    split; [intros F j Hj; apply UF; lia |].
    destruct Henv as (_ & _ & _ & _ & ->). apply attr_enter_zones.
Qed.

(** X8: a three-zone call that returns has written nothing above the
    phase's top shell nor below the last shell it updates, in any array,
    and has kept the depth, radius and gravity of the top shell. *)
Theorem X8_frame ph n eosS eosC reg c d p :
  three_zone_entry CDS2001 ph n eosS eosC reg c d p →
  no_fatal_error (IceConvect G CDS2001 ClathrateLayers ph Params) p →
  ∃ p',
    IceConvect G CDS2001 ClathrateLayers ph Params p = Ok () p'
    ∧ (∀ F j, (0 ≤ j < phase_top ph p ∨ Z.max c (last_updated ph d p) < j)%Z →
         shell p' F j = shell p F j)
    ∧ shell p' z_m (phase_top ph p) = shell p z_m (phase_top ph p)
    ∧ shell p' r_m (phase_top ph p) = shell p r_m (phase_top ph p)
    ∧ shell p' g_ms2 (phase_top ph p) = shell p g_ms2 (phase_top ph p).
Proof.
  intros entry Hfatal.
  destruct (three_zone_returns G CDS2001 ClathrateLayers Params
              _ _ _ _ _ _ _ _ entry Hfatal)
    as (p' & Hrun & Henv & Hcd & Htop & Hdn & Hbot & Hpost).
  destruct Hpost as [TP TH TLT TLP TCT TCP TTT TTP TTOP TF].
  exists p'. split; [exact Hrun |].
  split.
  { intros F j Hj. unfold last_updated in Hj. apply TF; lia. }
  split; [apply TTOP; auto |]. split; apply TTOP; auto.
Qed.
End Outcomes.

Lemma entry_V_cold :
  three_zone_entry test_classifier IceV 6 surfTable deepTable test_regime 3 4 planet_V_cold.
Proof.
  split; [intros F; destruct F; reflexivity |].
  split; [simpl; lia |].
  split; [reflexivity |]. split; [reflexivity |]. split; [reflexivity |].
  split.
  { unfold whole_layer_conduction, phase_thickness, shell. simpl. lra. }
  split.
  { apply (next_TBL_test 272.356 T_guess (Steps planet_V) false).
    unfold lid_threshold, phase_top, shell. simpl. lra. }
  split.
  { apply (next_deep_test 272.356 T_guess (Steps planet_V) false).
    unfold TBL_threshold, phase_thickness, phase_top, shell. simpl. lra. }
  split; [simpl; lia |].
  intros [=].
Qed.

Lemma test_run_V_cold :
  ∃ q, IceConvect test_G test_classifier None IceV test_Params planet_V_cold
       = Raise ValueError q.
Proof.
  destruct (deep_phase_checks_bottom_temperature test_G test_classifier None test_Params
              IceV 6 surfTable deepTable test_regime 3 4 planet_V_cold ltac:(done)
              entry_V_cold) as (p4 & m4 & Hup & Hraise).
  exists p4. apply Hraise.
  destruct Hup as [UP UH UM ULT ULP UCT UCP UTOP UF].
  pose proof (UCT 3%Z ltac:(lia)) as HT3.
  unfold AdiabatEq in HT3. change (4 - 1)%Z with 3%Z.
  change (3 - 1)%Z with 2%Z in HT3.
  destruct (ULP 2%Z) as (Hrho & HCp & Halpha & _); [simpl; lia |].
  simpl in Hrho, HCp, Halpha.
  rewrite Hrho, HCp, Halpha in HT3.
  rewrite !(shell_of_arr_eq P_MPa planet_V_cold p4) in HT3 by done.
  assert (∀ i, (0 ≤ i ≤ 5)%Z → shell planet_V_cold P_MPa i = 0.1 * IZR i) as HP
    by (intros i Hi; apply (test_P 272.356 T_guess (Steps planet_V) false i Hi)).
  rewrite !HP in HT3 by lia.
  assert (120 <= shell p4 T_K 2) as HT2.
  { rewrite ULT by (simpl; lia).
    rewrite <- (power_law_same 120 (shell planet_V_cold P_MPa 3)
                  (shell planet_V_cold P_MPa 2)) at 1 by lra.
    replace (shell planet_V_cold T_K (phase_top IceV planet_V_cold)) with 120
      by (unfold shell; simpl; lra).
    apply power_law_mono_bottom; [| simpl; lra].
    rewrite !HP by lia. lra. }
  change (phase_Tb IceV planet_V_cold) with 100. lra.
Qed.

Lemma zones_reached_V_cold :
  zones_reached test_classifier IceV 6 surfTable deepTable test_regime 3 4 planet_V_cold.
Proof.
  destruct entry_V_cold as (H1 & H2 & H3 & H4 & H5 & H6 & H7 & H8 & H9 & _).
  repeat (split; [done |]). done.
Qed.

Lemma X7_fatal_error_state_witness :
  ∃ q, IceConvect test_G test_classifier None IceV test_Params planet_V_cold
       = Raise ValueError q
     ∧ shell q T_K 3 > 100
     ∧ (∀ i, (1 ≤ i < 3)%Z →
          shell q T_K i
          = 243 ** (shell planet_V_cold P_MPa i / shell planet_V_cold P_MPa 3)
            * shell planet_V_cold T_K 1
              ** (1 - shell planet_V_cold P_MPa i / shell planet_V_cold P_MPa 3))
     ∧ (∀ i, (3 ≤ i < 4)%Z → AdiabatEq q i ∧ PropsEq deepTable q i)
     ∧ (∀ F j, (3 < j)%Z → shell q F j = shell planet_V_cold F j).
Proof.
  destruct test_run_V_cold as [q Hrun].
  exists q. split; [exact Hrun |].
  destruct (X7_fatal_error_state test_G test_classifier None test_Params
              IceV 6 surfTable deepTable test_regime 3 4 planet_V_cold q
              zones_reached_V_cold Hrun)
    as [(Hph & _) | [(Hph & _) | (_ & Hgt & Hlid & Hconv & Hframe & _)]];
    [discriminate Hph | discriminate Hph |].
  split; [exact Hgt |]. split; [exact Hlid |]. split; [exact Hconv |].
  exact Hframe.
Defined.

Lemma X8_frame_witness :
  ∃ p',
    IceConvect test_G test_classifier None IceV test_Params planet_V = Ok () p'
    ∧ (∀ F j, (0 ≤ j < 1 ∨ 5 < j)%Z → shell p' F j = shell planet_V F j)
    ∧ shell p' z_m 1 = shell planet_V z_m 1
    ∧ shell p' r_m 1 = shell planet_V r_m 1
    ∧ shell p' g_ms2 1 = shell planet_V g_ms2 1.
Proof.
  exact (X8_frame test_G test_classifier None test_Params
           IceV 6 surfTable deepTable test_regime 3 4 planet_V
           entry_V no_fatal_planet_V).
Defined.

(** ** Ice I from its inputs *)

Lemma next_index_gt_exists (z : list R) x (k : nat) v :
  z !! k = Some v → v > x →
  ∃ c, next_index_gt z x = Some c ∧ (0 ≤ c ≤ Z.of_nat k)%Z.
Proof.
  intros Hk Hv. unfold next_index_gt.
  destruct (list_find_elem_of (λ val, val > x) z v) as [[i y] Hfind];
    [by eapply list_elem_of_lookup_2 | done |].
  rewrite Hfind. simpl. eexists. split; [done |].
  apply list_find_Some in Hfind as (_ & _ & Hmin).
  destruct (decide (k < i)%nat) as [Hlt | ]; [| lia].
  by destruct (Hmin k v Hk Hlt).
Qed.

Lemma next_index_gt_pos (z : list R) x c v0 :
  next_index_gt z x = Some c → z !! 0%nat = Some v0 → v0 <= x → (1 ≤ c)%Z.
Proof.
  unfold next_index_gt. intros Hc H0 Hv0.
  destruct (list_find _ z) as [[i y] |] eqn:E; [| done].
  simpl in Hc. injection Hc as <-.
  apply list_find_Some in E as (Hi & Hy & _).
  destruct i; [| lia]. rewrite H0 in Hi. injection Hi as ->. lra.
Qed.

Lemma lookup_shell n p F (i : Z) :
  shells n p → (0 ≤ i < Z.of_nat n)%Z → arr p F !! Z.to_nat i = Some (shell p F i).
Proof.
  intros Hn Hi. unfold shell. apply list_lookup_lookup_total_lt. rewrite Hn. lia.
Qed.

(** X9: ice I always returns from its three-zone branch, given only its
    inputs: a stack of the right size, the 'Ih' table, clathrates off with
    at most one clathrate layer declared, a first shell no deeper than the
    lid and a boundary layer of positive thickness.  Both searches succeed,
    the lid has at least one shell, and the boundary layer starts no deeper
    than shell [nIbottom - 1], the one the layer thickness was read from. *)
Theorem X9_IceI_returns G CDS2001 ClathrateLayers Params n eos reg p :
  shells n p → phase_wf IceI n p → lid_table IceI p = Some eos →
  reg = phase_regime CDS2001 IceI eos p →
  ¬ whole_layer_conduction IceI reg p →
  0 < bottomBoundaryLayerThickness_m reg →
  shell p z_m 0 <= conductiveLidThickness_m reg →
  CLATHRATE (Do p) = false → (nClath (Steps p) ≤ 1)%Z →
  ∃ c d p',
    next_index_gt (arr p z_m) (lid_threshold IceI reg p) = Some c
    ∧ next_index_gt (arr p z_m) (TBL_threshold IceI reg p) = Some d
    ∧ (1 ≤ c ≤ d)%Z ∧ (d ≤ nIbottom (Steps p) - 1)%Z
    ∧ IceIConvect G CDS2001 ClathrateLayers Params p = Ok () p'.
Proof.
  intros Hn Hwf Heos Hreg Hwlc HdTBL Hz0 Hcl HnCl.
  pose proof Hwf as HIb. simpl in HIb.
  unfold whole_layer_conduction in Hwlc. apply Rnot_le_lt in Hwlc.
  pose proof (lookup_shell n p z_m (nIbottom (Steps p) - 1) Hn ltac:(lia)) as Hzb.
  pose proof (lookup_shell n p z_m 0 Hn ltac:(lia)) as Hz0'.
  destruct (next_index_gt_exists _ (lid_threshold IceI reg p) _ _ Hzb) as (c & Hc & Hck).
  { unfold lid_threshold. simpl in *. lra. }
  destruct (next_index_gt_exists _ (TBL_threshold IceI reg p) _ _ Hzb) as (d & Hd & Hdk).
  { unfold TBL_threshold. simpl in *. lra. }
  assert (1 ≤ c)%Z as Hc1.
  { eapply next_index_gt_pos; [exact Hc | exact Hz0' | done]. }
  assert (c ≤ d)%Z as Hcd.
  { eapply next_index_gt_mono; [| exact Hc | exact Hd].
    unfold lid_threshold, TBL_threshold. simpl in *. lra. }
  assert (three_zone_entry CDS2001 IceI n eos eos reg c d p) as entry.
  { split; [done |]. split; [done |]. split; [done |]. split; [done |].
    split; [done |]. split; [unfold whole_layer_conduction; lra |].
    split; [done |]. split; [done |]. split; [simpl; lia |].
    intros _. split; [lia | done]. }
  destruct (IceI_runs_to_the_end G CDS2001 ClathrateLayers Params _ _ _ _ _ _ _ entry)
    as [p' Hrun].
  exists c, d, p'.
  split; [done |]. split; [done |]. split; [lia |]. split; [lia |]. exact Hrun.
Qed.

Lemma X9_IceI_returns_witness :
  ∃ c d p',
    next_index_gt (arr planet_I z_m) (lid_threshold IceI test_regime planet_I) = Some c
    ∧ next_index_gt (arr planet_I z_m) (TBL_threshold IceI test_regime planet_I) = Some d
    ∧ (1 ≤ c ≤ d)%Z ∧ (d ≤ 5 - 1)%Z
    ∧ IceIConvect test_G test_classifier None test_Params planet_I = Ok () p'.
Proof.
  apply (X9_IceI_returns test_G test_classifier None test_Params 6 surfTable
           test_regime planet_I).
  - by apply shells_test_planet.
  - simpl. lia.
  - reflexivity.
  - reflexivity.
  - apply whole_layer_thick.
  - simpl. lra.
  - unfold shell. simpl. lra.
  - reflexivity.
  - simpl. lia.
Defined.

(** ** The ends of the power laws *)

Lemma fpow_0 x : x ** 0 = 1.
Proof. unfold fpow, Rpower. by rewrite Rmult_0_l, exp_0. Qed.

Lemma fpow_1 x : 0 < x → x ** 1 = x.
Proof. apply Rpower_1. Qed.

Section Profile.
Variable G : R.
Variable CDS2001 : Classifier.
Variable ClathrateLayers : option (ParamsStruct → M unit).
Variable Params : ParamsStruct.

(** X10: in a three-zone profile the two power laws meet their end
    points: if the pressure of the phase's bottom shell is the bottom
    pressure (not zero) and the bottom temperature is positive, that
    shell ends at exactly the bottom temperature; and if the top shell is
    at zero pressure (the pressure at the lid's base not being zero) and
    its temperature is positive, it keeps its temperature. *)
Theorem X10_profile_end_points ph n eosS eosC reg c d p :
  three_zone_entry CDS2001 ph n eosS eosC reg c d p →
  no_fatal_error (IceConvect G CDS2001 ClathrateLayers ph Params) p →
  ∃ p',
    IceConvect G CDS2001 ClathrateLayers ph Params p = Ok () p'
    ∧ ((d ≤ phase_bottom ph p)%Z → 0 < phase_Tb ph p → phase_Pb ph p ≠ 0 →
       shell p P_MPa (phase_bottom ph p) = phase_Pb ph p →
       shell p' T_K (phase_bottom ph p) = phase_Tb ph p)
    ∧ (shell p P_MPa (phase_top ph p) = 0 → shell p P_MPa c ≠ 0 →
       0 < shell p T_K (phase_top ph p) →
       shell p' T_K (phase_top ph p) = shell p T_K (phase_top ph p)).
Proof.
  intros entry Hfatal.
  destruct (three_zone_returns G CDS2001 ClathrateLayers Params
              _ _ _ _ _ _ _ _ entry Hfatal)
    as (p' & Hrun & Henv & Hcd & Htop & Hdn & Hbot & Hpost).
  destruct Hpost as [TP TH TLT TLP TCT TCP TTT TTP TTOP TF].
  exists p'. split; [exact Hrun |]. split.
  - intros Hde HTb HPb HP. rewrite TTT by lia. unfold power_law. rewrite HP.
    replace (phase_Pb ph p / phase_Pb ph p) with 1 by (by field).
    replace (1 - 1) with 0 by lra.
    rewrite fpow_0, fpow_1 by done. lra.
  - intros HP HPc HT. rewrite TLT by lia. unfold power_law. rewrite HP.
    replace (0 / shell p P_MPa c) with 0 by (by field).
    replace (1 - 0) with 1 by lra.
    rewrite fpow_0, fpow_1 by done. lra.
Qed.
End Profile.

Lemma X10_profile_end_points_witness :
  ∃ p',
    IceConvect test_G test_classifier None IceI test_Params planet_I = Ok () p'
    ∧ shell p' T_K 5 = 272.356
    ∧ shell p' T_K 0 = 75.
Proof.
  destruct (X10_profile_end_points test_G test_classifier None test_Params
              IceI 6 surfTable surfTable test_regime 2 3 planet_I
              entry_planet_I no_fatal_planet_I) as (p' & Hrun & Hbottom & Htop).
  exists p'. split; [exact Hrun |]. split.
  - apply Hbottom; [simpl; lia | simpl; lra | simpl; lra |].
    unfold shell. simpl. lra.
  - replace 75 with (shell planet_I T_K (phase_top IceI planet_I))
      by (unfold shell; simpl; lra).
    apply Htop; unfold shell; simpl; lra.
Defined.

(** ** Temperatures down a three-zone profile *)

Lemma exp_le x y : x <= y → exp x <= exp y.
Proof. intros [Hlt | ->]; [left; by apply exp_increasing | lra]. Qed.

Lemma ln_le_pos x y : 0 < x → x <= y → ln x <= ln y.
Proof. intros Hx [Hlt | ->]; [left; by apply ln_increasing | lra]. Qed.

(** Between a cooler top and a warmer bottom the power law rises with the
    pressure ratio. *)
Lemma power_law_mono_P Tb Ta Pref P1 P2 :
  0 < Ta <= Tb → P1 / Pref <= P2 / Pref →
  power_law Tb Ta Pref P1 <= power_law Tb Ta Pref P2.
Proof.
  intros [HTa HTab] HP. unfold power_law, fpow, Rpower.
  rewrite <- !exp_plus. apply exp_le.
  pose proof (ln_le_pos Ta Tb HTa HTab) as Hln.
  nra.
Qed.

Lemma adiabat_step_ge T alpha Cp rho dP :
  0 < T → 0 <= alpha → 0 < Cp → 0 < rho → 0 <= dP →
  T <= T + T * alpha / Cp / rho * dP * 1e6.
Proof.
  intros HT Ha HCp Hrho HdP.
  assert (0 <= T * alpha / Cp / rho * dP * 1e6); [| lra].
  apply Rmult_le_pos; [| lra]. apply Rmult_le_pos; [| done].
  apply Rmult_le_pos; [| left; by apply Rinv_0_lt_compat].
  apply Rmult_le_pos; [| left; by apply Rinv_0_lt_compat].
  apply Rmult_le_pos; lra.
Qed.

Section Temperatures.
Variable G : R.
Variable CDS2001 : Classifier.
Variable ClathrateLayers : option (ParamsStruct → M unit).
Variable Params : ParamsStruct.

(** Ice III and ice V only return when the convecting zone has stayed at
    or below the bottom temperature. *)
Lemma three_zone_checked ph n eosS eosC reg c d p p' :
  three_zone_entry CDS2001 ph n eosS eosC reg c d p →
  IceConvect G CDS2001 ClathrateLayers ph Params p = Ok () p' →
  ph ≠ IceI → shell p' T_K (d - 1) <= phase_Tb ph p.
Proof.
  intros entry Hrun Hph.
  assert (0 ≤ phase_top ph p < c)%Z as Htop.
  { destruct entry as (_ & Hwf & _ & _ & _ & _ & _ & _ & Htop & _).
    destruct ph; simpl in *; lia. }
  assert (c ≤ d)%Z as Hcd
    by (destruct (three_zone_completed G CDS2001 ClathrateLayers Params
                    _ _ _ _ _ _ _ _ _ entry Hrun) as (_ & _ & ? & _); done).
  destruct (IceConvect_zones G CDS2001 ClathrateLayers n Params ph eosS eosC reg c d p entry)
    as (p4 & m4 & _ & _ & _ & [(_ & _ & Hraise) | ([? | Hle] & p'' & Hok & _ & _ & Hag & _)]).
  - rewrite Hrun in Hraise. discriminate.
  - done.
  - rewrite Hrun in Hok. injection Hok as <-.
    destruct Hag as [_ Hag]. rewrite (Hag T_K (d - 1)%Z) by (lia || done).
    by apply Rnot_gt_le.
Qed.

(** X11: in a three-zone profile that returns, let the top shell be
    positive and no warmer than the regime's convecting temperature, the
    pressures of the phase non-negative and non-decreasing with the
    index, the pressure at the lid's base and the bottom pressure
    positive, and both tables of non-negative expansivity and positive
    heat capacity and density.  Then ice III and ice V leave a
    temperature that never decreases with depth from the phase's top to
    the last shell updated; and so does ice I whenever its convecting
    zone has ended at or below the bottom temperature, which ice III and
    ice V have checked. *)
Theorem X11_temperature_nondecreasing ph n eosS eosC reg c d p :
  three_zone_entry CDS2001 ph n eosS eosC reg c d p →
  no_fatal_error (IceConvect G CDS2001 ClathrateLayers ph Params) p →
  table_positive eosS → table_positive eosC →
  0 < shell p T_K (phase_top ph p) <= convectedTemperature_K reg →
  0 <= shell p P_MPa (phase_top ph p) →
  0 < shell p P_MPa c → 0 < phase_Pb ph p →
  (∀ i, (phase_top ph p < i ≤ last_updated ph d p)%Z →
        shell p P_MPa (i - 1) <= shell p P_MPa i) →
  ∃ p',
    IceConvect G CDS2001 ClathrateLayers ph Params p = Ok () p'
    ∧ (ph ≠ IceI → shell p' T_K (d - 1) <= phase_Tb ph p)
    ∧ (shell p' T_K (d - 1) <= phase_Tb ph p →
       ∀ i, (phase_top ph p < i ≤ last_updated ph d p)%Z →
            shell p' T_K (i - 1) <= shell p' T_K i).
Proof.
  intros entry Hfatal HposS HposC HTtop HPtop HPc HPb HPmono.
  destruct (three_zone_returns G CDS2001 ClathrateLayers Params
              _ _ _ _ _ _ _ _ entry Hfatal)
    as (p' & Hrun & Henv & Hcd & Htop & Hdn & Hbot & Hpost).
  exists p'. split; [exact Hrun |].
  split; [by apply (three_zone_checked ph n eosS eosC reg c d p p') |].
  destruct Hpost as [TP TH TLT TLP TCT TCP TTT TTP TTOP TF].
  intros HTlast.
  set (top := phase_top ph p) in *. set (e := phase_bottom ph p) in *.
  unfold last_updated in *. fold e in HPmono |- *.
  assert (∀ j, shell p' P_MPa j = shell p P_MPa j) as HP'
    by (intros j; by apply shell_of_arr_eq).
  (* pressures stay non-negative *)
  assert (∀ k : nat, (top + Z.of_nat k ≤ Z.max (d - 1) e)%Z →
            0 <= shell p P_MPa (top + Z.of_nat k)) as HPnn.
  { induction k as [| k IH]; intros Hk.
    - by replace (top + Z.of_nat 0)%Z with top by lia.
    - specialize (HPmono (top + Z.of_nat (S k))%Z ltac:(lia)).
      replace (top + Z.of_nat (S k) - 1)%Z with (top + Z.of_nat k)%Z in HPmono by lia.
      specialize (IH ltac:(lia)). lra. }
  assert (∀ i, (top ≤ i ≤ Z.max (d - 1) e)%Z → 0 <= shell p P_MPa i) as HPnn'.
  { intros i Hi. replace i with (top + Z.of_nat (Z.to_nat (i - top)))%Z by lia.
    apply HPnn. lia. }
  (* the lid is positive, and so is the convecting zone *)
  assert (∀ i, (top ≤ i < c)%Z → 0 < shell p' T_K i) as Hlidpos
    by (intros i Hi; rewrite TLT by done; apply power_law_pos).
  assert (∀ i, (c ≤ i < d)%Z →
            shell p' T_K (i - 1) <= shell p' T_K i) as Hstep_of_pos_aux.
  { assert (∀ k : nat, (c + Z.of_nat k < d)%Z →
              0 < shell p' T_K (c + Z.of_nat k - 1)
              ∧ shell p' T_K (c + Z.of_nat k - 1) <= shell p' T_K (c + Z.of_nat k))
      as Hind.
    { assert (∀ i, (c ≤ i < d)%Z → 0 < shell p' T_K (i - 1) →
                shell p' T_K (i - 1) <= shell p' T_K i) as Hone.
      { intros i Hi Hpos. rewrite (TCT i Hi).
        assert (0 <= shell p' alpha_pK (i - 1) ∧ 0 < shell p' Cp_JkgK (i - 1)
                ∧ 0 < shell p' rho_kgm3 (i - 1)) as (Ha & HCp & Hrho).
        { destruct (decide (i = c)) as [-> | Hne].
          - destruct (TLP (c - 1)%Z ltac:(lia)) as (-> & -> & -> & _). apply HposS.
          - destruct (TCP (i - 1)%Z ltac:(lia)) as (-> & -> & -> & _). apply HposC. }
        apply adiabat_step_ge; try done.
        rewrite !HP'. specialize (HPmono i ltac:(lia)). lra. }
      induction k as [| k IH]; intros Hk.
      - replace (c + Z.of_nat 0)%Z with c in * by lia.
        assert (0 < shell p' T_K (c - 1)) as Hpos by (apply Hlidpos; lia).
        split; [done | apply Hone; [lia | done]].
      - destruct (IH ltac:(lia)) as [Hpos Hle].
        replace (c + Z.of_nat (S k) - 1)%Z with (c + Z.of_nat k)%Z by lia.
        assert (0 < shell p' T_K (c + Z.of_nat k)) as Hpos' by lra.
        split; [done |].
        replace (c + Z.of_nat k)%Z with (c + Z.of_nat (S k) - 1)%Z at 1 by lia.
        apply Hone; [lia |].
        by replace (c + Z.of_nat (S k) - 1)%Z with (c + Z.of_nat k)%Z by lia. }
    intros i Hi. replace i with (c + Z.of_nat (Z.to_nat (i - c)))%Z by lia.
    apply Hind. lia. }
  assert (∀ i, (c - 1 ≤ i < d)%Z → 0 < shell p' T_K i) as Hpos.
  { assert (∀ k : nat, (c - 1 + Z.of_nat k < d)%Z →
              0 < shell p' T_K (c - 1 + Z.of_nat k)) as Hind.
    { induction k as [| k IH]; intros Hk.
      - replace (c - 1 + Z.of_nat 0)%Z with (c - 1)%Z by lia. apply Hlidpos. lia.
      - specialize (IH ltac:(lia)).
        specialize (Hstep_of_pos_aux (c - 1 + Z.of_nat (S k))%Z ltac:(lia)).
        replace (c - 1 + Z.of_nat (S k) - 1)%Z with (c - 1 + Z.of_nat k)%Z
          in Hstep_of_pos_aux by lia.
        lra. }
    intros i Hi. replace i with (c - 1 + Z.of_nat (Z.to_nat (i - (c - 1))))%Z by lia.
    apply Hind. lia. }
  assert (0 < shell p' T_K (d - 1)) as HTlastpos by (apply Hpos; lia).
  intros i Hi.
  destruct (decide (i < c)%Z) as [Hic | Hic].
  { (* within the lid *)
    rewrite (TLT (i - 1)%Z), (TLT i) by lia. apply power_law_mono_P; [done |].
    specialize (HPmono i ltac:(lia)).
    unfold Rdiv. apply Rmult_le_compat_r; [left; by apply Rinv_0_lt_compat | done]. }
  destruct (decide (i < d)%Z) as [Hid | Hid].
  { (* within the convecting zone *) apply Hstep_of_pos_aux. lia. }
  assert (i ≤ e)%Z as Hie by lia.
  destruct (decide (i = d)) as [-> | Hne].
  { (* into the boundary layer *)
    rewrite (TTT d) by lia.
    rewrite <- (power_law_same (shell p' T_K (d - 1)) (phase_Pb ph p)
                  (shell p P_MPa d)) at 1 by done.
    apply power_law_mono_bottom; [| done].
    apply Rmult_le_pos; [apply HPnn'; lia | left; by apply Rinv_0_lt_compat]. }
  (* within the boundary layer *)
  rewrite (TTT (i - 1)%Z), (TTT i) by lia. apply power_law_mono_P; [done |].
  specialize (HPmono i ltac:(lia)).
  unfold Rdiv. apply Rmult_le_compat_r; [left; by apply Rinv_0_lt_compat | done].
Qed.
End Temperatures.

Lemma table_positive_test : table_positive surfTable ∧ table_positive deepTable.
Proof. split; intros P T; simpl; lra. Qed.

Lemma X11_temperature_nondecreasing_witness :
  ∃ p',
    IceConvect test_G test_classifier None IceV test_Params planet_V = Ok () p'
    ∧ shell p' T_K 3 <= 272.356
    ∧ ∀ i, (1 < i ≤ 5)%Z → shell p' T_K (i - 1) <= shell p' T_K i.
Proof.
  destruct (X11_temperature_nondecreasing test_G test_classifier None test_Params
              IceV 6 surfTable deepTable test_regime 3 4 planet_V
              entry_V no_fatal_planet_V
              (proj1 table_positive_test) (proj2 table_positive_test))
    as (p' & Hrun & Hchecked & Hmono).
  - unfold shell. simpl. lra.
  - unfold shell. simpl. lra.
  - unfold shell. simpl. lra.
  - simpl. lra.
  - intros i Hi. change (1 < i ≤ 5)%Z in Hi.
    unfold planet_V. rewrite !test_P by lia. rewrite minus_IZR. lra.
  - exists p'. split; [exact Hrun |].
    assert (shell p' T_K 3 <= 272.356) as Hlast by (by apply Hchecked).
    split; [exact Hlast |]. exact (Hmono Hlast).
Defined.

(** ** Layer masses *)

Lemma cube_increasing (a b : R) : a < b → a ^ 3 < b ^ 3.
Proof.
  intros Hab.
  assert (0 < a * a + a * b + b * b) as Hq.
  { destruct (Req_dec b 0) as [-> | Hb].
    - assert (a <> 0) by lra. nra.
    - assert (0 < b * b) by nra.
      assert (0 <= (a + b / 2) * (a + b / 2)) by apply Rle_0_sqr.
      replace (a * a + a * b + b * b)
        with ((a + b / 2) * (a + b / 2) + 3 / 4 * (b * b)) by field.
      lra. }
  assert (0 < (b - a) * (a * a + a * b + b * b)) as Hprod
    by (apply Rmult_lt_0_compat; lra).
  simpl. nra.
Qed.

Section Masses.
Variable G : R.
Variable CDS2001 : Classifier.
Variable ClathrateLayers : option (ParamsStruct → M unit).
Variable Params : ParamsStruct.

(** X12: in a three-zone profile that returns, the mass stored for the
    layer above every updated shell i is that of a spherical shell
    between the two radii at the upper shell's density,
    MLayer_kg[i-1] = 4/3·pi·rho[i-1]·(r[i-1]³ - r[i]³); it is positive
    as soon as that density is positive and the radius decreases. *)
Theorem X12_layer_masses ph n eosS eosC reg c d p :
  three_zone_entry CDS2001 ph n eosS eosC reg c d p →
  no_fatal_error (IceConvect G CDS2001 ClathrateLayers ph Params) p →
  ∃ p',
    IceConvect G CDS2001 ClathrateLayers ph Params p = Ok () p'
    ∧ ∀ i, (phase_top ph p < i ≤ last_updated ph d p)%Z →
        shell p' MLayer_kg (i - 1)
        = 4 / 3 * PI * shell p' rho_kgm3 (i - 1)
          * (shell p' r_m (i - 1) ^ 3 - shell p' r_m i ^ 3)
        ∧ (0 < shell p' rho_kgm3 (i - 1) → shell p' r_m i < shell p' r_m (i - 1) →
           0 < shell p' MLayer_kg (i - 1)).
Proof.
  intros entry Hfatal.
  destruct (three_zone_returns G CDS2001 ClathrateLayers Params
              _ _ _ _ _ _ _ _ entry Hfatal)
    as (p' & Hrun & Henv & Hcd & Htop & Hdn & Hbot & Hpost).
  destruct Hpost as [TP TH TLT TLP TCT TCP TTT TTP TTOP TF].
  exists p'. split; [exact Hrun |].
  intros i Hi. unfold last_updated in Hi.
  destruct (TH i) as (_ & _ & HM & _); [lia | lia |].
  split; [exact HM |].
  intros Hrho Hr. rewrite HM.
  pose proof (cube_increasing _ _ Hr) as Hcube. pose proof PI_RGT_0 as Hpi.
  apply Rmult_lt_0_compat; [| lra].
  apply Rmult_lt_0_compat; [lra | done].
Qed.
End Masses.

Lemma X12_layer_masses_witness :
  ∃ p',
    IceConvect test_G test_classifier None IceI test_Params planet_I = Ok () p'
    ∧ ∀ i, (0 < i ≤ 5)%Z →
        shell p' MLayer_kg (i - 1)
        = 4 / 3 * PI * shell p' rho_kgm3 (i - 1)
          * (shell p' r_m (i - 1) ^ 3 - shell p' r_m i ^ 3)
        ∧ (0 < shell p' rho_kgm3 (i - 1) → shell p' r_m i < shell p' r_m (i - 1) →
           0 < shell p' MLayer_kg (i - 1)).
Proof.
  exact (X12_layer_masses test_G test_classifier None test_Params
           IceI 6 surfTable surfTable test_regime 2 3 planet_I
           entry_planet_I no_fatal_planet_I).
Defined.

(** ** One phase after another *)

Section Compose.
Variable G : R.
Variable CDS2001 : Classifier.
Variable ClathrateLayers : option (ParamsStruct → M unit).
Variable Params : ParamsStruct.

(** What a conduction-only call of ice I leaves for the next phase. *)
Lemma whole_layer_result_IceI_env reg p :
  let p1 := whole_layer_result IceI reg p in
  arr p1 = arr p ∧ Steps p1 = Steps p ∧ Do p1 = Do p
  ∧ attr p1 = attr (store_regime IceI reg p)
  ∧ EOS (Ocean p1) = EOS (Ocean p)
  ∧ surfIceEOS (Ocean p1) = surfIceEOS (Ocean p)
  ∧ ∀ x, x ≠ clathMaxDepth_m → Bulk p1 x = Bulk p x.
Proof.
  destruct (cap_clathrate_env reg (store_regime IceI reg p))
    as (HS & HD & HO & HA & Harr & HB).
  cbv zeta. unfold whole_layer_result, enter_zones.
  cbn [set_QfromMantle_W arr Steps Do attr Ocean Bulk EOS surfIceEOS].
  split; [exact Harr |]. split; [exact HS |]. split; [exact HD |].
  split; [exact HA |].
  split; [by rewrite HO |]. split; [by rewrite HO |].
  intros x Hx. by rewrite HB.
Qed.

(** X13: ice I and then ice III, both in whole-layer conduction: the
    two calls return, no array is written, each phase's regime sits in
    its own attributes, and the heat flow ice I had recomputed from the
    temperature gradient is overwritten by the heat flow of the ice III
    classifier. *)
Theorem X13_IceI_then_IceIII_conduction n eosI eosIII regI regIII p :
  shells n p → phase_wf IceI n p → phase_wf IceIII n p →
  lid_table IceI p = Some eosI → lid_table IceIII p = Some eosIII →
  regI = phase_regime CDS2001 IceI eosI p →
  regIII = phase_regime CDS2001 IceIII eosIII p →
  whole_layer_conduction IceI regI p → whole_layer_conduction IceIII regIII p →
  ∃ p1 p2,
    IceConvect G CDS2001 ClathrateLayers IceI Params p = Ok () p1
    ∧ IceConvect G CDS2001 ClathrateLayers IceIII Params p1 = Ok () p2
    ∧ arr p2 = arr p
    ∧ QfromMantle_W (Ocean p1) = conductive_heat_flow p
    ∧ QfromMantle_W (Ocean p2) = heatFlowFromBelow_W regIII
    ∧ attr p2 Tconv_K = convectedTemperature_K regI
    ∧ attr p2 TconvIII_K = convectedTemperature_K regIII.
Proof.
  intros Hn HwfI HwfIII HeosI HeosIII HregI HregIII HwlcI HwlcIII.
  set (p1 := whole_layer_result IceI regI p).
  destruct (whole_layer_result_IceI_env regI p)
    as (Harr & HS & HD & HA & HE & HT & HB). fold p1 in Harr, HS, HD, HA, HE, HT, HB.
  assert (∀ F j, shell p1 F j = shell p F j) as Hsh
    by (intros; unfold shell; by rewrite Harr).
  assert (shells n p1) as Hn1 by (intros F; rewrite Harr; apply Hn).
  assert (phase_regime CDS2001 IceIII eosIII p1 = regIII) as Hreg1.
  { rewrite HregIII. unfold phase_regime, phase_thickness.
    rewrite !Hsh, HS, HD, HE, HA, !HB by done. reflexivity. }
  assert (whole_layer_conduction IceIII regIII p1) as Hwlc1.
  { unfold whole_layer_conduction, phase_thickness in *. by rewrite !Hsh, HS. }
  exists p1, (whole_layer_result IceIII regIII p1).
  split; [by apply (IceConvect_whole_layer G CDS2001 ClathrateLayers Params IceI n eosI) |].
  split.
  { apply (IceConvect_whole_layer G CDS2001 ClathrateLayers Params IceIII n eosIII);
      try done.
    - unfold phase_wf. by rewrite HS.
    - unfold lid_table. by rewrite HT. }
  split; [by rewrite arr_whole_layer_result |].
  split; [reflexivity |]. split; [reflexivity |].
  split; [| reflexivity].
  change (attr (whole_layer_result IceIII regIII p1) Tconv_K) with (attr p1 Tconv_K).
  by rewrite HA.
Qed.
End Compose.

Lemma X13_IceI_then_IceIII_conduction_witness :
  ∃ p1 p2,
    IceConvect test_G test_classifier None IceI test_Params planet_thin = Ok () p1
    ∧ IceConvect test_G test_classifier None IceIII test_Params p1 = Ok () p2
    ∧ arr p2 = arr planet_thin
    ∧ QfromMantle_W (Ocean p1) = conductive_heat_flow planet_thin
    ∧ QfromMantle_W (Ocean p2) = 1e9
    ∧ attr p2 Tconv_K = 243
    ∧ attr p2 TconvIII_K = 243.
Proof.
  apply (X13_IceI_then_IceIII_conduction test_G test_classifier None test_Params 6
           surfTable surfTable test_regime test_regime planet_thin).
  - by apply shells_test_planet.
  - simpl. lia.
  - simpl. lia.
  - reflexivity.
  - reflexivity.
  - reflexivity.
  - reflexivity.
  - apply whole_layer_thin. auto.
  - apply whole_layer_thin. auto.
Defined.

(** ** Ice V and its second table *)

Section DeepTable.
Variable G : R.
Variable CDS2001 : Classifier.
Variable n : nat.
Variable Params : ParamsStruct.

(** Ice V up to its convecting loop, with no word on [Ocean.iceEOS]. *)
Lemma IceVConvect_lid eosS reg c d p :
  shells n p → phase_wf IceV n p → lid_table IceV p = Some eosS →
  reg = phase_regime CDS2001 IceV eosS p →
  ¬ whole_layer_conduction IceV reg p →
  next_index_gt (arr p z_m) (lid_threshold IceV reg p) = Some c →
  next_index_gt (arr p z_m) (TBL_threshold IceV reg p) = Some d →
  (phase_top IceV p < c)%Z →
  ∃ p3 m3,
    shells n p3 ∧ same_env (enter_zones IceV reg p) p3
    ∧ upper_zones_post G eosS eosS (phase_top IceV p) c c (convectedTemperature_K reg)
        (shell p P_MPa c) (phase_mass_above IceV p) p p3 m3
    ∧ IceVConvect G CDS2001 Params p
      = (thisMAbove_kg ← for_ (range c d) (convect_step G (iceEOS_at "V")) (Some m3);
         Tlast ← getitem T_K (d - 1);
         TbV ← bulk TbV_K;
         if decide (Tlast > TbV) then @raise unit ValueError else
         PbV ← scalar PbV_MPa;
         assign_TBL_T (range d (nSurfIce (Steps p) + 1)) TbV PbV (d - 1);;
         assign_TBL_props (surfIceEOS_at "V") (range d (nSurfIce (Steps p) + 1));;
         _ ← for_ (range d (nSurfIce (Steps p) + 1)) (increment_depth G) thisMAbove_kg;
         mret ()) p3.
Proof.
  intros Hn [HIIIb HSurf] Heos Hreg Hwlc Hc Hd Htop.
  pose proof (next_index_gt_lt _ _ _ Hc) as Hcn.
  pose proof (next_index_gt_lt _ _ _ Hd) as Hdn.
  rewrite Hn in Hcn, Hdn.
  set (pre := enter_zones IceV reg p).
  assert (shells n pre) as Hnpre by (by apply shells_enter_zones).
  assert (resolves (surfIceEOS_at "V") eosS pre) as Hres
    by (by apply resolves_surfIceEOS).
  simpl in Htop.
  destruct (upper_zones_ok G n (surfIceEOS_at "V") (surfIceEOS_at "V") eosS eosS
              (nIIIbottom (Steps p)) c c (convectedTemperature_K reg)
              (shell pre P_MPa c)
              (sumZ (shell p MLayer_kg) 0 (nIIIbottom (Steps p))) pre
              Hnpre ltac:(lia) ltac:(lia) ltac:(lia) ltac:(lia) Hres Hres _ eq_refl)
    as (p2 & p3 & m3 & p4 & m4 & Hr2 & Hr3 & Hr4 & Hn4 & Henv4 & Hup).
  rewrite range_nil in Hr4 by lia. injection Hr4 as <- <-.
  exists p3, m3. split; [done |]. split; [done |].
  split; [by apply (upper_zones_post_arr _ _ _ _ _ _ _ _ _ pre) |].
  unfold IceVConvect.
  mpure. mget n. mpure. mget n. mpure. mpure. mpure. mget n. mget n. mpure. mget n.
  mpure. mstep ltac:(by apply (resolves_surfIceEOS _ eosS p Heos)). mpure.
  unfold phase_regime, phase_thickness in Hreg. rewrite <- Hreg.
  do 6 mpure. mpure. mpure.
  match goal with
  | |- context [decide ?P] => change P with (whole_layer_conduction IceV reg p)
  end.
  rewrite decide_False by done.
  change (set_attr RaConvectV _ _) with pre. unfold IceVConvect_three_zone.
  mpure. change (Steps pre) with (Steps p).
  mgetH n Hnpre. mpure.
  mstep ltac:(apply next_z_gt_ok; exact Hc).
  mpure.
  mstep ltac:(apply next_z_gt_ok; exact Hd).
  mpure. change (Steps pre) with (Steps p).
  mgetH n Hnpre. mpure.
  rewrite (np_sum_getslice n) by (done || lia).
  mpure.
  mstep ltac:(apply (assign_lid_T_ok n); (done || lia)).
  mstep ltac:(exact Hr2). mstep ltac:(exact Hr3).
  reflexivity.
Qed.

(** X14: [IceVConvect] looks [Ocean.iceEOS['V']] up inside its convecting
    loop only.  With that entry missing and a convecting zone of at least
    one shell, the call raises KeyError once the lid has been rewritten:
    the lid shells hold their power law at that moment. *)
Theorem X14_IceV_missing_deep_table eosS reg c d p :
  shells n p → phase_wf IceV n p → lid_table IceV p = Some eosS →
  reg = phase_regime CDS2001 IceV eosS p →
  ¬ whole_layer_conduction IceV reg p →
  next_index_gt (arr p z_m) (lid_threshold IceV reg p) = Some c →
  next_index_gt (arr p z_m) (TBL_threshold IceV reg p) = Some d →
  (phase_top IceV p < c)%Z → (c < d)%Z →
  iceEOS (Ocean p) "V" = None →
  ∃ q, IceVConvect G CDS2001 Params p = Raise KeyError q
     ∧ ∀ i, (phase_top IceV p ≤ i < c)%Z →
         shell q T_K i
         = convectedTemperature_K reg ** (shell p P_MPa i / shell p P_MPa c)
           * shell p T_K (phase_top IceV p) ** (1 - shell p P_MPa i / shell p P_MPa c).
Proof.
  intros Hn Hwf Heos Hreg Hwlc Hc Hd Htop Hcd Hdeep.
  destruct (IceVConvect_lid eosS reg c d p Hn Hwf Heos Hreg Hwlc Hc Hd Htop)
    as (p3 & m3 & Hn3 & Henv3 & Hup & Hrun).
  pose proof (next_index_gt_lt _ _ _ Hc) as Hcn. rewrite Hn in Hcn.
  simpl in Htop. destruct Hwf as [HIIIb _].
  assert (∀ q, same_env p3 q → iceEOS_at "V" q = Raise KeyError q) as Hmiss.
  { intros q Hq. apply iceEOS_at_missing.
    destruct Hq as (_ & _ & _ & -> & _). destruct Henv3 as (_ & _ & _ & -> & _).
    exact Hdeep. }
  destruct (increment_depth_ok G n c m3 p3 Hn3 ltac:(lia))
    as (p1 & Hrun1 & Hn1 & Henv1 & Hfr1 & _).
  eexists. split.
  - rewrite Hrun. rewrite (range_cons c d) by lia. simpl.
    apply bind_Raise. apply bind_Raise. unfold convect_step.
    mstep ltac:(exact Hrun1).
    mget n. mget n. mget n. mget n. mget n. mget n. mget n.
    mstep ltac:(apply (setitem_ok n); [done | lia]).
    apply bind_Raise. unfold eos_assign_item. apply bind_Raise.
    apply Hmiss. eapply same_env_trans; [exact Henv1 |]. by repeat split.
  - intros i Hi. destruct Hup as [UP UH UM ULT ULP UCT UCP UTOP UF].
    pose proof Hi as Hi'. simpl in Hi'.
    rewrite shell_upd_ne; [| lia | lia | right; lia].
    rewrite (Hfr1 T_K i) by (lia || (intros [[[? | [? | ?]] _] | [? _]]; done)).
    by rewrite ULT.
Qed.

(** X15: with an empty convecting zone (both searches end on the same
    shell) [IceVConvect] never reads [Ocean.iceEOS]: whatever that
    dictionary holds, the call either ends in the ValueError of the
    bottom-temperature check or returns, the boundary layer then holding
    the power law anchored at the lid's last temperature. *)
Theorem X15_IceV_empty_convecting_zone eosS reg c p :
  shells n p → phase_wf IceV n p → lid_table IceV p = Some eosS →
  reg = phase_regime CDS2001 IceV eosS p →
  ¬ whole_layer_conduction IceV reg p →
  next_index_gt (arr p z_m) (lid_threshold IceV reg p) = Some c →
  next_index_gt (arr p z_m) (TBL_threshold IceV reg p) = Some c →
  (phase_top IceV p < c)%Z →
  ∃ q,
    (IceVConvect G CDS2001 Params p = Raise ValueError q
     ∧ shell q T_K (c - 1) > Bulk p TbV_K)
    ∨ (IceVConvect G CDS2001 Params p = Ok () q
       ∧ ∀ i, (c ≤ i ≤ nSurfIce (Steps p))%Z →
           shell q T_K i
           = power_law (Bulk p TbV_K) (shell q T_K (c - 1)) (attr p PbV_MPa)
               (shell p P_MPa i)).
Proof.
  intros Hn Hwf Heos Hreg Hwlc Hc Hd Htop.
  destruct (IceVConvect_lid eosS reg c c p Hn Hwf Heos Hreg Hwlc Hc Hd Htop)
    as (p3 & m3 & Hn3 & Henv3 & Hup & Hrun).
  pose proof (next_index_gt_lt _ _ _ Hc) as Hcn. rewrite Hn in Hcn.
  simpl in Htop. destruct Hwf as [HIIIb HSurf].
  rewrite (range_nil c c) in Hrun by lia.
  assert (Bulk p3 TbV_K = Bulk p TbV_K) as HTb
    by (destruct Henv3 as [-> _]; done).
  assert (attr p3 PbV_MPa = attr p PbV_MPa) as HPb
    by (destruct Henv3 as (_ & _ & _ & _ & ->); done).
  destruct (decide (shell p3 T_K (c - 1) > Bulk p TbV_K)) as [Hhot | Hcold].
  - exists p3. left. split; [| done].
    rewrite Hrun. mpure. mget n. mpure. rewrite HTb. by rewrite decide_True.
  - destruct (lower_zones_ok G n (surfIceEOS_at "V") eosS c (nSurfIce (Steps p))
                (Bulk p TbV_K) (attr p PbV_MPa) m3 p3 Hn3 ltac:(lia) ltac:(lia))
      as (p5 & p6 & p7 & m7 & Hr5 & Hr6 & Hr7 & Hn7 & Henv7 & Hag & HP7 & _ & HT7 & _).
    { apply resolves_surfIceEOS.
      destruct Henv3 as (_ & _ & _ & -> & _). exact Heos. }
    exists p7. right. split.
    + rewrite Hrun. mpure. mget n. mpure. rewrite HTb.
      rewrite decide_False by done.
      mpure. rewrite HPb.
      mstep ltac:(exact Hr5). mstep ltac:(exact Hr6). mstep ltac:(exact Hr7).
      reflexivity.
    + intros i Hi. rewrite HT7 by done.
      destruct Hag as [_ Hag]. rewrite (Hag T_K (c - 1)%Z) by (lia || done).
      destruct Hup as [UP _ _ _ _ _ _ _ _].
      by rewrite (shell_of_arr_eq P_MPa p p3).
Qed.
End DeepTable.

Lemma test_V_no_deep_facts :
  shells 6 planet_V_no_deep ∧ phase_wf IceV 6 planet_V_no_deep
  ∧ lid_table IceV planet_V_no_deep = Some surfTable
  ∧ iceEOS (Ocean planet_V_no_deep) "V" = None.
Proof.
  split; [intros F; destruct F; reflexivity |].
  split; [simpl; lia |]. split; reflexivity.
Qed.

Lemma X14_IceV_missing_deep_table_witness :
  ∃ q, IceVConvect test_G test_classifier test_Params planet_V_no_deep
       = Raise KeyError q
     ∧ ∀ i, (1 ≤ i < 3)%Z →
         shell q T_K i
         = 243 ** (shell planet_V_no_deep P_MPa i / shell planet_V_no_deep P_MPa 3)
           * shell planet_V_no_deep T_K 1
             ** (1 - shell planet_V_no_deep P_MPa i / shell planet_V_no_deep P_MPa 3).
Proof.
  destruct test_V_no_deep_facts as (Hn & Hwf & Heos & Hdeep).
  apply (X14_IceV_missing_deep_table test_G test_classifier 6 test_Params
           surfTable test_regime 3 4 planet_V_no_deep Hn Hwf Heos).
  - reflexivity.
  - unfold whole_layer_conduction, phase_thickness, shell. simpl. lra.
  - apply (next_TBL_test 272.356 T_guess (Steps planet_V) false).
    unfold lid_threshold, phase_top, shell. simpl. lra.
  - apply (next_deep_test 272.356 T_guess (Steps planet_V) false).
    unfold TBL_threshold, phase_thickness, phase_top, shell. simpl. lra.
  - simpl. lia.
  - lia.
  - exact Hdeep.
Defined.

Lemma X15_IceV_empty_convecting_zone_witness :
  iceEOS (Ocean planet_V_no_deep) "V" = None
  ∧ ∃ q,
      (IceVConvect test_G thick_classifier test_Params planet_V_no_deep
       = Raise ValueError q
       ∧ shell q T_K (3 - 1) > 272.356)
      ∨ (IceVConvect test_G thick_classifier test_Params planet_V_no_deep = Ok () q
         ∧ ∀ i, (3 ≤ i ≤ 5)%Z →
             shell q T_K i
             = power_law 272.356 (shell q T_K (3 - 1)) 0.5
                 (shell planet_V_no_deep P_MPa i)).
Proof.
  destruct test_V_no_deep_facts as (Hn & Hwf & Heos & Hdeep).
  split; [exact Hdeep |].
  apply (X15_IceV_empty_convecting_zone test_G thick_classifier 6 test_Params
           surfTable thick_regime 3 planet_V_no_deep Hn Hwf Heos).
  - reflexivity.
  - unfold whole_layer_conduction, phase_thickness, shell. simpl. lra.
  - apply (next_TBL_test 272.356 T_guess (Steps planet_V) false).
    unfold lid_threshold, phase_top, shell. simpl. lra.
  - apply (next_TBL_test 272.356 T_guess (Steps planet_V) false).
    unfold TBL_threshold, phase_thickness, phase_top, shell. simpl. lra.
  - simpl. lia.
Defined.
